(** * Converter: job tracking and resumable client state

    A shallow embedding of the browser client's persistence layer
    ([static/js/storage.js], both listings: the one that talks to
    [localStorage] directly and the one that keeps a [CACHE] mirror in
    front of it), of the polling loop [pollJobStatus] and of the start-up
    coordinator [checkAndResumeJob] of the conversion manager, and of the
    storage effects of the UI manager's [startConversion] / [resetForm];
    further, of the storage reads made when the page is initialised, of
    the UI manager's queue counter, and of the format tables and the file
    check of [Utils].

    Conventions of the model.
    - Time is [Date.now()] in milliseconds, an integer ([Z]).
    - A string kept in [localStorage] is represented by what
      [JSON.parse] makes of it ([raw]); [JSON.stringify] followed by
      [JSON.parse] is the identity on the values the program stores.
    - JavaScript exceptions are explicit: a computation finishes with
      [Normal a] or [Throw], and the state reached before a throw is
      kept (an assignment made before the failing statement stays made).
    - [localStorage] can be unavailable (every access throws) or over
      quota (every [setItem] throws); these are the two persistence
      failures the guards in the source are written for.
    - The poll interval is a JavaScript number; every value it takes is a
      dyadic rational far below 2^53, so exact rationals ([Q]) model it
      without rounding.
    - DOM updates are recorded as events; they never throw.  What can
      throw next to them is a method call on a value looked up in a
      table: [label.toLowerCase()] in [displayResult], when the label
      found under the format is an inherited member of the table.
    - The page runs one handler at a time, each up to its next [await].
      A function with an [await] in it is given in two halves, and a
      poll turn by turn, so that what other handlers do in between can
      be said ([handle], [run_handlers]); where a function is given
      whole, nothing is taken to run in between.
    - The poll reads the flag [ui.pageVisible], not the document: a
      turn is [FlagFalse] or [FlagTrue], and [turn_of] says which one a
      given history of [visibilitychange] events leads to. *)

From Stdlib Require Import ZArith QArith Qminmax Lia Lqa List Sorted Ascii String
  Bool.
From stdpp Require Import base option strings gmap list.
Import ListNotations.

(** ** Values *)

Inductive scalar :=
| SNum (n : Z)
| SStr (s : string).

(** [params] of a finished job: fps, width, height, output_size_mb, ... *)
Definition params := list (string * scalar).

(** The two objects the program hands to the save functions. *)
Inductive payload :=
| JobRef (jobId format : string)
| Result (gifUrl : string) (p : option params) (format : string).

Record HistoryEntry := mkHistoryEntry {
  h_url : string;
  h_format : string;
  h_params : option params;
  h_timestamp : Z;
  h_date : string
}.

(** What [JSON.parse] can return for the strings found under the keys of
    this program.  [JObj v ts] is the envelope [{ ...v, timestamp: ts }];
    [ts = None] stands for an object without a numeric [timestamp]. *)
Inductive json :=
| JObj (v : payload) (timestamp : option Z)
| JArr (h : list HistoryEntry)
| JBool (b : bool)
| JNull.

(** A string held by [localStorage]. *)
Inductive raw :=
| Str (j : json)     (* JSON text of [j] *)
| EmptyStr           (* the empty string, falsy *)
| NotJson.           (* text that [JSON.parse] rejects *)

(** JavaScript truthiness of a parsed value. *)
Definition truthy (j : json) : bool :=
  match j with
  | JObj _ _ | JArr _ => true
  | JBool b => b
  | JNull => false
  end.

(** ** The store *)

Record Storage := mkStorage {
  items : gmap string raw;
  quota_exceeded : bool
}.

(** [CACHE] is the module-level [Map] of the mirrored listing;
    [localStorage = None] is a browser in which touching [localStorage]
    throws. *)
Record store := mkStore {
  CACHE : gmap string json;
  localStorage : option Storage
}.

(** What an inspection of the durable store shows under [k]. *)
Definition durable (k : string) (s : store) : option raw :=
  match localStorage s with
  | Some ls => items ls !! k
  | None => None
  end.

(** ** Computations with state and exceptions *)

Inductive completion (A : Type) :=
| Normal (a : A)
| Throw.
Arguments Normal {A} a.
Arguments Throw {A}.

Definition M (S A : Type) : Type := S -> completion A * S.

Definition ret {S A} (a : A) : M S A := fun s => (Normal a, s).

Definition bind {S A B} (m : M S A) (k : A -> M S B) : M S B :=
  fun s =>
    match m s with
    | (Normal a, s') => k a s'
    | (Throw, s') => (Throw, s')
    end.

Definition throw {S A} : M S A := fun s => (Throw, s).

(** [try { body } catch (e) { handler }] *)
Definition try_catch {S A} (body handler : M S A) : M S A :=
  fun s =>
    match body s with
    | (Normal a, s') => (Normal a, s')
    | (Throw, s') => handler s'
    end.

Definition gets {S A} (f : S -> A) : M S A := fun s => (Normal (f s), s).
Definition modify {S} (f : S -> S) : M S unit := fun s => (Normal tt, f s).

#[global] Instance M_ret {S} : MRet (M S) := fun A => @ret S A.
#[global] Instance M_bind {S} : MBind (M S) := fun A B k m => @bind S A B m k.

(** A computation that cannot throw. *)
Definition never_throws {S A} (m : M S A) : Prop :=
  forall s, exists a, fst (m s) = Normal a.

(** ** Primitive operations *)

Definition TTL : Z := 86400000.

Definition ls_getItem (k : string) : M store (option raw) :=
  fun s =>
    match localStorage s with
    | None => (Throw, s)
    | Some ls => (Normal (items ls !! k), s)
    end.

Definition ls_setItem (k : string) (v : raw) : M store unit :=
  fun s =>
    match localStorage s with
    | None => (Throw, s)
    | Some ls =>
        if quota_exceeded ls then (Throw, s)
        else (Normal tt,
              mkStore (CACHE s)
                (Some (mkStorage (<[k := v]> (items ls)) (quota_exceeded ls))))
    end.

Definition ls_removeItem (k : string) : M store unit :=
  fun s =>
    match localStorage s with
    | None => (Throw, s)
    | Some ls =>
        (Normal tt,
         mkStore (CACHE s)
           (Some (mkStorage (delete k (items ls)) (quota_exceeded ls))))
    end.

Definition CACHE_get (k : string) : M store (option json) :=
  gets (fun s => CACHE s !! k).

Definition CACHE_set (k : string) (v : json) : M store unit :=
  modify (fun s => mkStore (<[k := v]> (CACHE s)) (localStorage s)).

Definition CACHE_delete (k : string) : M store unit :=
  modify (fun s => mkStore (delete k (CACHE s)) (localStorage s)).

Definition JSON_parse (r : raw) : M store json :=
  match r with
  | Str j => ret j
  | EmptyStr | NotJson => throw
  end.

(** [data.timestamp]: a [TypeError] on [null], [undefined] on values
    without the field. *)
Definition get_timestamp (data : json) : M store (option Z) :=
  match data with
  | JNull => throw
  | JObj _ ts => ret ts
  | JArr _ | JBool _ => ret None
  end.

(** [Date.now() - ts > TTL]; with [ts] undefined the difference is NaN and
    the comparison is false. *)
Definition expired (now : Z) (ts : option Z) : bool :=
  match ts with
  | Some t => (now - t >? TTL)%Z
  | None => false
  end.

(** [history.filter(...)]: a [TypeError] unless [history] is an array. *)
Definition as_array (j : json) : M store (list HistoryEntry) :=
  match j with
  | JArr h => ret h
  | _ => throw
  end.

(** [entry => now - entry.timestamp < TTL] *)
Definition fresh (now : Z) (e : HistoryEntry) : bool :=
  (now - h_timestamp e <? TTL)%Z.


(** [!data] for the result of [CACHE.get]. *)
Definition present (c : option json) : bool :=
  match c with
  | Some j => truthy j
  | None => false
  end.

(** ** storage.js, first listing: straight to [localStorage] *)

Module Direct.

Definition saveToStorage (key : string) (data : payload) (now : Z)
  : M store unit :=
  try_catch
    (ls_setItem key (Str (JObj data (Some now))))
    (mret tt).

Definition getFromStorage (key : string) (clearFn : M store unit) (now : Z)
  : M store (option json) :=
  try_catch
    (saved ← ls_getItem key;
     match saved with
     | None | Some EmptyStr => mret None
     | Some r =>
         data ← JSON_parse r;
         ts ← get_timestamp data;
         if expired now ts then clearFn ;; mret None
         else mret (Some data)
     end)
    (clearFn ;; mret None).

Definition clearFromStorage (key : string) : M store unit :=
  try_catch (ls_removeItem key) (mret tt).

Definition saveActiveJob (jobId format : string) (now : Z) : M store unit :=
  saveToStorage "activeJob" (JobRef jobId format) now.

Definition clearActiveJob : M store unit :=
  clearFromStorage "activeJob".

Definition getActiveJob (now : Z) : M store (option json) :=
  getFromStorage "activeJob" clearActiveJob now.

Definition clearCompletedResult : M store unit :=
  clearFromStorage "completedResult".

Definition saveCompletedResult (gifUrl : string) (p : option params)
    (format : string) (now : Z) : M store unit :=
  saveToStorage "completedResult" (Result gifUrl p format) now ;;
  clearActiveJob.

Definition getCompletedResult (now : Z) : M store (option json) :=
  getFromStorage "completedResult" clearCompletedResult now.

Definition MAX_HISTORY_ITEMS : nat := 5.

Definition getHistory (now : Z) : M store (list HistoryEntry) :=
  try_catch
    (saved ← ls_getItem "conversionHistory";
     match saved with
     | None | Some EmptyStr => mret []
     | Some r =>
         parsed ← JSON_parse r;
         history ← as_array parsed;
         let validHistory := List.filter (fresh now) history in
         (if negb (length validHistory =? length history)%nat
          then ls_setItem "conversionHistory" (Str (JArr validHistory))
          else mret tt) ;;
         mret validHistory
     end)
    (mret []).

(** [history.unshift(newEntry); if (history.length > MAX) history.pop()] *)
Definition push_entry (newEntry : HistoryEntry) (history : list HistoryEntry)
  : list HistoryEntry :=
  let history := newEntry :: history in
  if (MAX_HISTORY_ITEMS <? length history)%nat then removelast history
  else history.

Definition saveToHistory (url format : string) (p : option params)
    (now : Z) (date : string) : M store unit :=
  try_catch
    (history ← getHistory now;
     let newEntry := mkHistoryEntry url format p now date in
     ls_setItem "conversionHistory" (Str (JArr (push_entry newEntry history))))
    (mret tt).

Definition clearHistory : M store unit :=
  clearFromStorage "conversionHistory".

Definition getAutoDownload : M store bool :=
  try_catch
    (v ← ls_getItem "autoDownload";
     mret (match v with Some (Str (JBool true)) => true | _ => false end))
    (mret false).

Definition setAutoDownload (enabled : bool) : M store unit :=
  try_catch (ls_setItem "autoDownload" (Str (JBool enabled))) (mret tt).

End Direct.

(** ** storage.js, second listing: a [CACHE] mirror in front of
    [localStorage] *)

Module Mirrored.

Definition LIM : nat := 3.
Definition MAX_HISTORY_ITEMS : nat := LIM.

Definition _save (key : string) (val : payload) (now : Z) : M store unit :=
  try_catch
    (let data := JObj val (Some now) in
     CACHE_set key data ;;
     ls_setItem key (Str data))
    (mret tt).

Definition _clear (key : string) : M store unit :=
  try_catch (CACHE_delete key ;; ls_removeItem key) (mret tt).

Definition _get (key : string) (clearFromStorage : bool) (now : Z)
  : M store (option json) :=
  try_catch
    (cached ← CACHE_get key;
     loaded ←
       (if present cached then mret cached
        else
          r ← ls_getItem key;
          match r with
          | None | Some EmptyStr => mret None
          | Some r =>
              data ← JSON_parse r;
              CACHE_set key data ;;
              mret (Some data)
          end);
     match loaded with
     | None => mret None
     | Some data =>
         ts ← get_timestamp data;
         if expired now ts then _clear key ;; mret None
         else mret (Some data)
     end)
    ((if clearFromStorage then _clear key else mret tt) ;; mret None).

Definition saveActiveJob (jobId format : string) (now : Z) : M store unit :=
  _save "activeJob" (JobRef jobId format) now.

Definition getActiveJob (now : Z) : M store (option json) :=
  _get "activeJob" true now.

Definition clearActiveJob : M store unit :=
  _clear "activeJob".

Definition saveCompletedResult (gifUrl : string) (p : option params)
    (format : string) (now : Z) : M store unit :=
  _save "completedResult" (Result gifUrl p format) now ;;
  clearActiveJob.

Definition getCompletedResult (now : Z) : M store (option json) :=
  _get "completedResult" true now.

Definition clearCompletedResult : M store unit :=
  _clear "completedResult".

(** [getHistory] hands out the very array it leaves in [CACHE] unless it
    returns a new empty array; the flag says which, because
    [saveToHistory] goes on to change the array in place. *)
Definition getHistory_ref (now : Z) : M store (list HistoryEntry * bool) :=
  try_catch
    (cached ← CACHE_get "conversionHistory";
     loaded ←
       (if present cached then mret cached
        else
          r ← ls_getItem "conversionHistory";
          match r with
          | None | Some EmptyStr => mret None
          | Some r => j ← JSON_parse r; mret (Some j)
          end);
     match loaded with
     | None => mret ([], false)
     | Some j =>
         history ← as_array j;
         let valid := List.filter (fresh now) history in
         if negb (length valid =? length history)%nat then
           ls_setItem "conversionHistory" (Str (JArr valid)) ;;
           CACHE_set "conversionHistory" (JArr valid) ;;
           mret (valid, true)
         else
           CACHE_set "conversionHistory" (JArr history) ;;
           mret (history, true)
     end)
    (mret ([], false)).

Definition getHistory (now : Z) : M store (list HistoryEntry) :=
  '(history, _) ← getHistory_ref now; mret history.

(** [history.unshift(e); if (history.length > LIM) history.length = LIM] *)
Definition push_entry (newEntry : HistoryEntry) (history : list HistoryEntry)
  : list HistoryEntry :=
  let history := newEntry :: history in
  if (LIM <? length history)%nat then firstn LIM history else history.

Definition saveToHistory (url format : string) (p : option params)
    (now : Z) (date : string) : M store unit :=
  '(old, shared) ← getHistory_ref now;
  let history := push_entry (mkHistoryEntry url format p now date) old in
  (* the in-place change shows through the mirror when the array is shared *)
  (if (shared : bool) then CACHE_set "conversionHistory" (JArr history) else mret tt) ;;
  try_catch
    (ls_setItem "conversionHistory" (Str (JArr history)) ;;
     CACHE_set "conversionHistory" (JArr history))
    (mret tt).

Definition clearHistory : M store unit :=
  _clear "conversionHistory".

(** No guard here: an exception of [localStorage] reaches the caller. *)
Definition getAutoDownload : M store bool :=
  v ← ls_getItem "autoDownload";
  mret (match v with Some (Str (JBool true)) => true | _ => false end).

Definition setAutoDownload (enabled : bool) : M store unit :=
  ls_setItem "autoDownload" (Str (JBool enabled)).

(** [window.addEventListener('storage', e => CACHE.delete(e.key))] *)
Definition on_storage_event (key : string) : M store unit :=
  CACHE_delete key.

End Mirrored.

(** ** The interface the conversion and UI managers use *)

Record StorageManager := mkStorageManager {
  sm_saveActiveJob : string -> string -> Z -> M store unit;
  sm_getActiveJob : Z -> M store (option json);
  sm_clearActiveJob : M store unit;
  sm_saveCompletedResult : string -> option params -> string -> Z -> M store unit;
  sm_getCompletedResult : Z -> M store (option json);
  sm_clearCompletedResult : M store unit;
  sm_saveToHistory : string -> string -> option params -> Z -> string -> M store unit;
  sm_getHistory : Z -> M store (list HistoryEntry);
  sm_getAutoDownload : M store bool
}.

Definition direct_manager : StorageManager :=
  mkStorageManager
    Direct.saveActiveJob Direct.getActiveJob Direct.clearActiveJob
    Direct.saveCompletedResult Direct.getCompletedResult
    Direct.clearCompletedResult
    Direct.saveToHistory Direct.getHistory Direct.getAutoDownload.

Definition mirrored_manager : StorageManager :=
  mkStorageManager
    Mirrored.saveActiveJob Mirrored.getActiveJob Mirrored.clearActiveJob
    Mirrored.saveCompletedResult Mirrored.getCompletedResult
    Mirrored.clearCompletedResult
    Mirrored.saveToHistory Mirrored.getHistory Mirrored.getAutoDownload.

(** ** The page *)

(** Body of [GET /progress/{job_id}].  An absent [status] is the empty
    string (falsy, and equal to none of the literals it is compared
    with). *)
Record StatusData := mkStatusData {
  status : string;
  message : option string;
  d_format : option string;
  gif_url : string;
  d_params : option params
}.

(** [Date.now()] and [new Date().toLocaleString()] at one instant. *)
Record Clock := mkClock {
  now : Z;
  date : string
}.

(** What the program does to the network, the timer and the DOM. *)
Inductive event :=
| Fetch (url : string) (timeout : Z)
| Sleep (ms : Q)
| UpdateProg (data : StatusData) (lastSt : option string)
| ShowSuccess
| DisplayResult (url label : string) (p : option params) (fmt : string)
| ResetUI (success : bool)
| ForceDL (url label : string)
| LoadHistory (h : list HistoryEntry)
| ShowError (cancelled : bool) (msg : option string)
| ShowConnectionLost
| ShowLoading (msg : string)
| ShowResumed
| ShowUploading
| ShowUploadError
| CancelRequest (url : string)
| Navigate (url : string).

Record page := mkPage {
  storage : store;
  events : list event
}.

Definition on_store {A} (m : M store A) : M page A :=
  fun p =>
    match m (storage p) with
    | (r, s') => (r, mkPage s' (events p))
    end.

Definition emit (e : event) : M page unit :=
  modify (fun p => mkPage (storage p) (events p ++ [e])).

(** The variables of one [pollJobStatus] call, next to the page. *)
Record loop := mkLoop {
  pg : page;
  interval : Q;
  errs : nat;
  lastSt : option string
}.

Definition on_page {A} (m : M page A) : M loop A :=
  fun l =>
    match m (pg l) with
    | (r, p') => (r, mkLoop p' (interval l) (errs l) (lastSt l))
    end.

Definition set_interval (q : Q) : M loop unit :=
  modify (fun l => mkLoop (pg l) q (errs l) (lastSt l)).

Definition set_errs (n : nat) : M loop unit :=
  modify (fun l => mkLoop (pg l) (interval l) n (lastSt l)).

Definition set_lastSt (st : option string) : M loop unit :=
  modify (fun l => mkLoop (pg l) (interval l) (errs l) st).

(** How a status request ends: [Failed] is a rejected [fetch] (network
    error, abort on timeout), a response that is not [ok], or a body that
    is not a JSON object; all of them throw inside the [try]. *)
Inductive response :=
| Failed
| Replied (data : StatusData).

(** The document as a turn of the loop finds it: whether it is hidden
    now, and what the listener of [setupVisibilityHandling] was told by the
    last [visibilitychange] event it handled since the page was loaded
    ([None]: it has handled none). *)
Record view := mkView {
  document_hidden : bool;
  last_change : option bool
}.

(** [this.ui.pageVisible]: [true] from the constructor on, then
    [!document.hidden] as the listener found it at the last event.  It is
    not the visibility of the document: a page that is loaded in the
    background keeps the flag set until an event arrives. *)
Definition pageVisible_of (v : view) : bool :=
  match last_change v with
  | Some hidden => negb hidden
  | None => true
  end.

(** One turn of the loop as the environment decides it: the flag
    [this.ui.pageVisible] is false when the turn starts, or it is true and
    the request ends as given. *)
Inductive tick :=
| FlagFalse
| FlagTrue (c : Clock) (r : response).

(** The turn the loop takes when it finds the document as [v]. *)
Definition turn_of (v : view) (c : Clock) (r : response) : tick :=
  if pageVisible_of v then FlagTrue c r else FlagFalse.

(** How [pollJobStatus] returned. *)
Inductive terminal :=
| JobDone
| JobFailed
| ConnectionLost.

(** [s.toLowerCase()] on ASCII letters. *)
Definition lower_ascii (c : ascii) : ascii :=
  let n := nat_of_ascii c in
  if ((65 <=? n) && (n <=? 90))%nat then ascii_of_nat (n + 32) else c.

Fixpoint toLowerCase (s : string) : string :=
  match s with
  | EmptyString => EmptyString
  | String c r => String (lower_ascii c) (toLowerCase r)
  end.

(** The names every object literal inherits from [Object.prototype]:
    looking one of them up in a table yields a function (or, for
    [__proto__], an object), which is truthy and not a string. *)
Definition inherited_names : list string :=
  ["constructor"; "__proto__"; "hasOwnProperty"; "isPrototypeOf";
   "propertyIsEnumerable"; "toLocaleString"; "toString"; "valueOf";
   "__defineGetter__"; "__defineSetter__"; "__lookupGetter__";
   "__lookupSetter__"].

Definition inherited (f : string) : bool :=
  existsb (String.eqb f) inherited_names.

(** [Utils.getFormatLabel]: [labels[format] || 'AVIF'].  [None] is the
    inherited member the lookup returns for an inherited name: it has no
    [toLowerCase], so that [displayResult] and [_forceDL] throw on it. *)
Definition getFormatLabel (f : string) : option string :=
  if String.eqb f "gif" then Some "GIF"
  else if String.eqb f "webp" then Some "WebP"
  else if String.eqb f "mp4" then Some "MP4"
  else if String.eqb f "av1" then Some "AV1"
  else if String.eqb f "avif" then Some "AVIF"
  else if inherited f then None
  else Some "AVIF".

(** [a || b] on possibly absent strings; the empty string is falsy. *)
Definition or_else (a b : option string) : option string :=
  match a with
  | Some EmptyString | None => b
  | Some _ => a
  end.

Definition is_terminal (st : string) : bool :=
  String.eqb st "done" || String.eqb st "error" || String.eqb st "cancelled".

(** The element [_updateProg] looks for in the progress box,
    [box.querySelector('.loading-text') ||
     box.querySelector('.upload-progress-text')]: whether its class list
    contains [upload-progress-text], and its text. *)
Record text_element := mkTextElement {
  is_upload_progress_text : bool;
  textContent : string
}.

(** What a call of [_updateProg] does to the progress box:
    [box.innerHTML = Utils.createIndeterminateProgressBar(text, kind)],
    [exist.textContent = txt], or nothing.  The function
    [createIndeterminateProgressBar] is not in the listing; only its
    arguments are recorded. *)
Inductive box_change :=
| SetBar (text kind : string)
| SetText (txt : string)
| NoChange.

Definition _updateProg (data : StatusData) (lastSt : option string)
    (exist : option text_element) : box_change :=
  let st := status data in
  if String.eqb st "queued" && negb (bool_decide (lastSt = Some "queued"))
  then SetBar "Queued..." "queue"
  else if String.eqb st "running" || String.eqb st "predict" then
    let txt := default "Processing..." (or_else (message data) None) in
    if (negb (bool_decide (lastSt = Some "running"))
        && negb (bool_decide (lastSt = Some "predict")))
       || match exist with
          | None => true
          | Some e => negb (is_upload_progress_text e)
          end
    then SetBar txt "processing"
    else
      match exist with
      | Some e =>
          if negb (String.eqb (textContent e) txt) then SetText txt
          else NoChange
      | None => NoChange
      end
  else NoChange.

Section Client.

(** [StorageManager] as imported, [Utils.isMobile], and whether
    [window.uiManager.loadAndDisplayHistory] exists. *)
Variable SM : StorageManager.
Variable isMobile : bool.
Variable has_history_ui : bool.

Definition baseInt : Q := if isMobile then 5000 else 1500.
Definition maxErrs : nat := if isMobile then 3 else 5.
Definition fetch_timeout : Z := if isMobile then 20000 else 15000.

Definition progress_url (jobId : option string) : string :=
  String.append "/progress/" (default "undefined" jobId).

Definition _complete (data : StatusData) (fmt : option string) (c : Clock)
  : M page unit :=
  on_store (sm_clearActiveJob SM) ;;
  emit ShowSuccess ;;
  match or_else (d_format data) fmt with
  | None => throw            (* [undefined.toLowerCase()] *)
  | Some f0 =>
      let f := toLowerCase f0 in
      match getFormatLabel f with
      | None => throw          (* [label.toLowerCase()] in [displayResult] *)
      | Some label =>
          let p := d_params data in
          emit (DisplayResult (gif_url data) label p f) ;;
          emit (ResetUI true) ;;
          on_store (sm_saveCompletedResult SM (gif_url data) p f (now c)) ;;
          on_store (sm_saveToHistory SM (gif_url data) f p (now c) (date c)) ;;
          auto ← on_store (sm_getAutoDownload SM);
          (if (auto : bool) then emit (ForceDL (gif_url data) label)
           else mret tt) ;;
          if has_history_ui then
            h ← on_store (sm_getHistory SM (now c));
            emit (LoadHistory h)
          else mret tt
      end
  end.

Definition _err (data : StatusData) : M page unit :=
  on_store (sm_clearActiveJob SM) ;;
  emit (ShowError (String.eqb (status data) "cancelled") (message data)) ;;
  emit (ResetUI false).

Definition _connLost : M page unit :=
  on_store (sm_clearActiveJob SM) ;;
  emit ShowConnectionLost ;;
  emit (ResetUI false).

(** Only the first and the third error have a message; the second
    component is [`error-${cnt}`]. *)
Definition _retryMsg (cnt : nat) (st : option string) : M page unit :=
  let msg :=
    match cnt with
    | 1%nat => Some ("Connection issue... retrying...", "error-1")
    | 3%nat => Some ("Still trying...", "error-3")
    | _ => None
    end in
  match msg with
  | Some (m, tag) =>
      if negb (bool_decide (st = Some tag))
      then emit (ShowLoading m) else mret tt
  | None => mret tt
  end.

(** [Math.min(interval * 1.5, 3e4)], kept in lowest terms. *)
Definition backoff (q : Q) : Q := Qred (Qmin (q * (3 # 2)) 30000).

(** [await Utils.fetchWithTimeout(...); if (!res.ok) throw ...;
    await res.json()] *)
Definition fetch_status (jobId : option string) (r : response)
  : M loop StatusData :=
  on_page (emit (Fetch (progress_url jobId) fetch_timeout)) ;;
  match r with
  | Failed => throw
  | Replied data => mret data
  end.

(** The [try] block of the loop body; [Some t] is [return]. *)
Definition try_block (jobId fmt : option string) (c : Clock) (r : response)
  : M loop (option terminal) :=
  data ← fetch_status jobId r;
  set_errs 0 ;;
  set_interval baseInt ;;
  let st := status data in
  last ← gets lastSt;
  (if negb (bool_decide (last = Some st)) || String.eqb st "running"
   then on_page (emit (UpdateProg data last)) else mret tt) ;;
  set_lastSt (Some st) ;;
  if String.eqb st "done" then
    on_page (_complete data fmt c) ;; mret (Some JobDone)
  else if String.eqb st "error" || String.eqb st "cancelled" then
    on_page (_err data) ;; mret (Some JobFailed)
  else mret None.

(** The [catch] block. *)
Definition catch_block : M loop (option terminal) :=
  e ← gets errs;
  set_errs (S e) ;;
  q ← gets interval;
  set_interval (backoff q) ;;
  e ← gets errs;
  if (maxErrs <=? e)%nat then
    on_page _connLost ;; mret (Some ConnectionLost)
  else
    last ← gets lastSt;
    on_page (_retryMsg e last) ;; mret None.

(** One turn of [while (true) { ... }]; [None] goes round again. *)
Definition poll_body (jobId fmt : option string) (t : tick)
  : M loop (option terminal) :=
  match t with
  | FlagFalse =>
      q ← gets interval;
      on_page (emit (Sleep q)) ;;
      mret None
  | FlagTrue c r =>
      out ← try_catch (try_block jobId fmt c r) catch_block;
      match out with
      | Some t => mret (Some t)
      | None =>
          q ← gets interval;
          on_page (emit (Sleep q)) ;;
          mret None
      end
  end.

(** The loop, followed for as many turns as there are ticks; [None]
    means it is still running after the last one. *)
Fixpoint poll_loop (jobId fmt : option string) (ticks : list tick)
  : M loop (option terminal) :=
  match ticks with
  | [] => mret None
  | t :: rest =>
      out ← poll_body jobId fmt t;
      match out with
      | Some t => mret (Some t)
      | None => poll_loop jobId fmt rest
      end
  end.

Definition pollJobStatus (jobId fmt : option string) (ticks : list tick)
  : M page (option terminal) :=
  fun p =>
    match poll_loop jobId fmt ticks (mkLoop p baseInt 0 None) with
    | (r, l) => (r, pg l)
    end.

(** A call that is not awaited: a rejection stays in the promise. *)
Definition detached {A} (m : M page A) : M page unit :=
  try_catch (m ;; mret tt) (mret tt).

Definition job_id_of (job : json) : option string :=
  match job with
  | JObj (JobRef id _) _ => Some id
  | _ => None
  end.

Definition format_of (job : json) : option string :=
  match job with
  | JObj (JobRef _ f) _ | JObj (Result _ _ f) _ => Some f
  | _ => None
  end.

Definition displayCompletedResult (res : option json) : M page unit :=
  let url :=
    match res with
    | Some (JObj (Result u _ _) _) => u
    | _ => "undefined"
    end in
  let p :=
    match res with
    | Some (JObj (Result _ p _) _) => p
    | _ => None
    end in
  let fmt := default "undefined" (res ≫= format_of) in
  match getFormatLabel fmt with
  | None => throw              (* [label.toLowerCase()] in [displayResult] *)
  | Some label =>
      emit (DisplayResult url label p fmt) ;;
      emit (ResetUI true)
  end.

(** What [checkAndResumeJob] ended up doing. *)
Inductive resumption :=
| Rendered
| Nothing
| Resumed
| Cleared.

(** [c] is the clock at start-up, [r] the end of the one status request
    (if it is made), [ticks] what the resumed poll goes on to see. *)
Definition checkAndResumeJob (c : Clock) (r : response) (ticks : list tick)
  : M page resumption :=
  saved ← on_store (sm_getCompletedResult SM (now c));
  if present saved then
    displayCompletedResult saved ;;
    mret Rendered
  else
    job ← on_store (sm_getActiveJob SM (now c));
    if negb (present job) then mret Nothing
    else
      let jobId := job ≫= job_id_of in
      let fmt := job ≫= format_of in
      try_catch
        (emit (Fetch (progress_url jobId) 10000) ;;
         match r with
         | Failed => throw
         | Replied data =>
             let st := status data in
             if negb (String.eqb st "") && negb (is_terminal st) then
               emit ShowResumed ;;
               detached (pollJobStatus jobId fmt ticks) ;;
               mret Resumed
             else
               on_store (sm_clearActiveJob SM) ;;
               mret Cleared
         end)
        (on_store (sm_clearActiveJob SM) ;; mret Cleared).

(** *** The UI manager's dealings with the store *)

(** How the upload of [startConversion] ends. *)
Inductive upload :=
| Accepted (job_id : string)   (* 2xx and a JSON body with a [job_id] *)
| Refused.                     (* anything else: error status, network
                                  error, unreadable body *)

(** [startConversion] runs up to [xhr.send]; the upload is answered
    later, by [xhr.onload] or [xhr.onerror]. *)
Definition startConversion : M page unit :=
  on_store (sm_clearCompletedResult SM) ;;
  emit ShowUploading.

(** [xhr.onload] and [xhr.onerror].  [format] is
    [formatSelect?.value || 'avif'] and [c] the clock when the answer
    arrives.  The result says whether [pollJobStatus(jobId, format)] is
    started: it is when the upload is accepted and
    [window.conversionManager] is set; the poll then runs on its own,
    turn by turn, among whatever else happens on the page. *)
Definition xhr_onload (has_conversionManager : bool) (format : string)
    (u : upload) (c : Clock) : M page bool :=
  match u with
  | Accepted jobId =>
      on_store (sm_saveActiveJob SM jobId format (now c)) ;;
      emit (ShowLoading "Processing... Please wait") ;;
      mret has_conversionManager
  | Refused =>
      emit ShowUploadError ;;
      emit (ResetUI false) ;;
      mret false
  end.

(** A conversion that nothing else on the page interrupts: the submit
    handler, the answer to the upload, and all the turns [ticks] of the
    poll it starts, if it starts one. *)
Definition uninterrupted_conversion (has_conversionManager : bool)
    (format : string) (u : upload) (c : Clock) (ticks : list tick)
  : M page unit :=
  startConversion ;;
  polls ← xhr_onload has_conversionManager format u c;
  match u with
  | Accepted jobId =>
      if (polls : bool)
      then detached (pollJobStatus (Some jobId) (Some format) ticks)
      else mret tt
  | Refused => mret tt
  end.

(** [resetForm], with nothing run while the cancel request is awaited
    (whose outcome is ignored). *)
Definition resetForm (c : Clock) : M page unit :=
  activeJob ← on_store (sm_getActiveJob SM (now c));
  (if present activeJob
   then emit (CancelRequest
                (String.append "/cancel/"
                   (default "undefined" (activeJob ≫= job_id_of))))
   else mret tt) ;;
  on_store (sm_clearCompletedResult SM) ;;
  on_store (sm_clearActiveJob SM) ;;
  emit (ResetUI false).

(** [resetForm] up to its [await] (the result says whether a cancel
    request went out and is awaited), and from the [await] on. *)
Definition resetForm_begin (c : Clock) : M page bool :=
  activeJob ← on_store (sm_getActiveJob SM (now c));
  if present activeJob then
    emit (CancelRequest
            (String.append "/cancel/"
               (default "undefined" (activeJob ≫= job_id_of)))) ;;
    mret true
  else mret false.

Definition resetForm_end : M page unit :=
  on_store (sm_clearCompletedResult SM) ;;
  on_store (sm_clearActiveJob SM) ;;
  emit (ResetUI false).

(** [checkAndResumeJob] up to its [await] (the result is the job whose
    status was asked for, if a request went out), and from the [await]
    on (the result says whether [pollJobStatus] is started). *)
Definition checkAndResumeJob_begin (c : Clock) : M page (option json) :=
  saved ← on_store (sm_getCompletedResult SM (now c));
  if present saved then
    displayCompletedResult saved ;;
    mret None
  else
    job ← on_store (sm_getActiveJob SM (now c));
    if negb (present job) then mret None
    else
      emit (Fetch (progress_url (job ≫= job_id_of)) 10000) ;;
      mret job.

Definition checkAndResumeJob_end (r : response) : M page bool :=
  try_catch
    match r with
    | Failed => throw
    | Replied data =>
        let st := status data in
        if negb (String.eqb st "") && negb (is_terminal st) then
          emit ShowResumed ;;
          mret true
        else
          on_store (sm_clearActiveJob SM) ;;
          mret false
    end
    (on_store (sm_clearActiveJob SM) ;; mret false).

(** One turn of a poll that is under way, given its variables. *)
Definition poll_turn (jobId fmt : option string) (t : tick)
    (interval : Q) (errs : nat) (lastSt : option string) : M page unit :=
  fun p =>
    match poll_body jobId fmt t (mkLoop p interval errs lastSt) with
    | (Normal _, l) => (Normal tt, pg l)
    | (Throw, l) => (Throw, pg l)
    end.

Definition handleConvertAnother : M page unit :=
  on_store (sm_clearCompletedResult SM) ;;
  emit (Navigate "/8mb").

(** A page load starts with an empty [CACHE]; [localStorage] is what the
    previous page left. *)
Definition reload : M page unit :=
  on_store (modify (fun s => mkStore ∅ (localStorage s))).

End Client.

(** ** Sample states and inputs *)

Definition empty_store : store := mkStore ∅ (Some (mkStorage ∅ false)).
Definition full_store : store := mkStore ∅ (Some (mkStorage ∅ true)).
Definition no_storage : store := mkStore ∅ None.

Definition blank (s : store) : page := mkPage s [].

Definition clock0 : Clock := mkClock 0 "1/1/1970, 12:00:00 AM".

Definition reply (st : string) : response :=
  Replied (mkStatusData st None None "/out/j1.avif" None).

(** The requests made, in order. *)
Definition fetches (l : list event) : list string :=
  omap (fun e => match e with Fetch u _ => Some u | _ => None end) l.

(** The waits made, in order. *)
Definition sleeps (l : list event) : list Q :=
  omap (fun e => match e with Sleep q => Some q | _ => None end) l.


(** ** Notions used in the statements *)

(** A [setItem] on this store throws. *)
Definition write_fails (s : store) : bool :=
  match localStorage s with
  | None => true
  | Some ls => quota_exceeded ls
  end.

(** Nothing is kept under [k]: in [localStorage] for the first listing,
    in [CACHE] and [localStorage] for the second. *)
Definition direct_absent (k : string) (s : store) : Prop :=
  durable k s = None.

Definition mirrored_absent (k : string) (s : store) : Prop :=
  CACHE s !! k = None ∧ durable k s = None.

(** A completed result and an active job are not both kept. *)
Definition exclusive (absent : string -> store -> Prop) (s : store) : Prop :=
  absent "completedResult" s ∨ absent "activeJob" s.

Definition keeps {S A} (P : S -> Prop) (m : M S A) : Prop :=
  forall s, P s -> P (snd (m s)).

Definition makes {S A} (P : S -> Prop) (m : M S A) : Prop :=
  forall s, P (snd (m s)).

Definition slot (k : string) : Prop :=
  k = "activeJob" ∨ k = "completedResult".

(** What the client needs to know of a storage manager, for a given
    reading of "nothing is kept under [k]". *)
Record contract (SM : StorageManager) (absent : string -> store -> Prop)
  : Prop := mkContract {
  c_saveActive_total : forall j f t, never_throws (sm_saveActiveJob SM j f t);
  c_getActive_total : forall t, never_throws (sm_getActiveJob SM t);
  c_clearActive_total : never_throws (sm_clearActiveJob SM);
  c_saveCompleted_total :
    forall u p f t, never_throws (sm_saveCompletedResult SM u p f t);
  c_getCompleted_total : forall t, never_throws (sm_getCompletedResult SM t);
  c_clearCompleted_total : never_throws (sm_clearCompletedResult SM);
  c_saveToHistory_total :
    forall u f p t d, never_throws (sm_saveToHistory SM u f p t d);
  c_getHistory_total : forall t, never_throws (sm_getHistory SM t);
  c_clearActive_makes : makes (absent "activeJob") (sm_clearActiveJob SM);
  c_saveCompleted_makes :
    forall u p f t,
      makes (absent "activeJob") (sm_saveCompletedResult SM u p f t);
  c_clearCompleted_makes :
    makes (absent "completedResult") (sm_clearCompletedResult SM);
  c_saveActive_keeps :
    forall j f t,
      keeps (absent "completedResult") (sm_saveActiveJob SM j f t);
  c_clearActive_keeps :
    forall k, slot k -> keeps (absent k) (sm_clearActiveJob SM);
  c_clearCompleted_keeps :
    forall k, slot k -> keeps (absent k) (sm_clearCompletedResult SM);
  c_getActive_keeps :
    forall k t, slot k -> keeps (absent k) (sm_getActiveJob SM t);
  c_getCompleted_keeps :
    forall k t, slot k -> keeps (absent k) (sm_getCompletedResult SM t);
  c_saveToHistory_keeps :
    forall k u f p t d,
      slot k -> keeps (absent k) (sm_saveToHistory SM u f p t d);
  c_getHistory_keeps :
    forall k t, slot k -> keeps (absent k) (sm_getHistory SM t);
  c_getAutoDownload_keeps :
    forall k, slot k -> keeps (absent k) (sm_getAutoDownload SM);
  c_reload_keeps :
    forall k s, absent k s -> absent k (mkStore ∅ (localStorage s));
  c_getActive_absent :
    forall t s,
      absent "activeJob" s -> fst (sm_getActiveJob SM t s) = Normal None
}.

(** A tick whose request fails. *)
Definition is_failure (t : tick) : Prop :=
  match t with
  | FlagTrue _ Failed => True
  | _ => False
  end.

(** A tick whose request is answered with status [st]. *)
Definition answers (st : string) (t : tick) : Prop :=
  match t with
  | FlagTrue _ (Replied data) => status data = st
  | _ => False
  end.

(** The loop variables a poll has after [ticks], started on page [p]. *)
Definition reached (SM : StorageManager) (isMobile hist : bool)
    (jobId fmt : option string) (ticks : list tick) (p : page)
  : completion (option terminal) * loop :=
  poll_loop SM isMobile hist jobId fmt ticks
    (mkLoop p (baseInt isMobile) 0 None).

(** One call of [saveToHistory]. *)
Record push := mkPush {
  p_url : string;
  p_format : string;
  p_params : option params;
  p_clock : Clock
}.

Definition entry_of (x : push) : HistoryEntry :=
  mkHistoryEntry (p_url x) (p_format x) (p_params x)
    (now (p_clock x)) (date (p_clock x)).

Fixpoint save_all (SM : StorageManager) (l : list push) : M store unit :=
  match l with
  | [] => mret tt
  | x :: rest =>
      sm_saveToHistory SM (p_url x) (p_format x) (p_params x)
        (now (p_clock x)) (date (p_clock x)) ;;
      save_all SM rest
  end.

(** Every entry is still younger than the TTL when a later one is
    pushed. *)
Fixpoint in_window (l : list push) : Prop :=
  match l with
  | [] => True
  | x :: rest =>
      Forall (fun y => (now (p_clock y) - now (p_clock x) < TTL)%Z) rest
      ∧ in_window rest
  end.

(** The entries a history of capacity [cap] should hold after the pushes
    [l]: the last [cap] of them, most recent first. *)
Definition newest (cap : nat) (l : list push) : list HistoryEntry :=
  firstn cap (rev (map entry_of l)).

(** Every entry of [P] is younger than the TTL at each push of [l]. *)
Definition all_fresh_at (l : list push) (P : list HistoryEntry) : Prop :=
  Forall (fun y => Forall (fun e => fresh (now (p_clock y)) e = true) P) l.

(** Four pushes a day apart, and six within five seconds. *)
Definition spaced : list push :=
  [ mkPush "/out/a.avif" "avif" None (mkClock 0 "day 1");
    mkPush "/out/b.avif" "avif" None (mkClock 86400000 "day 2");
    mkPush "/out/c.avif" "avif" None (mkClock 172800000 "day 3");
    mkPush "/out/d.avif" "avif" None (mkClock 259200000 "day 4") ].

Definition burst : list push :=
  [ mkPush "/out/a.avif" "avif" None (mkClock 0 "t0");
    mkPush "/out/b.avif" "avif" None (mkClock 1000 "t1");
    mkPush "/out/c.avif" "avif" None (mkClock 2000 "t2");
    mkPush "/out/d.avif" "avif" None (mkClock 3000 "t3");
    mkPush "/out/e.avif" "avif" None (mkClock 4000 "t4");
    mkPush "/out/f.avif" "avif" None (mkClock 5000 "t5") ].


(** What a poll has asked of the network and of the timer so far. *)
Definition io_is (F : list string) (W : list Q) (p : page) : Prop :=
  fetches (events p) = F ∧ sleeps (events p) = W.

(** A computation that makes no request and does not wait. *)
Definition quiet {A} (m : M page A) : Prop :=
  forall F W, keeps (io_is F W) m.

(** The loop once the request of a turn has gone out. *)
Definition asked (isMobile : bool) (jobId : option string) (l : loop) : loop :=
  mkLoop
    (mkPage (storage (pg l))
       (events (pg l)
        ++ [Fetch (progress_url jobId) (fetch_timeout isMobile)]))
    (interval l) (errs l) (lastSt l).

(** The loop once a reply has been read: counters reset, progress shown if
    the status changed or is [running], status remembered. *)
Definition replied (isMobile : bool) (jobId : option string)
    (data : StatusData) (l : loop) : loop :=
  let sent := events (pg (asked isMobile jobId l)) in
  mkLoop
    (mkPage (storage (pg l))
       (if negb (bool_decide (lastSt l = Some (status data)))
           || String.eqb (status data) "running"
        then sent ++ [UpdateProg data (lastSt l)] else sent))
    (baseInt isMobile) 0 (Some (status data)).

(** The wait at the bottom of the loop body. *)
Definition waited (l : loop) : loop :=
  mkLoop (mkPage (storage (pg l)) (events (pg l) ++ [Sleep (interval l)]))
    (interval l) (errs l) (lastSt l).

(** What the loop keeps true of its interval. *)
Definition interval_ok (isMobile : bool) (l : loop) : Prop :=
  (baseInt isMobile <= interval l)%Q
  ∧ (interval l <= 30000)%Q
  ∧ (errs l = 0%nat -> interval l = baseInt isMobile).

Definition in_range (isMobile : bool) (q : Q) : Prop :=
  (baseInt isMobile <= q)%Q ∧ (q <= 30000)%Q.

(** The loop variables on entry to the [catch] block's test. *)
Definition backed_off (l : loop) : loop :=
  mkLoop (pg l) (backoff (interval l)) (S (errs l)) (lastSt l).

(** The same loop variables on another page. *)
Definition with_page (l : loop) (p : page) : loop :=
  mkLoop p (interval l) (errs l) (lastSt l).

(** The events of [p] begin with [E]. *)
Definition extends (E : list event) (p : page) : Prop :=
  exists rest, events p = E ++ rest.


(** The two storage managers of the repository. *)
Definition shipped (SM : StorageManager) : Prop :=
  SM = direct_manager ∨ SM = mirrored_manager.

Definition timeout_tick : tick := FlagTrue clock0 Failed.





(** Stored text that does not parse to an object: not JSON at all, or the
    JSON text [null]. *)
Definition malformed (r : raw) : Prop := r = NotJson ∨ r = Str JNull.

(** A store whose durable part holds garbage under [activeJob]. *)
Definition garbled_store : store :=
  mkStore ∅ (Some (mkStorage {[ "activeJob" := NotJson ]} false)).

(** Both layers of the store hold the same fresh job, as after a
    [saveActiveJob] that went through. *)
Definition job_store (jobId format : string) (t : Z) : store :=
  snd (Mirrored.saveActiveJob jobId format t empty_store).

(** Another tab replaces the durable entry of [key]. *)
Definition other_tab_writes (key : string) (v : payload) (t : Z) (s : store)
  : store :=
  match localStorage s with
  | Some ls =>
      mkStore (CACHE s)
        (Some (mkStorage (<[key := Str (JObj v (Some t))]> (items ls))
                 (quota_exceeded ls)))
  | None => s
  end.

(** A writable store whose durable history already holds six entries, one
    more than the first listing's maximum. *)
Definition long_history_store : store :=
  mkStore ∅
    (Some (mkStorage
             {[ "conversionHistory" := Str (JArr (map entry_of burst)) ]}
             false)).

(** The mirror holds a history that [localStorage], over quota, cannot
    take. *)
Definition mirror_only_store : store :=
  mkStore {[ "conversionHistory" := JArr (map entry_of (firstn 2 burst)) ]}
    (Some (mkStorage ∅ true)).

(** The turns of the loop that find [ui.pageVisible] true. *)
Definition turns_with_flag (ticks : list tick) : nat :=
  length (List.filter (fun t => match t with FlagFalse => false | _ => true end)
            ticks).

(** A turn that finds the job still under way: [ui.pageVisible] is false,
    or the request is answered with a status that is not terminal. *)
Definition still_running (t : tick) : Prop :=
  match t with
  | FlagFalse => True
  | FlagTrue _ Failed => False
  | FlagTrue _ (Replied data) => is_terminal (status data) = false
  end.

(** The stored preference reads as "download automatically". *)
Definition auto_download_on (s : store) : bool :=
  match durable "autoDownload" s with
  | Some (Str (JBool true)) => true
  | _ => false
  end.

(** What [_complete] shows, for a result of format [f] with label
    [label] and a history [h] read back at the end. *)
Definition completion_events (hist auto : bool) (data : StatusData)
    (f label : string) (h : list HistoryEntry) : list event :=
  [ShowSuccess;
   DisplayResult (gif_url data) label (d_params data) f;
   ResetUI true]
  ++ (if auto then [ForceDL (gif_url data) label] else [])
  ++ (if hist then [LoadHistory h] else []).

(** *** Page initialisation *)

(** [setupAutoDownloadToggle]: the state the checkbox is given, if the
    page has one. *)
Definition setupAutoDownloadToggle (SM : StorageManager) (has_toggle : bool)
  : M store (option bool) :=
  if has_toggle then
    checked ← sm_getAutoDownload SM;
    mret (Some checked)
  else mret None.

(** [loadAndDisplayHistory]: the entries listed; nothing when the page has
    no history section or the history is empty (the section is hidden). *)
Definition loadAndDisplayHistory (SM : StorageManager) (has_section : bool)
    (now : Z) : M store (option (list HistoryEntry)) :=
  if has_section then
    history ← sm_getHistory SM now;
    mret (if (length history =? 0)%nat then None else Some history)
  else mret None.

(** [UIManager.init], as far as storage goes: the handlers set up before
    touch only the DOM. *)
Definition UIManager_init (SM : StorageManager) (has_toggle has_section : bool)
    (now : Z) : M store (option bool * option (list HistoryEntry)) :=
  checked ← setupAutoDownloadToggle SM has_toggle;
  listed ← loadAndDisplayHistory SM has_section now;
  mret (checked, listed).

(** [App.init]: the conversion manager, which schedules
    [checkAndResumeJob], is initialised after the UI manager.  The result
    says what the UI shows once both are initialised. *)
Definition App_init (SM : StorageManager) (has_toggle has_section : bool)
    (now : Z) : M store (option bool * option (list HistoryEntry)) :=
  ui ← UIManager_init SM has_toggle has_section now;
  (* this.conversionManager.init() *)
  mret ui.

(** ** The page as a sequence of handlers *)

(** JavaScript runs one handler at a time, each up to its next [await];
    between two of them any other may run.  These are the handlers that
    touch the store.  A poll that was started keeps taking turns until it
    returns: nothing on the page stops it, so its turns may fall anywhere
    among the other handlers.  A turn is placed where its reply is
    handled; sending the request leaves the store alone. *)
Inductive handler :=
| OnSubmit
| OnUpload (has_conversionManager : bool) (format : string) (u : upload)
    (c : Clock)
| OnPollTurn (jobId fmt : option string) (t : tick) (interval : Q)
    (errs : nat) (lastSt : option string)
| OnReset (c : Clock)
| OnCancelReply
| OnConvertAnother
| OnLoad (has_toggle has_section : bool) (c : Clock)
| OnResumeTimer (c : Clock)
| OnResumeReply (r : response).

Section Page.
Variable SM : StorageManager.
Variables isMobile has_history_ui : bool.

(** [OnReset] is [resetForm] up to its [await], or all of it when there is
    no job to cancel; [OnCancelReply] is the rest.  [OnLoad] is a page
    load: a new [CACHE], then [App.init].  [OnResumeTimer] is
    [checkAndResumeJob] up to its [await], [OnResumeReply] the rest. *)
Definition handle (h : handler) : M page unit :=
  match h with
  | OnSubmit => startConversion SM
  | OnUpload has_cm format u c => xhr_onload SM has_cm format u c ;; mret tt
  | OnPollTurn jobId fmt t q e last =>
      poll_turn SM isMobile has_history_ui jobId fmt t q e last
  | OnReset c =>
      awaited ← resetForm_begin SM c;
      if (awaited : bool) then mret tt else resetForm_end SM
  | OnCancelReply => resetForm_end SM
  | OnConvertAnother => handleConvertAnother SM
  | OnLoad has_toggle has_section c =>
      reload ;;
      on_store (App_init SM has_toggle has_section (now c)) ;;
      mret tt
  | OnResumeTimer c => checkAndResumeJob_begin SM c ;; mret tt
  | OnResumeReply r => checkAndResumeJob_end SM r ;; mret tt
  end.


End Page.






(** ** The queue counter of the UI manager *)

(** The fields of [UIManager] the queue counter uses, the text and class
    of the counter, and the requests to [/queue]: how many were made and
    how many are still unanswered. *)
Record QueueUI := mkQueueUI {
  pageVisible : bool;
  queueCounterInterval : option Z;
  queueRetryCount : nat;
  queueCount_text : option Z;
  high_queue : bool;
  queue_requests : nat;
  queue_pending : nat
}.

(** How a request to [/queue] ends: [QFailed] is a rejected or timed-out
    [fetch], a response that is not [ok] or a body that is not a JSON
    object; [QReplied q] carries [data.queued], if the body has it. *)
Inductive queue_response :=
| QFailed
| QReplied (queued : option Z).

(** What happens to the page. *)
Inductive queue_event :=
| TimerFires
| VisibilityChange (hidden : bool)
| Response (r : queue_response).

Section Queue.

(** Whether the elements [queue-count] and [queue-counter] exist, and
    [Utils.isMobile]. *)
Variables has_queueCount has_queueCounter : bool.
Variable isMobile : bool.

Definition new_QueueUI : QueueUI := mkQueueUI true None 0 None false 0 0.

(** The [catch] block of [updateQueueCounter]. *)
Definition queue_failed (u : QueueUI) : QueueUI :=
  let n := S (queueRetryCount u) in
  mkQueueUI (pageVisible u)
    (if (5 <? n)%nat then None else queueCounterInterval u)
    n (queueCount_text u) (high_queue u) (queue_requests u) (queue_pending u).

(** [updateQueueCounter] up to its [await]: the request goes out unless
    [pageVisible] is false or the page has no counter. *)
Definition begin_update (u : QueueUI) : QueueUI :=
  if negb (pageVisible u) || negb has_queueCount then u
  else
    mkQueueUI (pageVisible u) (queueCounterInterval u) (queueRetryCount u)
      (queueCount_text u) (high_queue u)
      (S (queue_requests u)) (S (queue_pending u)).

(** [updateQueueCounter] from its [await] on.  [data.queued || 0] is
    [queued] or 0; toggling the class of a missing [queue-counter] throws
    inside the [try], after the text has been set. *)
Definition finish_update (r : queue_response) (u : QueueUI) : QueueUI :=
  match r with
  | QFailed => queue_failed u
  | QReplied q =>
      let queued := default 0%Z q in
      if has_queueCounter then
        mkQueueUI (pageVisible u) (queueCounterInterval u) 0
          (Some queued) (2 <? queued)%Z
          (queue_requests u) (queue_pending u)
      else
        queue_failed
          (mkQueueUI (pageVisible u) (queueCounterInterval u)
             (queueRetryCount u) (Some queued) (high_queue u)
             (queue_requests u) (queue_pending u))
  end.

Definition startQueuePolling (u : QueueUI) : QueueUI :=
  let u := begin_update
             (mkQueueUI (pageVisible u) None (queueRetryCount u)
                (queueCount_text u) (high_queue u)
                (queue_requests u) (queue_pending u)) in
  mkQueueUI (pageVisible u) (Some (if isMobile then 20000 else 5000)%Z)
    (queueRetryCount u) (queueCount_text u) (high_queue u)
    (queue_requests u) (queue_pending u).

(** The listener of [setupVisibilityHandling]. *)
Definition on_visibilitychange (hidden : bool) (u : QueueUI) : QueueUI :=
  let u := mkQueueUI (negb hidden) (queueCounterInterval u)
             (queueRetryCount u) (queueCount_text u) (high_queue u)
             (queue_requests u) (queue_pending u) in
  if pageVisible u then begin_update u
  else
    mkQueueUI (pageVisible u) None (queueRetryCount u) (queueCount_text u)
      (high_queue u) (queue_requests u) (queue_pending u).

(** One event: the timer fires only while it is set, and a response
    arrives only for a request that is still unanswered. *)
Definition queue_step (u : QueueUI) (e : queue_event) : QueueUI :=
  match e with
  | TimerFires =>
      match queueCounterInterval u with
      | Some _ => begin_update u
      | None => u
      end
  | VisibilityChange hidden => on_visibilitychange hidden u
  | Response r =>
      match queue_pending u with
      | O => u
      | S n =>
          finish_update r
            (mkQueueUI (pageVisible u) (queueCounterInterval u)
               (queueRetryCount u) (queueCount_text u) (high_queue u)
               (queue_requests u) n)
      end
  end.

Definition queue_run (es : list queue_event) (u : QueueUI) : QueueUI :=
  fold_left queue_step es u.

End Queue.

(** The number of times the page is shown again. *)
Definition shows (es : list queue_event) : nat :=
  length (List.filter
            (fun e => match e with VisibilityChange false => true | _ => false end)
            es).

(** What holds of the queue counter at all times. *)
Definition queue_ok (has_queueCounter : bool) (u : QueueUI) : Prop :=
  (queueCounterInterval u <> None -> (queueRetryCount u <= 5)%nat)
  ∧ high_queue u
    = has_queueCounter
      && match queueCount_text u with
         | Some n => (2 <? n)%Z
         | None => false
         end
  ∧ (queue_pending u <= queue_requests u)%nat.

(** ** Utils *)

Record File := mkFile {
  file_name : string;
  file_type : string
}.

Inductive validation :=
| Valid
| Invalid (error : string).

Definition validTypes : list string :=
  ["video/mp4"; "video/webm"; "video/ogg"; "video/quicktime";
   "video/x-msvideo"; "video/x-matroska"].

Definition quote : string := String (ascii_of_nat 34) EmptyString.

(** [Utils.isValidVideoFile]; [None] is a missing file. *)
Definition isValidVideoFile (file : option File) : validation :=
  match file with
  | None => Invalid "No file selected"
  | Some file =>
      let isValidType :=
        String.prefix "video/" (file_type file)
        || existsb (String.eqb (file_type file)) validTypes in
      if negb isValidType then
        Invalid (String.append quote
                   (String.append (file_name file)
                      (String.append quote
                         " is not a video file. Please upload a video (MP4, WebM, MOV, etc.)")))
      else Valid
  end.

(** [Utils.getExtensionForFormat]: [extensions[format] || '.avif'];
    [None] is the inherited member found under an inherited name. *)
Definition getExtensionForFormat (format : string) : option string :=
  if String.eqb format "avif" then Some ".avif"
  else if String.eqb format "webp" then Some ".webp"
  else if String.eqb format "mp4" then Some ".mp4"
  else if String.eqb format "av1" then Some ".mp4"
  else if String.eqb format "gif" then Some ".gif"
  else if inherited format then None
  else Some ".avif".

(** [Utils.formatSupportsAudio]; [None] is a missing format. *)
Definition formatSupportsAudio (format : option string) : bool :=
  match format with
  | Some f => existsb (String.eqb (toLowerCase f)) ["mp4"; "av1"]
  | None => false
  end.

(** [s.replace('.', '')]: the first dot is removed. *)
Fixpoint remove_first_dot (s : string) : string :=
  match s with
  | EmptyString => EmptyString
  | String c r =>
      if Ascii.eqb c "."%char then r else String c (remove_first_dot r)
  end.

(** The file name [_forceDL] gives the download;
    [None] when [replace] is called on what is not a string. *)
Definition download_name (label : string) : option string :=
  ext ← getExtensionForFormat (toLowerCase label);
  Some (String.append "converted_video." (remove_first_dot ext)).



(** The message of the third failed request in a row. *)
Definition still_trying : event := ShowLoading "Still trying...".

(** One look of the loop at the flag: the document as it is then, and the
    clock and the end of the request the turn makes, if it makes one. *)
Record moment := mkMoment {
  seen : view;
  at_clock : Clock;
  outcome : response
}.

Definition turns_of (ms : list moment) : list tick :=
  map (fun m => turn_of (seen m) (at_clock m) (outcome m)) ms.

(** The last [visibilitychange] event handled before this look found the
    document hidden. *)
Definition reported_hidden (m : moment) : Prop :=
  last_change (seen m) = Some true.


(** The page has not shown [e]. *)
Definition unseen (e : event) (p : page) : Prop := ~ In e (events p).

(** * Proofs *)

Ltac unfold_m :=
  unfold mbind, mret, M_bind, M_ret, bind, ret, try_catch, throw, gets,
    modify in *.

Ltac unfold_prims :=
  unfold ls_getItem, ls_setItem, ls_removeItem, CACHE_get, CACHE_set,
    CACHE_delete, JSON_parse, get_timestamp, as_array, durable in *.

(** Run a storage function symbolically, one case per branch. *)
Ltac run_store :=
  unfold_prims; unfold_m; simpl in *;
  repeat (case_match; simpl in *; simplify_eq);
  simplify_map_eq; auto.

Ltac unfold_direct :=
  unfold Direct.saveActiveJob, Direct.getActiveJob, Direct.clearActiveJob,
    Direct.saveCompletedResult, Direct.getCompletedResult,
    Direct.clearCompletedResult, Direct.saveToHistory, Direct.getHistory,
    Direct.getAutoDownload, Direct.saveToStorage, Direct.getFromStorage,
    Direct.clearFromStorage in *.

Ltac unfold_mirrored :=
  unfold Mirrored.saveActiveJob, Mirrored.getActiveJob,
    Mirrored.clearActiveJob, Mirrored.saveCompletedResult,
    Mirrored.getCompletedResult, Mirrored.clearCompletedResult,
    Mirrored.saveToHistory, Mirrored.getHistory, Mirrored.getHistory_ref,
    Mirrored.getAutoDownload, Mirrored._save, Mirrored._get,
    Mirrored._clear in *.

(** ** The storage managers meet the contract *)

Lemma direct_contract : contract direct_manager direct_absent.
Proof.
  constructor; simpl; unfold never_throws, makes, keeps, direct_absent;
    intros; unfold_direct;
    try match goal with H : slot _ |- _ => destruct H; subst end;
    match goal with s : store |- _ => destruct s as [C [ls|]] end;
    try solve [run_store; eauto].
Qed.

Lemma mirrored_contract : contract mirrored_manager mirrored_absent.
Proof.
  constructor; simpl; unfold never_throws, makes, keeps, mirrored_absent;
    intros; unfold_mirrored;
    try match goal with H : slot _ |- _ => destruct H; subst end;
    try match goal with H : _ ∧ _ |- _ => destruct H end;
    match goal with s : store |- _ => destruct s as [C [ls|]] end;
    try solve [run_store; eauto].
Qed.

(** ** Saving never throws; what a failed write leaves behind *)

Lemma direct_saveToStorage_total key data t :
  never_throws (Direct.saveToStorage key data t).
Proof.
  intros [C [ls|]]; unfold Direct.saveToStorage; run_store; eauto.
Qed.

Lemma mirrored_save_total key val t : never_throws (Mirrored._save key val t).
Proof.
  intros [C [ls|]]; unfold Mirrored._save; run_store; eauto.
Qed.

Lemma mirrored_get_after_save key val t t' b s :
  (t' - t <= TTL)%Z ->
  fst (Mirrored._get key b t' (snd (Mirrored._save key val t s)))
  = Normal (Some (JObj val (Some t))).
Proof.
  intros Hfresh. destruct s as [C [ls|]];
    unfold Mirrored._get, Mirrored._save, expired;
    run_store; lia.
Qed.

Lemma mirrored_failed_save_durable key val t s :
  write_fails s = true ->
  durable key (snd (Mirrored._save key val t s)) = durable key s.
Proof.
  unfold write_fails. destruct s as [C [ls|]]; simpl; intros Hw;
    unfold Mirrored._save; run_store.
Qed.

(** C9, as amended: no save function throws to its caller, whatever the
    state of [localStorage]; with the mirrored listing, a value whose
    durable write failed is still returned by a read of the same key made
    no later than the TTL after the save (it sits in [CACHE]), while the
    durable store is left as it was; with the first listing, which has no
    mirror, a failed write changes nothing at all. *)
Theorem save_never_throws_mirror_serves_failed_write :
  (forall key data t, never_throws (Direct.saveToStorage key data t))
  ∧ (forall j f t, never_throws (Direct.saveActiveJob j f t))
  ∧ (forall u p f t, never_throws (Direct.saveCompletedResult u p f t))
  ∧ (forall key val t, never_throws (Mirrored._save key val t))
  ∧ (forall j f t, never_throws (Mirrored.saveActiveJob j f t))
  ∧ (forall u p f t, never_throws (Mirrored.saveCompletedResult u p f t))
  ∧ (forall key val t t' b s,
        write_fails s = true -> (t' - t <= TTL)%Z ->
        let s' := snd (Mirrored._save key val t s) in
        durable key s' = durable key s
        ∧ fst (Mirrored._get key b t' s') = Normal (Some (JObj val (Some t))))
  ∧ (forall j f t t' s,
        write_fails s = true -> (t' - t <= TTL)%Z ->
        fst (Mirrored.getActiveJob t' (snd (Mirrored.saveActiveJob j f t s)))
        = Normal (Some (JObj (JobRef j f) (Some t))))
  ∧ (forall u p f t t' s,
        write_fails s = true -> (t' - t <= TTL)%Z ->
        fst (Mirrored.getCompletedResult t'
               (snd (Mirrored.saveCompletedResult u p f t s)))
        = Normal (Some (JObj (Result u p f) (Some t))))
  ∧ (forall key data t s,
        write_fails s = true -> snd (Direct.saveToStorage key data t s) = s).
Proof.
  repeat split.
  - apply direct_saveToStorage_total.
  - intros. apply (c_saveActive_total _ _ direct_contract).
  - intros. apply (c_saveCompleted_total _ _ direct_contract).
  - apply mirrored_save_total.
  - intros. apply (c_saveActive_total _ _ mirrored_contract).
  - intros. apply (c_saveCompleted_total _ _ mirrored_contract).
  - now apply mirrored_failed_save_durable.
  - now apply mirrored_get_after_save.
  - intros. now apply mirrored_get_after_save.
  - intros u p f t t' s _ Hfresh. destruct s as [C [ls|]];
      unfold_mirrored; unfold expired; run_store; lia.
  - intros key data t s. unfold write_fails.
    destruct s as [C [ls|]]; simpl; intros Hw;
      unfold Direct.saveToStorage; run_store.
Qed.

Lemma save_never_throws_mirror_serves_failed_write_witness :
  write_fails full_store = true
  ∧ fst (Mirrored._get "activeJob" true 1000
           (snd (Mirrored._save "activeJob" (JobRef "j1" "avif") 0 full_store)))
    = Normal (Some (JObj (JobRef "j1" "avif") (Some 0%Z))).
Proof.
  split; [reflexivity|].
  destruct save_never_throws_mirror_serves_failed_write
    as (_ & _ & _ & _ & _ & _ & H & _).
  apply (H "activeJob" (JobRef "j1" "avif") 0%Z 1000%Z true full_store).
  - reflexivity.
  - unfold TTL. lia.
Defined.

(** C9 as stated fails for the first listing: it has no mirror, so a save
    whose [setItem] throws is simply lost and the next read finds
    nothing. *)
Lemma direct_failed_write_is_lost :
  write_fails full_store = true
  ∧ fst (Direct.getActiveJob 1
           (snd (Direct.saveActiveJob "j1" "avif" 0 full_store)))
    = Normal None
  ∧ fst (Direct.getActiveJob 1
           (snd (Direct.saveActiveJob "j1" "avif" 0 full_store)))
    <> Normal (Some (JObj (JobRef "j1" "avif") (Some 0%Z))).
Proof.
  assert (E : fst (Direct.getActiveJob 1
                (snd (Direct.saveActiveJob "j1" "avif" 0 full_store)))
              = Normal None) by (vm_compute; reflexivity).
  split; [reflexivity|]. split; [exact E|]. rewrite E. discriminate.
Qed.

(** ** Expiry *)

Lemma mirrored_get_cached key b t s v ts :
  CACHE s !! key = Some (JObj v (Some ts)) ->
  let r := Mirrored._get key b t s in
  ((t - ts > TTL)%Z ->
     fst r = Normal None
     ∧ CACHE (snd r) !! key = None ∧ durable key (snd r) = None)
  ∧ ((t - ts <= TTL)%Z -> fst r = Normal (Some (JObj v (Some ts)))).
Proof.
  intros Hc. destruct s as [C [ls|]]; simpl in Hc;
    unfold Mirrored._get, Mirrored._clear, expired;
    split; intros Hage; unfold_prims; unfold_m; simpl; rewrite Hc; simpl;
    run_store; repeat split; auto; try lia; simplify_map_eq; auto.
Qed.

Lemma mirrored_get_durable key b t s v ts :
  CACHE s !! key = None ->
  durable key s = Some (Str (JObj v (Some ts))) ->
  let r := Mirrored._get key b t s in
  ((t - ts > TTL)%Z ->
     fst r = Normal None
     ∧ CACHE (snd r) !! key = None ∧ durable key (snd r) = None)
  ∧ ((t - ts <= TTL)%Z -> fst r = Normal (Some (JObj v (Some ts)))).
Proof.
  intros Hc Hd. destruct s as [C [ls|]]; simpl in Hc; unfold durable in Hd;
    simpl in Hd; [|discriminate];
    unfold Mirrored._get, Mirrored._clear, expired;
    split; intros Hage; unfold_prims; unfold_m; simpl; rewrite Hc; simpl;
    rewrite Hd; simpl;
    run_store; repeat split; auto; try lia; simplify_map_eq; auto.
Qed.

Lemma direct_get_durable key t s v ts :
  durable key s = Some (Str (JObj v (Some ts))) ->
  let r := Direct.getFromStorage key (Direct.clearFromStorage key) t s in
  ((t - ts > TTL)%Z -> fst r = Normal None ∧ durable key (snd r) = None)
  ∧ ((t - ts <= TTL)%Z -> fst r = Normal (Some (JObj v (Some ts)))).
Proof.
  intros Hd. destruct s as [C [ls|]]; unfold durable in Hd;
    simpl in Hd; [|discriminate];
    unfold Direct.getFromStorage, Direct.clearFromStorage, expired;
    split; intros Hage; unfold_prims; unfold_m; simpl; rewrite Hd; simpl;
    run_store; repeat split; auto; try lia; simplify_map_eq; auto.
Qed.

(** C2: an entry written by the cache under [key] with timestamp [ts],
    read at time [t]: if [t - ts > TTL] the read returns nothing and the
    entry is gone from the mirror and from the durable store afterwards;
    if [t - ts <= TTL] the read returns the entry.  For the mirrored
    listing the entry is the one in [CACHE], or the one in [localStorage]
    when [CACHE] has none; for the first listing it is the one in
    [localStorage]. *)
Theorem ttl_expiry :
  (forall key b t s v ts,
      CACHE s !! key = Some (JObj v (Some ts))
      ∨ (CACHE s !! key = None
         ∧ durable key s = Some (Str (JObj v (Some ts)))) ->
      let r := Mirrored._get key b t s in
      ((t - ts > TTL)%Z ->
         fst r = Normal None
         ∧ CACHE (snd r) !! key = None ∧ durable key (snd r) = None)
      ∧ ((t - ts <= TTL)%Z -> fst r = Normal (Some (JObj v (Some ts)))))
  ∧ (forall t s v ts,
      durable "activeJob" s = Some (Str (JObj v (Some ts))) ->
      let r := Direct.getActiveJob t s in
      ((t - ts > TTL)%Z ->
         fst r = Normal None ∧ durable "activeJob" (snd r) = None)
      ∧ ((t - ts <= TTL)%Z -> fst r = Normal (Some (JObj v (Some ts)))))
  ∧ (forall t s v ts,
      durable "completedResult" s = Some (Str (JObj v (Some ts))) ->
      let r := Direct.getCompletedResult t s in
      ((t - ts > TTL)%Z ->
         fst r = Normal None ∧ durable "completedResult" (snd r) = None)
      ∧ ((t - ts <= TTL)%Z -> fst r = Normal (Some (JObj v (Some ts))))).
Proof.
  split; [|split].
  - intros key b t s v ts [Hc|[Hc Hd]].
    + now apply mirrored_get_cached.
    + now apply mirrored_get_durable.
  - intros t s v ts Hd. now apply (direct_get_durable "activeJob").
  - intros t s v ts Hd. now apply (direct_get_durable "completedResult").
Qed.

(** Scenario D of the specification: a completed result written 25 hours
    ago is not returned and is removed from the durable store. *)
Lemma ttl_expiry_witness :
  let s := snd (Mirrored.saveCompletedResult "/out/j1.avif" None "avif" 0
                  empty_store) in
  let r := Mirrored._get "completedResult" true 90000000 s in
  fst r = Normal None
  ∧ CACHE (snd r) !! "completedResult" = None
  ∧ durable "completedResult" (snd r) = None.
Proof.
  intros s r.
  destruct ttl_expiry as (H & _).
  apply (H "completedResult" true 90000000%Z s
           (Result "/out/j1.avif" None "avif") 0%Z).
  - left. vm_compute. reflexivity.
  - unfold TTL. lia.
Defined.

(** ** The history *)

Lemma filter_same_length {A} (f : A -> bool) (l : list A) :
  length (List.filter f l) = length l -> List.filter f l = l.
Proof.
  induction l as [|a l IH]; simpl; [reflexivity|].
  destruct (f a) eqn:E; simpl; intros H.
  - f_equal. apply IH. lia.
  - pose proof (List.filter_length_le f l). lia.
Qed.

Lemma filter_all_true {A} (f : A -> bool) (l : list A) :
  Forall (fun x => f x = true) l -> List.filter f l = l.
Proof.
  induction 1 as [|a l Ha _ IH]; simpl; [reflexivity|].
  now rewrite Ha, IH.
Qed.

Lemma mirrored_push_entry e h :
  Mirrored.push_entry e h = firstn Mirrored.LIM (e :: h).
Proof.
  unfold Mirrored.push_entry.
  destruct (Mirrored.LIM <? length (e :: h))%nat eqn:E; [reflexivity|].
  apply Nat.ltb_ge in E. symmetry. apply firstn_all2. exact E.
Qed.

Lemma mirrored_saveToHistory_step u f p t d s :
  write_fails s = false ->
  exists h,
    let s' := snd (Mirrored.saveToHistory u f p t d s) in
    let h' := Mirrored.push_entry (mkHistoryEntry u f p t d) h in
    CACHE s' !! "conversionHistory" = Some (JArr h')
    ∧ durable "conversionHistory" s' = Some (Str (JArr h'))
    ∧ write_fails s' = false
    ∧ (forall H, CACHE s !! "conversionHistory" = Some (JArr H) ->
                 h = List.filter (fresh t) H).
Proof.
  unfold write_fails. destruct s as [C [[it q]|]]; simpl; [|discriminate].
  intros ->. unfold Mirrored.saveToHistory, Mirrored.getHistory_ref.
  unfold_prims; unfold_m; simpl.
  repeat (case_match; simpl in *; simplify_eq);
    eexists; simplify_map_eq; (repeat split; [reflexivity..|]);
    intros ? ?; simplify_eq; simpl in *; try discriminate; try reflexivity.
  all: try match goal with
         | Hp : present (?C !! _) = false, Hc : ?C !! _ = Some _ |- _ =>
             rewrite Hc in Hp; simpl in Hp; discriminate
         end.
  symmetry. apply filter_same_length. apply Nat.eqb_eq.
  now apply negb_false_iff.
Qed.

(** One push on a history that holds the most recent entries [P] (oldest
    first) followed by older ones keeps that shape. *)
Lemma push_shape (n : nat) (f : HistoryEntry -> bool) e P R :
  Forall (fun x => f x = true) P ->
  exists R',
    firstn (S n) (e :: List.filter f (firstn (S n) (rev P ++ R)))
    = firstn (S n) (rev (P ++ [e]) ++ R').
Proof.
  intros HP.
  exists (List.filter f (firstn (S n - length (rev P)) R)).
  rewrite rev_app_distr. simpl rev. simpl app.
  rewrite !firstn_cons. f_equal.
  rewrite firstn_app, List.filter_app.
  rewrite (filter_all_true f (firstn (S n) (rev P))).
  2:{ apply Forall_take. now apply List.Forall_rev. }
  set (R' := List.filter f _).
  destruct (Nat.le_gt_cases (length (rev P)) (S n)) as [Hle|Hgt].
  - now rewrite (firstn_all2 (n := S n)) by exact Hle.
  - rewrite !firstn_app.
    rewrite firstn_firstn. replace (Nat.min n (S n)) with n by lia.
    rewrite length_firstn.
    replace (n - Nat.min (S n) (length (rev P)))%nat with 0%nat by lia.
    replace (n - length (rev P))%nat with 0%nat by lia.
    reflexivity.
Qed.


Lemma window_fresh x rest :
  in_window (x :: rest) -> all_fresh_at rest [entry_of x].
Proof.
  intros [Hx _]. unfold all_fresh_at.
  eapply Forall_impl; [exact Hx|]. intros y Hy. simpl in Hy.
  constructor; [|constructor]. unfold fresh. simpl. now apply Z.ltb_lt.
Qed.

Lemma all_fresh_snoc x rest P :
  all_fresh_at (x :: rest) P -> in_window (x :: rest) ->
  all_fresh_at rest (P ++ [entry_of x]).
Proof.
  intros HP Hw. apply window_fresh in Hw. inversion HP; subst.
  unfold all_fresh_at in *. rewrite Forall_forall in *.
  intros y Hy. apply Forall_app. split; auto.
Qed.

Lemma save_all_cons SM x rest s :
  never_throws (sm_saveToHistory SM (p_url x) (p_format x) (p_params x)
                  (now (p_clock x)) (date (p_clock x))) ->
  save_all SM (x :: rest) s
  = save_all SM rest
      (snd (sm_saveToHistory SM (p_url x) (p_format x) (p_params x)
              (now (p_clock x)) (date (p_clock x)) s)).
Proof.
  intros Ht. destruct (Ht s) as [[] E]. simpl. unfold_m.
  destruct (sm_saveToHistory _ _ _ _ _ _ s) as [[[]|] s1];
    simpl in *; [reflexivity|discriminate].
Qed.

Lemma mirrored_save_all_shape l : forall P R s,
  write_fails s = false ->
  CACHE s !! "conversionHistory"
  = Some (JArr (firstn Mirrored.LIM (rev P ++ R))) ->
  durable "conversionHistory" s
  = Some (Str (JArr (firstn Mirrored.LIM (rev P ++ R)))) ->
  all_fresh_at l P -> in_window l ->
  exists R',
    let s' := snd (save_all mirrored_manager l s) in
    let H := firstn Mirrored.LIM (rev (P ++ map entry_of l) ++ R') in
    CACHE s' !! "conversionHistory" = Some (JArr H)
    ∧ durable "conversionHistory" s' = Some (Str (JArr H))
    ∧ write_fails s' = false.
Proof.
  induction l as [|x rest IH]; intros P R s Hw Hc Hd HP Hwin.
  - exists R. simpl. rewrite app_nil_r. auto.
  - rewrite save_all_cons
      by apply (c_saveToHistory_total _ _ mirrored_contract).
    simpl sm_saveToHistory.
    destruct (mirrored_saveToHistory_step (p_url x) (p_format x) (p_params x)
                (now (p_clock x)) (date (p_clock x)) s Hw)
      as (h & Hc1 & Hd1 & Hw1 & Hh).
    cbv zeta in Hc1, Hd1, Hw1.
    rewrite (Hh _ Hc) in Hc1, Hd1. rewrite mirrored_push_entry in Hc1, Hd1.
    inversion HP as [|? ? HPx HPrest]; subst.
    destruct (push_shape 2 (fresh (now (p_clock x)))
                (mkHistoryEntry (p_url x) (p_format x) (p_params x)
                   (now (p_clock x)) (date (p_clock x))) P R HPx) as [R1 E1].
    change (S 2) with Mirrored.LIM in E1. rewrite E1 in Hc1, Hd1.
    destruct (IH (P ++ [entry_of x]) R1 _ Hw1 Hc1 Hd1) as (R' & HR').
    + now apply all_fresh_snoc.
    + apply Hwin.
    + exists R'. cbv zeta in *.
      replace (P ++ map entry_of (x :: rest))
        with ((P ++ [entry_of x]) ++ map entry_of rest)
        by (simpl; now rewrite <- app_assoc).
      exact HR'.
Qed.

Lemma direct_push_entry e h :
  (length h <= Direct.MAX_HISTORY_ITEMS)%nat ->
  Direct.push_entry e h = firstn Direct.MAX_HISTORY_ITEMS (e :: h).
Proof.
  intros Hlen. unfold Direct.push_entry.
  destruct (Direct.MAX_HISTORY_ITEMS <? length (e :: h))%nat eqn:E.
  - apply Nat.ltb_lt in E. rewrite removelast_firstn_len.
    f_equal. simpl in *. lia.
  - apply Nat.ltb_ge in E. symmetry. now apply firstn_all2.
Qed.

Lemma direct_saveToHistory_step u f p t d s :
  write_fails s = false ->
  let h :=
    match durable "conversionHistory" s with
    | Some (Str (JArr H)) => List.filter (fresh t) H
    | _ => []
    end in
  let s' := snd (Direct.saveToHistory u f p t d s) in
  durable "conversionHistory" s'
  = Some (Str (JArr (Direct.push_entry (mkHistoryEntry u f p t d) h)))
  ∧ write_fails s' = false.
Proof.
  unfold write_fails. destruct s as [C [[it q]|]]; simpl; [|discriminate].
  intros ->. unfold Direct.saveToHistory, Direct.getHistory.
  unfold_prims; unfold_m; simpl.
  repeat (case_match; simpl in *; simplify_eq); simplify_map_eq; auto.
Qed.

Lemma direct_save_all_shape l : forall P R s,
  write_fails s = false ->
  durable "conversionHistory" s
  = Some (Str (JArr (firstn Direct.MAX_HISTORY_ITEMS (rev P ++ R)))) ->
  all_fresh_at l P -> in_window l ->
  exists R',
    let s' := snd (save_all direct_manager l s) in
    let H := firstn Direct.MAX_HISTORY_ITEMS
               (rev (P ++ map entry_of l) ++ R') in
    durable "conversionHistory" s' = Some (Str (JArr H))
    ∧ write_fails s' = false.
Proof.
  induction l as [|x rest IH]; intros P R s Hw Hd HP Hwin.
  - exists R. simpl. rewrite app_nil_r. auto.
  - rewrite save_all_cons
      by apply (c_saveToHistory_total _ _ direct_contract).
    simpl sm_saveToHistory.
    destruct (direct_saveToHistory_step (p_url x) (p_format x) (p_params x)
                (now (p_clock x)) (date (p_clock x)) s Hw)
      as (Hd1 & Hw1).
    rewrite Hd in Hd1. rewrite direct_push_entry in Hd1.
    2:{ etransitivity; [apply List.filter_length_le|].
        apply firstn_le_length. }
    inversion HP as [|? ? HPx HPrest]; subst.
    destruct (push_shape 4 (fresh (now (p_clock x)))
                (mkHistoryEntry (p_url x) (p_format x) (p_params x)
                   (now (p_clock x)) (date (p_clock x))) P R HPx) as [R1 E1].
    change (S 4) with Direct.MAX_HISTORY_ITEMS in E1. rewrite E1 in Hd1.
    destruct (IH (P ++ [entry_of x]) R1 _ Hw1 Hd1) as (R' & HR').
    + now apply all_fresh_snoc.
    + apply Hwin.
    + exists R'. cbv zeta in *.
      replace (P ++ map entry_of (x :: rest))
        with ((P ++ [entry_of x]) ++ map entry_of rest)
        by (simpl; now rewrite <- app_assoc).
      exact HR'.
Qed.




Lemma newest_length cap l :
  (cap <= length l)%nat -> length (newest cap l) = cap.
Proof.
  intros H. unfold newest.
  rewrite length_firstn, length_rev, length_map. lia.
Qed.

Lemma newest_drop_rest cap l R :
  (cap <= length l)%nat ->
  firstn cap (rev (map entry_of l) ++ R) = newest cap l.
Proof.
  intros H. unfold newest. rewrite firstn_app.
  rewrite length_rev, length_map.
  replace (cap - length l)%nat with 0%nat by lia.
  simpl. now rewrite app_nil_r.
Qed.

Lemma newest_fresh cap l t :
  Forall (fun x => (t - now (p_clock x) < TTL)%Z) l ->
  Forall (fun e => fresh t e = true) (newest cap l).
Proof.
  intros H. unfold newest. apply Forall_take. apply List.Forall_rev.
  apply Forall_map. eapply Forall_impl; [exact H|].
  intros x Hx. unfold fresh. simpl. now apply Z.ltb_lt.
Qed.

Lemma mirrored_getHistory_cached t s H :
  CACHE s !! "conversionHistory" = Some (JArr H) ->
  Forall (fun e => fresh t e = true) H ->
  fst (Mirrored.getHistory t s) = Normal H.
Proof.
  intros Hc Hf. unfold Mirrored.getHistory, Mirrored.getHistory_ref.
  unfold_prims; unfold_m; simpl. rewrite Hc. simpl.
  rewrite (filter_all_true _ _ Hf), Nat.eqb_refl. reflexivity.
Qed.

Lemma direct_getHistory_stored t s H :
  durable "conversionHistory" s = Some (Str (JArr H)) ->
  Forall (fun e => fresh t e = true) H ->
  fst (Direct.getHistory t s) = Normal H.
Proof.
  intros Hd Hf. unfold Direct.getHistory. unfold durable in Hd.
  destruct s as [C [ls|]]; simpl in Hd; [|discriminate].
  unfold_prims; unfold_m; simpl. rewrite Hd. simpl.
  rewrite (filter_all_true _ _ Hf), Nat.eqb_refl. reflexivity.
Qed.

(** C7, as amended: with a [localStorage] that accepts writes, at least
    capacity calls of [saveToHistory], every pushed entry still younger
    than the TTL at each later push, leave exactly capacity entries: the
    last capacity ones pushed, most recent first, whatever the history
    was before.  They are what the store holds and what [getHistory]
    returns at any time [t] at which they are all younger than the TTL.
    Capacity is 3 for the mirrored listing and 5 for the first one; the
    first listing drops one entry per push, so there the history found at
    the start must not be longer than the capacity. *)
Theorem history_bound :
  (forall s l t,
      write_fails s = false ->
      (Mirrored.MAX_HISTORY_ITEMS <= length l)%nat ->
      in_window l ->
      Forall (fun x => (t - now (p_clock x) < TTL)%Z) l ->
      let s' := snd (save_all mirrored_manager l s) in
      let kept := newest Mirrored.MAX_HISTORY_ITEMS l in
      length kept = Mirrored.MAX_HISTORY_ITEMS
      ∧ CACHE s' !! "conversionHistory" = Some (JArr kept)
      ∧ durable "conversionHistory" s' = Some (Str (JArr kept))
      ∧ fst (Mirrored.getHistory t s') = Normal kept)
  ∧ (forall s l t,
      write_fails s = false ->
      (forall H, durable "conversionHistory" s = Some (Str (JArr H)) ->
                 (length H <= Direct.MAX_HISTORY_ITEMS)%nat) ->
      (Direct.MAX_HISTORY_ITEMS <= length l)%nat ->
      in_window l ->
      Forall (fun x => (t - now (p_clock x) < TTL)%Z) l ->
      let s' := snd (save_all direct_manager l s) in
      let kept := newest Direct.MAX_HISTORY_ITEMS l in
      length kept = Direct.MAX_HISTORY_ITEMS
      ∧ durable "conversionHistory" s' = Some (Str (JArr kept))
      ∧ fst (Direct.getHistory t s') = Normal kept).
Proof.
  split.
  - intros s l t Hw Hlen Hwin Ht s' kept.
    destruct l as [|x rest]; [simpl in Hlen; unfold Mirrored.MAX_HISTORY_ITEMS, Mirrored.LIM in Hlen; lia|].
    assert (E : exists R, CACHE s' !! "conversionHistory"
                  = Some (JArr (firstn Mirrored.LIM
                                  (rev (map entry_of (x :: rest)) ++ R)))
                ∧ durable "conversionHistory" s'
                  = Some (Str (JArr (firstn Mirrored.LIM
                                  (rev (map entry_of (x :: rest)) ++ R))))).
    { subst s'. rewrite save_all_cons
        by apply (c_saveToHistory_total _ _ mirrored_contract).
      simpl sm_saveToHistory.
      destruct (mirrored_saveToHistory_step (p_url x) (p_format x)
                  (p_params x) (now (p_clock x)) (date (p_clock x)) s Hw)
        as (h & Hc1 & Hd1 & Hw1 & _).
      cbv zeta in Hc1, Hd1, Hw1. rewrite mirrored_push_entry in Hc1, Hd1.
      destruct (mirrored_save_all_shape rest [entry_of x] h _ Hw1 Hc1 Hd1)
        as (R' & HR').
      - now apply window_fresh.
      - apply Hwin.
      - exists R'. cbv zeta in HR'. destruct HR' as (H1 & H2 & _).
        split; assumption. }
    destruct E as (R & Hc & Hd).
    unfold Mirrored.MAX_HISTORY_ITEMS in *.
    rewrite newest_drop_rest in Hc, Hd by exact Hlen.
    repeat split; auto.
    + now apply newest_length.
    + apply mirrored_getHistory_cached; [exact Hc|]. now apply newest_fresh.
  - intros s l t Hw Hstored Hlen Hwin Ht s' kept.
    destruct l as [|x rest]; [simpl in Hlen; unfold Direct.MAX_HISTORY_ITEMS in Hlen; lia|].
    assert (E : exists R, durable "conversionHistory" s'
                  = Some (Str (JArr (firstn Direct.MAX_HISTORY_ITEMS
                                  (rev (map entry_of (x :: rest)) ++ R))))).
    { subst s'. rewrite save_all_cons
        by apply (c_saveToHistory_total _ _ direct_contract).
      simpl sm_saveToHistory.
      destruct (direct_saveToHistory_step (p_url x) (p_format x)
                  (p_params x) (now (p_clock x)) (date (p_clock x)) s Hw)
        as (Hd1 & Hw1).
      rewrite direct_push_entry in Hd1.
      2:{ destruct (durable "conversionHistory" s) as [[[]| |]|] eqn:Es;
            simpl; try lia.
          etransitivity; [apply List.filter_length_le|]. now apply Hstored. }
      match type of Hd1 with
      | context [firstn _ (_ :: ?h)] =>
          destruct (direct_save_all_shape rest [entry_of x] h _ Hw1 Hd1)
            as (R' & HR')
      end.
      - now apply window_fresh.
      - apply Hwin.
      - exists R'. cbv zeta in HR'. destruct HR' as (H1 & _). exact H1. }
    destruct E as (R & Hd).
    rewrite newest_drop_rest in Hd by exact Hlen.
    repeat split; auto.
    + now apply newest_length.
    + apply direct_getHistory_stored; [exact Hd|]. now apply newest_fresh.
Qed.

Lemma history_bound_witness :
  let s' := snd (save_all mirrored_manager burst empty_store) in
  let kept := newest Mirrored.MAX_HISTORY_ITEMS burst in
  length kept = Mirrored.MAX_HISTORY_ITEMS
  ∧ CACHE s' !! "conversionHistory" = Some (JArr kept)
  ∧ durable "conversionHistory" s' = Some (Str (JArr kept))
  ∧ fst (Mirrored.getHistory 5000 s') = Normal kept.
Proof.
  destruct history_bound as (H & _).
  apply (H empty_store burst 5000%Z).
  - reflexivity.
  - vm_compute. lia.
  - simpl. unfold TTL. repeat split; repeat constructor; simpl; lia.
  - unfold TTL. repeat constructor; simpl; lia.
Defined.

(** C7 as stated fails: the history is filtered by age at every push, so
    capacity + 1 pushes made a day apart leave one entry, not capacity
    many. *)
Lemma spaced_pushes_leave_one_entry :
  length spaced = (Mirrored.MAX_HISTORY_ITEMS + 1)%nat
  ∧ exists h,
      durable "conversionHistory"
        (snd (save_all mirrored_manager spaced empty_store))
      = Some (Str (JArr h))
      ∧ length h = 1%nat
      ∧ length h <> Mirrored.MAX_HISTORY_ITEMS.
Proof.
  split; [reflexivity|]. eexists. split; [vm_compute; reflexivity|].
  split; [reflexivity|]. vm_compute. discriminate.
Qed.

(** ** Invariants of monadic code *)

Lemma keeps_mret {S A} (P : S -> Prop) (a : A) : keeps P (mret a : M S A).
Proof. intros s H. exact H. Qed.

Lemma keeps_throw {S A} (P : S -> Prop) : keeps P (throw : M S A).
Proof. intros s H. exact H. Qed.

Lemma keeps_gets {S A} (P : S -> Prop) (f : S -> A) : keeps P (gets f).
Proof. intros s H. exact H. Qed.

Lemma keeps_bind {S A B} (P : S -> Prop) (m : M S A) (k : A -> M S B) :
  keeps P m -> (forall a, keeps P (k a)) -> keeps P (m ≫= k).
Proof.
  intros Hm Hk s Hs. unfold_m. specialize (Hm s Hs).
  destruct (m s) as [[a|] s1]; simpl in *; [now apply Hk|exact Hm].
Qed.

Lemma keeps_try {S A} (P : S -> Prop) (b h : M S A) :
  keeps P b -> keeps P h -> keeps P (try_catch b h).
Proof.
  intros Hb Hh s Hs. unfold try_catch. specialize (Hb s Hs).
  destruct (b s) as [[a|] s1]; simpl in *; [exact Hb|now apply Hh].
Qed.

Lemma makes_keeps {S A} (P : S -> Prop) (m : M S A) : makes P m -> keeps P m.
Proof. intros H s _. apply H. Qed.

Lemma makes_bind {S A B} (P : S -> Prop) (m : M S A) (k : A -> M S B) :
  makes P m -> (forall a, keeps P (k a)) -> makes P (m ≫= k).
Proof.
  intros Hm Hk s. unfold_m. specialize (Hm s).
  destruct (m s) as [[a|] s1]; simpl in *; [now apply Hk|exact Hm].
Qed.

Lemma keeps_on_store {A} (P : store -> Prop) (m : M store A) :
  keeps P m -> keeps (fun p => P (storage p)) (on_store m).
Proof.
  intros H p Hp. unfold on_store. specialize (H _ Hp).
  destruct (m (storage p)) as [r s1]; exact H.
Qed.

Lemma makes_on_store {A} (P : store -> Prop) (m : M store A) :
  makes P m -> makes (fun p => P (storage p)) (on_store m).
Proof.
  intros H p. unfold on_store. specialize (H (storage p)).
  destruct (m (storage p)) as [r s1]; exact H.
Qed.

Lemma keeps_emit (P : store -> Prop) e :
  keeps (fun p => P (storage p)) (emit e).
Proof. intros p H. exact H. Qed.

Lemma keeps_on_page {A} (P : page -> Prop) (m : M page A) :
  keeps P m -> keeps (fun l => P (pg l)) (on_page m).
Proof.
  intros H l Hl. unfold on_page. specialize (H _ Hl).
  destruct (m (pg l)) as [r p1]; exact H.
Qed.

Lemma makes_on_page {A} (P : page -> Prop) (m : M page A) :
  makes P m -> makes (fun l => P (pg l)) (on_page m).
Proof.
  intros H l. unfold on_page. specialize (H (pg l)).
  destruct (m (pg l)) as [r p1]; exact H.
Qed.

Lemma total_bind {S A B} (m : M S A) (k : A -> M S B) :
  never_throws m -> (forall a, never_throws (k a)) -> never_throws (m ≫= k).
Proof.
  intros Hm Hk s. unfold_m. destruct (Hm s) as [a Ha].
  destruct (m s) as [[a'|] s1]; simpl in *; [apply Hk|discriminate].
Qed.

Lemma total_on_store {A} (m : M store A) :
  never_throws m -> never_throws (on_store m).
Proof.
  intros H p. unfold on_store. destruct (H (storage p)) as [a Ha].
  destruct (m (storage p)) as [r s1]. simpl in *. eauto.
Qed.

Lemma total_emit e : never_throws (emit e).
Proof. intros p. now exists tt. Qed.

Lemma total_mret {S A} (a : A) : never_throws (mret a : M S A).
Proof. intros s. now exists a. Qed.

(** *** Requests and waits *)

Lemma fetches_app a b : fetches (a ++ b) = fetches a ++ fetches b.
Proof. unfold fetches. apply omap_app. Qed.

Lemma sleeps_app a b : sleeps (a ++ b) = sleeps a ++ sleeps b.
Proof. unfold sleeps. apply omap_app. Qed.

Lemma quiet_on_store {A} (m : M store A) : quiet (on_store m).
Proof.
  intros F W p Hp. unfold on_store.
  destruct (m (storage p)) as [r s1]; exact Hp.
Qed.

Lemma quiet_emit e :
  match e with Fetch _ _ | Sleep _ => False | _ => True end ->
  quiet (emit e).
Proof.
  intros He F W p [HF HW]. unfold io_is. simpl.
  rewrite fetches_app, sleeps_app, HF, HW.
  destruct e; try contradiction; simpl; now rewrite !app_nil_r.
Qed.

Lemma quiet_mret {A} (a : A) : quiet (mret a).
Proof. intros F W. apply keeps_mret. Qed.

Lemma quiet_throw {A} : quiet (throw : M page A).
Proof. intros F W. apply keeps_throw. Qed.

Lemma quiet_bind {A B} (m : M page A) (k : A -> M page B) :
  quiet m -> (forall a, quiet (k a)) -> quiet (m ≫= k).
Proof. intros Hm Hk F W. apply keeps_bind; [apply Hm|intros a; apply Hk]. Qed.

Lemma quiet_try {A} (b h : M page A) :
  quiet b -> quiet h -> quiet (try_catch b h).
Proof. intros Hb Hh F W. apply keeps_try; [apply Hb|apply Hh]. Qed.

Ltac quiet_auto :=
  repeat first
    [ apply quiet_mret
    | apply quiet_throw
    | apply quiet_on_store
    | (apply quiet_emit; exact I)
    | apply quiet_try
    | apply quiet_bind; [|intros ?]
    | case_match ].

Lemma quiet_same {A} (m : M page A) p :
  quiet m ->
  fetches (events (snd (m p))) = fetches (events p)
  ∧ sleeps (events (snd (m p))) = sleeps (events p).
Proof. intros H. now apply (H _ _ p). Qed.

Lemma extends_refl p : extends (events p) p.
Proof. exists []. now rewrite app_nil_r. Qed.

Lemma keeps_extends_on_store {A} E (m : M store A) :
  keeps (extends E) (on_store m).
Proof.
  intros p Hp. unfold on_store. destruct (m (storage p)) as [r s1]; exact Hp.
Qed.

Lemma keeps_extends_emit E e : keeps (extends E) (emit e).
Proof.
  intros p [rest Hp]. exists (rest ++ [e]). simpl.
  now rewrite Hp, app_assoc.
Qed.

Ltac extends_auto :=
  repeat first
    [ apply keeps_mret
    | apply keeps_throw
    | apply keeps_extends_on_store
    | apply keeps_extends_emit
    | apply keeps_try
    | apply keeps_bind; [|intros ?]
    | case_match ].

Section Handlers.
Variable SM : StorageManager.
Variables isMobile hist : bool.

Lemma complete_quiet data fmt c : quiet (_complete SM hist data fmt c).
Proof. unfold _complete. quiet_auto. Qed.

Lemma err_quiet data : quiet (_err SM data).
Proof. unfold _err. quiet_auto. Qed.

Lemma connLost_quiet : quiet (_connLost SM).
Proof. unfold _connLost. quiet_auto. Qed.

Lemma retryMsg_quiet cnt st : quiet (_retryMsg cnt st).
Proof. unfold _retryMsg. quiet_auto. Qed.

Lemma complete_extends E data fmt c :
  keeps (extends E) (_complete SM hist data fmt c).
Proof. unfold _complete. extends_auto. Qed.

Lemma err_extends E data : keeps (extends E) (_err SM data).
Proof. unfold _err. extends_auto. Qed.

Lemma connLost_extends E : keeps (extends E) (_connLost SM).
Proof. unfold _connLost. extends_auto. Qed.

Lemma retryMsg_extends E cnt st : keeps (extends E) (_retryMsg cnt st).
Proof. unfold _retryMsg. extends_auto. Qed.

Lemma retryMsg_total cnt st : never_throws (_retryMsg cnt st).
Proof.
  intros p. unfold _retryMsg. repeat case_match; now exists tt.
Qed.

Lemma retryMsg_storage cnt st p :
  storage (snd (_retryMsg cnt st p)) = storage p.
Proof. unfold _retryMsg. repeat case_match; reflexivity. Qed.
End Handlers.

(** ** The backoff *)

Section Backoff.
Local Open Scope Q_scope.

Lemma backoff_eq q : backoff q == Qmin (q * (3 # 2)) 30000.
Proof. unfold backoff. apply Qred_correct. Qed.

Lemma backoff_le_cap q : backoff q <= 30000.
Proof. rewrite backoff_eq. apply Q.le_min_r. Qed.

Lemma backoff_ge q : 0 <= q -> q <= 30000 -> q <= backoff q.
Proof.
intros H0 H1. rewrite backoff_eq. apply Q.min_glb; [lra|exact H1].
Qed.

Lemma baseInt_pos mob : 0 <= baseInt mob.
Proof. destruct mob; unfold baseInt; lra. Qed.

Lemma baseInt_le_cap mob : baseInt mob <= 30000.
Proof. destruct mob; unfold baseInt; lra. Qed.

Lemma backoff_range mob q : in_range mob q -> in_range mob (backoff q).
Proof.
intros [H0 H1]. pose proof (baseInt_pos mob). split.
- apply Qle_trans with q; [exact H0|]. apply backoff_ge; [lra|exact H1].
- apply backoff_le_cap.
Qed.

End Backoff.

(** ** One turn of the loop *)

Lemma on_page_then {A B} (m : M page A) (b : B) l :
  (on_page m ;; mret b) l
  = match m (pg l) with
    | (Normal _, p') => (Normal b, with_page l p')
    | (Throw, p') => (Throw, with_page l p')
    end.
Proof.
  unfold on_page, with_page. unfold_m.
  destruct (m (pg l)) as [[a|] p']; reflexivity.
Qed.

Section Turn.
Variable SM : StorageManager.
Variables isMobile hist : bool.
Variables jobId fmt : option string.

#[local] Abbreviation body := (poll_body SM isMobile hist jobId fmt).
#[local] Abbreviation run := (poll_loop SM isMobile hist jobId fmt).
#[local] Abbreviation url := (progress_url jobId).

Lemma poll_body_flag_false l : body FlagFalse l = (Normal None, waited l).
Proof. reflexivity. Qed.

Lemma catch_block_eq l :
  catch_block SM isMobile l
  = if (maxErrs isMobile <=? S (errs l))%nat then
      (on_page (_connLost SM) ;; mret (Some ConnectionLost)) (backed_off l)
    else
      (on_page (_retryMsg (S (errs l)) (lastSt l)) ;; mret None)
        (backed_off l).
Proof.
  unfold catch_block, backed_off. unfold_m. simpl.
  destruct (maxErrs isMobile <=? S (errs l))%nat; reflexivity.
Qed.

Lemma try_block_failed c l :
  try_block SM isMobile hist jobId fmt c Failed l
  = (Throw, asked isMobile jobId l).
Proof. reflexivity. Qed.

Lemma try_block_replied c data l :
  try_block SM isMobile hist jobId fmt c (Replied data) l
  = if String.eqb (status data) "done" then
      (on_page (_complete SM hist data fmt c) ;; mret (Some JobDone))
        (replied isMobile jobId data l)
    else if String.eqb (status data) "error"
            || String.eqb (status data) "cancelled" then
      (on_page (_err SM data) ;; mret (Some JobFailed))
        (replied isMobile jobId data l)
    else (Normal None, replied isMobile jobId data l).
Proof.
  unfold try_block, fetch_status, replied, asked. unfold_m. simpl.
  destruct (negb (bool_decide (lastSt l = Some (status data)))
            || String.eqb (status data) "running"); simpl;
    destruct (String.eqb (status data) "done"); simpl;
    try reflexivity;
    destruct (String.eqb (status data) "error"
              || String.eqb (status data) "cancelled"); reflexivity.
Qed.

Lemma poll_body_flag_true c r l :
  body (FlagTrue c r) l
  = match try_catch (try_block SM isMobile hist jobId fmt c r)
            (catch_block SM isMobile) l with
    | (Normal (Some t), l') => (Normal (Some t), l')
    | (Normal None, l') => (Normal None, waited l')
    | (Throw, l') => (Throw, l')
    end.
Proof.
  unfold poll_body, mbind, M_bind, bind.
  destruct (try_catch (try_block SM isMobile hist jobId fmt c r)
              (catch_block SM isMobile) l) as [[[t|]|] l']; reflexivity.
Qed.

(** The [catch] block: the counters, and what becomes of the loop. *)
Lemma catch_block_spec l :
  let r := catch_block SM isMobile l in
  interval (snd r) = backoff (interval l)
  ∧ errs (snd r) = S (errs l)
  ∧ lastSt (snd r) = lastSt l
  ∧ io_is (fetches (events (pg l))) (sleeps (events (pg l))) (pg (snd r))
  ∧ extends (events (pg l)) (pg (snd r))
  ∧ (if (maxErrs isMobile <=? S (errs l))%nat
     then fst r = Normal (Some ConnectionLost) ∨ fst r = Throw
     else fst r = Normal None ∧ storage (pg (snd r)) = storage (pg l)).
Proof.
  intros r. subst r. rewrite catch_block_eq.
  destruct (maxErrs isMobile <=? S (errs l))%nat;
    rewrite on_page_then; simpl.
  - pose proof (connLost_quiet SM _ _ (pg l) (conj eq_refl eq_refl)) as Hq.
    assert (He : extends (events (pg l)) (snd (_connLost SM (pg l)))).
    { apply connLost_extends, extends_refl. }
    destruct (_connLost SM (pg l)) as [[[]|] p']; simpl in *; auto 10.
  - pose proof (retryMsg_quiet (S (errs l)) (lastSt l) _ _ (pg l)
                  (conj eq_refl eq_refl)) as Hq.
    pose proof (retryMsg_storage (S (errs l)) (lastSt l) (pg l)) as Hs.
    destruct (retryMsg_total (S (errs l)) (lastSt l) (pg l)) as [[] Ht].
    assert (He : extends (events (pg l))
                   (snd (_retryMsg (S (errs l)) (lastSt l) (pg l)))).
    { apply retryMsg_extends, extends_refl. }
    destruct (_retryMsg _ _ (pg l)) as [[[]|] p']; simpl in *;
      try discriminate; auto 10.
Qed.

Lemma asked_io l :
  io_is (fetches (events (pg l)) ++ [url]) (sleeps (events (pg l)))
    (pg (asked isMobile jobId l)).
Proof.
  unfold io_is, asked. simpl. rewrite fetches_app, sleeps_app. simpl.
  now rewrite app_nil_r.
Qed.

Lemma replied_io data l :
  io_is (fetches (events (pg l)) ++ [url]) (sleeps (events (pg l)))
    (pg (replied isMobile jobId data l)).
Proof.
  destruct (asked_io l) as [HF HW]. unfold io_is, replied. simpl.
  destruct (negb _ || _); simpl; [|now split].
  rewrite fetches_app, sleeps_app. simpl in *.
  now rewrite HF, HW, !app_nil_r.
Qed.

Lemma replied_extends data l :
  extends (events (pg (asked isMobile jobId l)))
    (pg (replied isMobile jobId data l)).
Proof.
  unfold replied. simpl. destruct (negb _ || _); simpl.
  - now eexists.
  - exists []. now rewrite app_nil_r.
Qed.

(** The [try] block when the request is answered. *)
Lemma try_block_replied_spec c data l :
  let r := try_block SM isMobile hist jobId fmt c (Replied data) l in
  interval (snd r) = baseInt isMobile
  ∧ errs (snd r) = 0%nat
  ∧ lastSt (snd r) = Some (status data)
  ∧ io_is (fetches (events (pg l)) ++ [url]) (sleeps (events (pg l)))
      (pg (snd r))
  ∧ extends (events (pg (asked isMobile jobId l))) (pg (snd r))
  ∧ fst r <> Normal (Some ConnectionLost)
  ∧ (is_terminal (status data) = false ->
     fst r = Normal None ∧ storage (pg (snd r)) = storage (pg l)).
Proof.
  intros r. subst r. rewrite try_block_replied.
  pose proof (replied_io data l) as Hio.
  pose proof (replied_extends data l) as Hex.
  unfold is_terminal.
  destruct (String.eqb (status data) "done") eqn:Hd;
    [|destruct (String.eqb (status data) "error"
                || String.eqb (status data) "cancelled") eqn:He];
    try rewrite on_page_then; simpl.
  - pose proof (complete_quiet SM hist data fmt c _ _ _ Hio) as Hq.
    pose proof (complete_extends SM hist _ data fmt c _ Hex) as Hx.
    destruct (_complete SM hist data fmt c _) as [[[]|] p']; simpl in *;
      repeat split; auto; try apply Hq; try discriminate;
      intros; discriminate.
  - pose proof (err_quiet SM data _ _ _ Hio) as Hq.
    pose proof (err_extends SM _ data _ Hex) as Hx.
    destruct (_err SM data _) as [[[]|] p']; simpl in *;
      repeat split; auto; try apply Hq; try discriminate;
      intros; congruence.
  - repeat split; auto; try apply Hio; discriminate.
Qed.

Lemma try_block_failed_spec c l :
  let r := try_block SM isMobile hist jobId fmt c Failed l in
  fst r = Throw ∧ snd r = asked isMobile jobId l.
Proof. now rewrite try_block_failed. Qed.

Lemma interval_ok_reset l :
  interval l = baseInt isMobile -> interval_ok isMobile l.
Proof.
  intros E. unfold interval_ok. rewrite E.
  split; [apply Qle_refl|]. split; [apply baseInt_le_cap|reflexivity].
Qed.

Lemma interval_ok_backoff q l :
  in_range isMobile q ->
  interval l = backoff q -> errs l <> 0%nat -> interval_ok isMobile l.
Proof.
  intros Hq E He. destruct (backoff_range _ _ Hq) as [H0 H1].
  unfold interval_ok. rewrite E. repeat split; auto. contradiction.
Qed.

Lemma interval_ok_range l :
  interval_ok isMobile l -> in_range isMobile (interval l).
Proof. intros (H0 & H1 & _). now split. Qed.

Lemma interval_ok_waited l :
  interval_ok isMobile l -> interval_ok isMobile (waited l).
Proof. exact id. Qed.

(** What a turn that finds the flag set does, however the request ends:
    one request, first thing; a wait at the end exactly when the loop
    goes round again; the interval stays between base and cap. *)
Lemma flag_true_turn c r l :
  let o := body (FlagTrue c r) l in
  fetches (events (pg (snd o))) = fetches (events (pg l)) ++ [url]
  ∧ sleeps (events (pg (snd o)))
    = sleeps (events (pg l))
      ++ match fst o with
         | Normal None => [interval (snd o)]
         | _ => []
         end
  ∧ extends (events (pg (asked isMobile jobId l))) (pg (snd o))
  ∧ (interval_ok isMobile l -> interval_ok isMobile (snd o)).
Proof.
  intros o. subst o. rewrite poll_body_flag_true. unfold try_catch.
  assert (Hcatch : forall l1 : loop,
    io_is (fetches (events (pg l)) ++ [url]) (sleeps (events (pg l)))
      (pg l1) ->
    extends (events (pg (asked isMobile jobId l))) (pg l1) ->
    (interval_ok isMobile l -> in_range isMobile (interval l1)) ->
    let o := match catch_block SM isMobile l1 with
             | (Normal (Some t), l') => (Normal (Some t), l')
             | (Normal None, l') => (Normal None, waited l')
             | (Throw, l') => (Throw, l')
             end in
    fetches (events (pg (snd o))) = fetches (events (pg l)) ++ [url]
    ∧ sleeps (events (pg (snd o)))
      = sleeps (events (pg l))
        ++ match fst o with
           | Normal None => [interval (snd o)]
           | _ => []
           end
    ∧ extends (events (pg (asked isMobile jobId l))) (pg (snd o))
    ∧ (interval_ok isMobile l -> interval_ok isMobile (snd o))).
  { intros l1 [HF HW] [rest Hx] Hr.
    destruct (catch_block_spec l1) as (Hi & He & _ & [HF1 HW1] & [r1 Hx1] & _).
    rewrite HF in HF1. rewrite HW in HW1.
    assert (Hok : interval_ok isMobile l ->
                  interval_ok isMobile (snd (catch_block SM isMobile l1))).
    { intros Hl. eapply interval_ok_backoff; [apply (Hr Hl)|exact Hi|].
      rewrite He. discriminate. }
    assert (Hext : extends (events (pg (asked isMobile jobId l)))
                     (pg (snd (catch_block SM isMobile l1)))).
    { exists (rest ++ r1). now rewrite Hx1, Hx, app_assoc. }
    destruct (catch_block SM isMobile l1) as [[[t|]|] l']; simpl in *.
    - rewrite app_nil_r. split; [|split; [|split]]; assumption.
    - rewrite fetches_app, sleeps_app, HF1, HW1. simpl.
      rewrite app_nil_r. split; [reflexivity|]. split; [reflexivity|].
      split; [|exact Hok].
      destruct Hext as [r2 Hr2]. exists (r2 ++ [Sleep (interval l')]).
      now rewrite Hr2, app_assoc.
    - rewrite app_nil_r. split; [|split; [|split]]; assumption. }
  destruct r as [|data].
  - rewrite try_block_failed. apply Hcatch.
    + apply asked_io.
    + apply extends_refl.
    + apply interval_ok_range.
  - destruct (try_block_replied_spec c data l)
      as (Hi & He & _ & Hio & Hex & _).
    destruct (try_block SM isMobile hist jobId fmt c (Replied data) l)
      as [[[t|]|] l1]; simpl in *.
    + destruct Hio as [HF HW]. rewrite app_nil_r.
      split; [exact HF|]. split; [exact HW|]. split; [exact Hex|].
      intros _. now apply interval_ok_reset.
    + destruct Hio as [HF HW]. rewrite fetches_app, sleeps_app, HF, HW.
      simpl. rewrite app_nil_r. split; [reflexivity|].
      split; [reflexivity|]. split.
      * destruct Hex as [r2 Hr2]. exists (r2 ++ [Sleep (interval l1)]).
        now rewrite Hr2, app_assoc.
      * intros _. now apply interval_ok_reset.
    + apply Hcatch; auto. intros _. rewrite Hi. split.
      * apply Qle_refl.
      * apply baseInt_le_cap.
Qed.

Lemma flag_false_turn l :
  let o := body FlagFalse l in
  fst o = Normal None
  ∧ snd o = waited l.
Proof. now rewrite poll_body_flag_false. Qed.
End Turn.


(** ** The loop over several turns *)

Section Run.
Variable SM : StorageManager.
Variables isMobile hist : bool.
Variables jobId fmt : option string.

#[local] Abbreviation body := (poll_body SM isMobile hist jobId fmt).
#[local] Abbreviation run := (poll_loop SM isMobile hist jobId fmt).
#[local] Abbreviation url := (progress_url jobId).

Lemma poll_loop_cons t rest l :
  run (t :: rest) l
  = match body t l with
    | (Normal None, l') => run rest l'
    | (Normal (Some x), l') => (Normal (Some x), l')
    | (Throw, l') => (Throw, l')
    end.
Proof.
  cbn [poll_loop]. unfold mbind, M_bind, bind.
  destruct (body t l) as [[[x|]|] l']; reflexivity.
Qed.

Lemma poll_loop_app a : forall b l,
  run (a ++ b) l
  = match run a l with
    | (Normal None, l') => run b l'
    | o => o
    end.
Proof.
  induction a as [|t a IH]; intros b l; [reflexivity|].
  rewrite <- app_comm_cons, !poll_loop_cons.
  destruct (body t l) as [[[x|]|] l']; auto.
Qed.

Lemma flag_false_run n : forall l,
  run (repeat FlagFalse n) l
  = (Normal None,
     with_page l
       (mkPage (storage (pg l))
          (events (pg l) ++ repeat (Sleep (interval l)) n))).
Proof.
  induction n as [|n IH]; intros l.
  - simpl. rewrite app_nil_r. now destruct l as [[s e] i n x].
  - simpl repeat. rewrite poll_loop_cons, poll_body_flag_false, IH.
    unfold waited, with_page. simpl. now rewrite <- app_assoc.
Qed.

Lemma failed_turn c l :
  let o := body (FlagTrue c Failed) l in
  interval (snd o) = backoff (interval l)
  ∧ errs (snd o) = S (errs l)
  ∧ lastSt (snd o) = lastSt l
  ∧ (if (maxErrs isMobile <=? S (errs l))%nat
     then fst o = Normal (Some ConnectionLost) ∨ fst o = Throw
     else fst o = Normal None ∧ storage (pg (snd o)) = storage (pg l)).
Proof.
  intros o. subst o. rewrite poll_body_flag_true. unfold try_catch.
  rewrite try_block_failed.
  destruct (catch_block_spec SM isMobile (asked isMobile jobId l))
    as (Hi & He & Hl & _ & _ & Hout).
  simpl in Hi, He, Hl, Hout.
  destruct (catch_block SM isMobile (asked isMobile jobId l))
    as [[[t|]|] l']; simpl in *;
    destruct (maxErrs isMobile <=? S (errs l))%nat;
    repeat split; auto; try (destruct Hout; auto; discriminate);
    try (destruct Hout; discriminate); apply Hout.
Qed.




End Run.

(** ** What the contract adds *)

(** Decompose a goal [keeps P m] along the structure of [m]; what is
    left are the calls into the storage manager. *)
Ltac keeps_auto :=
  repeat first
    [ apply keeps_mret
    | apply keeps_throw
    | apply keeps_gets
    | apply keeps_emit
    | apply keeps_try
    | apply keeps_bind; [|intros ?]
    | case_match ].

Section RunContract.
Variable SM : StorageManager.
Variable absent : string -> store -> Prop.
Hypothesis C : contract SM absent.
Variables isMobile hist : bool.
Variables jobId fmt : option string.

#[local] Abbreviation body := (poll_body SM isMobile hist jobId fmt).
#[local] Abbreviation run := (poll_loop SM isMobile hist jobId fmt).
#[local] Abbreviation url := (progress_url jobId).

Let no_job (p : page) : Prop := absent "activeJob" (storage p).

Lemma connLost_total : never_throws (_connLost SM).
Proof.
  unfold _connLost. apply total_bind.
  - apply total_on_store, (c_clearActive_total _ _ C).
  - intros _. apply total_bind; [apply total_emit|].
    intros _. apply total_emit.
Qed.

Lemma err_total data : never_throws (_err SM data).
Proof.
  unfold _err. apply total_bind.
  - apply total_on_store, (c_clearActive_total _ _ C).
  - intros _. apply total_bind; [apply total_emit|].
    intros _. apply total_emit.
Qed.

Lemma connLost_makes_no_job : makes no_job (_connLost SM).
Proof.
  unfold _connLost. apply makes_bind.
  - apply (makes_on_store (absent "activeJob")), (c_clearActive_makes _ _ C).
  - intros _. apply keeps_bind; [|intros _]; apply keeps_emit.
Qed.

Lemma err_makes_no_job data : makes no_job (_err SM data).
Proof.
  unfold _err. apply makes_bind.
  - apply (makes_on_store (absent "activeJob")), (c_clearActive_makes _ _ C).
  - intros _. apply keeps_bind; [|intros _]; apply keeps_emit.
Qed.

Lemma complete_makes_no_job data c :
  makes no_job (_complete SM hist data fmt c).
Proof.
  unfold _complete. apply makes_bind.
  - apply (makes_on_store (absent "activeJob")), (c_clearActive_makes _ _ C).
  - intros _. keeps_auto; unfold no_job.
    all: try apply (keeps_emit (absent "activeJob")).
    all: apply (keeps_on_store (absent "activeJob")).
    + apply makes_keeps, (c_saveCompleted_makes _ _ C).
    + apply (c_saveToHistory_keeps _ _ C). now left.
    + apply (c_getAutoDownload_keeps _ _ C). now left.
    + apply (c_getHistory_keeps _ _ C). now left.
Qed.

(** The turn on which the counter reaches the maximum ends the loop. *)
Lemma failed_turn_outcome c l :
  let o := body (FlagTrue c Failed) l in
  ((maxErrs isMobile <= S (errs l))%nat ->
     fst o = Normal (Some ConnectionLost) ∧ no_job (pg (snd o)))
  ∧ ((S (errs l) < maxErrs isMobile)%nat -> fst o = Normal None).
Proof.
  intros o. subst o. rewrite poll_body_flag_true. unfold try_catch.
  rewrite try_block_failed, catch_block_eq. simpl errs. simpl lastSt.
  split; intros H.
  - apply Nat.leb_le in H. rewrite H. rewrite on_page_then.
    pose proof (connLost_makes_no_job
                  (pg (backed_off (asked isMobile jobId l)))) as Hn.
    destruct (connLost_total (pg (backed_off (asked isMobile jobId l))))
      as [[] Ht].
    destruct (_connLost SM _) as [[[]|] p']; simpl in *;
      [split; [reflexivity|exact Hn]|discriminate].
  - apply Nat.leb_gt in H. rewrite H. rewrite on_page_then.
    destruct (retryMsg_total (S (errs l)) (lastSt l)
                (pg (backed_off (asked isMobile jobId l)))) as [[] Ht].
    destruct (_retryMsg _ _ _) as [[[]|] p']; simpl in *;
      [reflexivity|discriminate].
Qed.

(** As many failures in a row as are left on the counter: the loop
    returns through [_connLost] on the last of them and looks at no
    further tick. *)
Lemma failure_run_lost fails : forall l more,
  Forall is_failure fails -> fails <> [] ->
  (errs l + length fails = maxErrs isMobile)%nat ->
  run (fails ++ more) l = run fails l
  ∧ fst (run fails l) = Normal (Some ConnectionLost)
  ∧ no_job (pg (snd (run fails l)))
  ∧ fetches (events (pg (snd (run fails l))))
    = fetches (events (pg l)) ++ repeat url (length fails).
Proof.
  induction fails as [|t rest IH]; intros l more Hf Hne Hlen;
    [contradiction|].
  inversion Hf as [|? ? Ht Hrest]; subst.
  destruct t as [|c [|d]]; try contradiction.
  rewrite <- app_comm_cons, !poll_loop_cons.
  destruct (failed_turn_outcome c l) as [Hlost Hgo].
  destruct (flag_true_turn SM isMobile hist jobId fmt c Failed l)
    as (HF & _).
  destruct (failed_turn SM isMobile hist jobId fmt c l) as (_ & He & _).
  simpl in Hlen.
  destruct rest as [|t' rest'].
  - destruct Hlost as [Hl Hn]; [simpl in Hlen; lia|].
    destruct (body (FlagTrue c Failed) l) as [[[x|]|] l'];
      simpl in *; try discriminate.
    inversion Hl; subst. auto.
  - specialize (Hgo ltac:(simpl in Hlen; lia)).
    destruct (body (FlagTrue c Failed) l) as [[[x|]|] l'];
      simpl in Hgo, HF, He; try discriminate.
    destruct (IH l' more Hrest ltac:(discriminate)
                ltac:(rewrite He; simpl in *; lia))
      as (E & Hr & Hn & HF').
    repeat split; auto.
    rewrite HF', HF, <- app_assoc. reflexivity.
Qed.
End RunContract.

(** ** The claims about the polling loop *)

Lemma shipped_contract SM :
  shipped SM -> exists absent, contract SM absent.
Proof.
  intros [->| ->]; eexists; [apply direct_contract|apply mirrored_contract].
Qed.

Lemma pollJobStatus_eq SM mob hist jobId fmt ticks p :
  pollJobStatus SM mob hist jobId fmt ticks p
  = (fst (reached SM mob hist jobId fmt ticks p),
     pg (snd (reached SM mob hist jobId fmt ticks p))).
Proof.
  unfold pollJobStatus, reached.
  now destruct (poll_loop _ _ _ _ _ _ _) as [r l].
Qed.

Lemma reached_app SM mob hist jobId fmt a b p :
  reached SM mob hist jobId fmt (a ++ b) p
  = match reached SM mob hist jobId fmt a p with
    | (Normal None, l') => poll_loop SM mob hist jobId fmt b l'
    | o => o
    end.
Proof. unfold reached. apply poll_loop_app. Qed.


Lemma reached_interval_ok SM mob hist jobId fmt ticks p :
  interval_ok mob (snd (reached SM mob hist jobId fmt ticks p)).
Proof.
  unfold reached.
  assert (G : forall l, interval_ok mob l ->
            interval_ok mob (snd (poll_loop SM mob hist jobId fmt ticks l))).
  { induction ticks as [|t rest IH]; intros l Hl; [exact Hl|].
    rewrite poll_loop_cons.
    assert (H : interval_ok mob (snd (poll_body SM mob hist jobId fmt t l))).
    { destruct t as [|c r]; [exact Hl|].
      now apply (flag_true_turn SM mob hist jobId fmt c r l). }
    destruct (poll_body SM mob hist jobId fmt t l) as [[[x|]|] l'];
      simpl in *; auto. }
  apply G. now apply interval_ok_reset.
Qed.



(** C4, as amended: with the profile's maximum error count M (5, or 3 on
    mobile), [pollJobStatus] enters the terminal ConnectionLost state on
    the failure that brings the consecutive-error counter up to M (the
    test is [errs >= maxErrs]), and makes no further request: M failures
    in a row from the start end the poll after exactly M requests,
    whatever would have come next.  In particular six timeouts in a row on
    the standard profile give ConnectionLost after the fifth failure and
    no sixth request. *)
Theorem connection_lost_when_errors_reach_maximum
    (SM : StorageManager) (mob hist : bool) (jobId fmt : option string) :
  shipped SM ->
  (maxErrs false = 5%nat ∧ maxErrs true = 3%nat)
  ∧ (forall c l,
      let o := poll_body SM mob hist jobId fmt (FlagTrue c Failed) l in
      errs (snd o) = S (errs l)
      ∧ ((maxErrs mob <= S (errs l))%nat ->
         fst o = Normal (Some ConnectionLost))
      ∧ ((S (errs l) < maxErrs mob)%nat -> fst o = Normal None))
  ∧ (forall fails more p,
      Forall is_failure fails -> length fails = maxErrs mob ->
      let o := pollJobStatus SM mob hist jobId fmt (fails ++ more) p in
      fst o = Normal (Some ConnectionLost)
      ∧ fetches (events (snd o))
        = fetches (events p) ++ repeat (progress_url jobId) (maxErrs mob)
      ∧ o = pollJobStatus SM mob hist jobId fmt fails p).
Proof.
  intros HSM. destruct (shipped_contract SM HSM) as [absent C].
  split; [now split|]. split.
  - intros c l o. subst o.
    destruct (failed_turn SM mob hist jobId fmt c l) as (_ & He & _).
    destruct (failed_turn_outcome SM absent C mob hist jobId fmt c l)
      as [Hlost Hgo].
    split; [exact He|]. split; [|exact Hgo].
    intros H. now apply Hlost.
  - intros fails more p Hf Hlen o. subst o.
    destruct (failure_run_lost SM absent C mob hist jobId fmt fails
                (mkLoop p (baseInt mob) 0 None) more Hf)
      as (E & Hr & _ & HF).
    + intros ->. destruct mob; discriminate.
    + exact Hlen.
    + rewrite !pollJobStatus_eq. unfold reached. rewrite E. simpl.
      rewrite Hr, HF, Hlen. auto.
Qed.

(** Scenario B of the specification. *)
Lemma connection_lost_when_errors_reach_maximum_witness :
  let o := pollJobStatus direct_manager false true (Some "j1") (Some "avif")
             (repeat timeout_tick 5 ++ [timeout_tick]) (blank empty_store) in
  fst o = Normal (Some ConnectionLost)
  ∧ fetches (events (snd o))
    = fetches (events (blank empty_store))
      ++ repeat (progress_url (Some "j1")) (maxErrs false)
  ∧ o = pollJobStatus direct_manager false true (Some "j1") (Some "avif")
          (repeat timeout_tick 5) (blank empty_store).
Proof.
  destruct (connection_lost_when_errors_reach_maximum direct_manager false
              true (Some "j1") (Some "avif") (or_introl eq_refl))
    as (_ & _ & H).
  apply (H (repeat timeout_tick 5) [timeout_tick] (blank empty_store)).
  - repeat constructor.
  - reflexivity.
Defined.

(** C4 as stated fails: the poll is in ConnectionLost while the counter
    equals the maximum, it has not exceeded it. *)
Lemma connection_lost_without_exceeding_maximum :
  let o := reached direct_manager false true (Some "j1") (Some "avif")
             (repeat timeout_tick 5) (blank empty_store) in
  fst o = Normal (Some ConnectionLost)
  ∧ errs (snd o) = 5%nat
  ∧ ~ (maxErrs false < errs (snd o))%nat.
Proof.
  assert (E : reached direct_manager false true (Some "j1") (Some "avif")
                (repeat timeout_tick 5) (blank empty_store)
              = (Normal (Some ConnectionLost),
                 snd (reached direct_manager false true (Some "j1")
                        (Some "avif") (repeat timeout_tick 5)
                        (blank empty_store))))
    by (vm_compute; reflexivity).
  assert (E5 : errs (snd (reached direct_manager false true (Some "j1")
                            (Some "avif") (repeat timeout_tick 5)
                            (blank empty_store))) = 5%nat)
    by (vm_compute; reflexivity).
  cbv zeta. rewrite E5. split; [now rewrite E|]. split; [reflexivity|].
  unfold maxErrs. lia.
Qed.

Lemma turns_of_reported_hidden ms :
  Forall reported_hidden ms -> turns_of ms = repeat FlagFalse (length ms).
Proof.
  induction 1 as [|m ms Hm _ IH]; [reflexivity|].
  unfold turns_of in *. simpl. rewrite IH.
  unfold turn_of, pageVisible_of. unfold reported_hidden in Hm.
  now rewrite Hm.
Qed.

(** C6, as amended: [pollJobStatus] looks at the flag [ui.pageVisible],
    which each [visibilitychange] event sets to [!document.hidden].  From
    an event that reports the document hidden until one that reports it
    visible, a poll makes no request: each turn only waits the current
    interval and changes nothing else.  The loop looks at the flag again
    at the end of each wait, and a turn taken after an event has reported
    the document visible starts with a status request.  The interval is
    not touched by the flag: it is the base value if no failure is
    pending (error counter zero), and the backed-off value otherwise,
    until a request is answered. *)
Theorem visibility_flag_pauses_polling
    (SM : StorageManager) (mob hist : bool) (jobId fmt : option string) :
  (forall ms l,
      Forall reported_hidden ms ->
      let o := poll_loop SM mob hist jobId fmt (turns_of ms) l in
      fst o = Normal None
      ∧ events (pg (snd o))
        = events (pg l) ++ repeat (Sleep (interval l)) (length ms)
      ∧ fetches (events (pg (snd o))) = fetches (events (pg l))
      ∧ storage (pg (snd o)) = storage (pg l)
      ∧ interval (snd o) = interval l
      ∧ errs (snd o) = errs l
      ∧ lastSt (snd o) = lastSt l)
  ∧ (forall v c r l,
      last_change v = Some false ->
      exists rest,
        events (pg (snd (poll_body SM mob hist jobId fmt (turn_of v c r) l)))
        = events (pg l)
          ++ Fetch (progress_url jobId) (fetch_timeout mob) :: rest)
  ∧ (forall ticks p,
      let l := snd (reached SM mob hist jobId fmt ticks p) in
      errs l = 0%nat -> interval l = baseInt mob).
Proof.
  assert (Hask : forall c r l,
    exists rest,
      events (pg (snd (poll_body SM mob hist jobId fmt (FlagTrue c r) l)))
      = events (pg l)
        ++ Fetch (progress_url jobId) (fetch_timeout mob) :: rest).
  { intros c r l.
    destruct (flag_true_turn SM mob hist jobId fmt c r l)
      as (_ & _ & [rest Hx] & _).
    exists rest. rewrite Hx. unfold asked. simpl.
    now rewrite <- app_assoc. }
  split; [|split].
  - intros ms l Hms o. subst o.
    rewrite (turns_of_reported_hidden ms Hms), flag_false_run. simpl.
    repeat split; auto.
    rewrite fetches_app.
    assert (E : fetches (repeat (Sleep (interval l)) (length ms)) = []).
    { induction (length ms); simpl; auto. }
    now rewrite E, app_nil_r.
  - intros v c r l Hv. unfold turn_of, pageVisible_of. rewrite Hv.
    apply Hask.
  - intros ticks p l. subst l.
    now destruct (reached_interval_ok SM mob hist jobId fmt ticks p)
      as (_ & _ & H).
Qed.

(** Scenario C of the specification: a poll answered once is told that
    the page was hidden and takes two turns before it is told otherwise:
    no further request, two waits of the base interval; the turn after
    that starts with a request. *)
Lemma visibility_flag_pauses_polling_witness :
  let l := snd (reached mirrored_manager false true (Some "j1") (Some "avif")
                  [FlagTrue clock0 (reply "running")] (blank empty_store)) in
  let ms := [mkMoment (mkView true (Some true)) clock0 (reply "running");
             mkMoment (mkView true (Some true)) clock0 Failed] in
  let o := poll_loop mirrored_manager false true (Some "j1") (Some "avif")
             (turns_of ms) l in
  (fst o = Normal None
   ∧ events (pg (snd o)) = events (pg l) ++ repeat (Sleep (interval l)) 2
   ∧ fetches (events (pg (snd o))) = fetches (events (pg l)))
  ∧ (exists rest,
       events (pg (snd (poll_body mirrored_manager false true (Some "j1")
                          (Some "avif")
                          (turn_of (mkView false (Some false)) clock0
                             (reply "running"))
                          (snd o))))
       = events (pg (snd o))
         ++ Fetch (progress_url (Some "j1")) (fetch_timeout false) :: rest)
  ∧ interval l = baseInt false.
Proof.
  intros l ms o.
  destruct (visibility_flag_pauses_polling mirrored_manager false true
              (Some "j1") (Some "avif")) as (Hrun & Hask & Hint).
  split; [|split].
  - destruct (Hrun ms l) as (H1 & H2 & H3 & _).
    + repeat constructor.
    + auto.
  - apply Hask. reflexivity.
  - apply (Hint [FlagTrue clock0 (reply "running")] (blank empty_store)).
    vm_compute. reflexivity.
Defined.

(** C6 as stated fails: after a failed request the interval is 2250 ms;
    the page is reported hidden for two turns and then shown again: the
    waits made meanwhile and the interval at which polling resumes are
    2250 ms, not the base 1500. *)
Lemma backed_off_interval_survives_hiding :
  let o := reached mirrored_manager false true (Some "j1") (Some "avif")
             [timeout_tick; FlagFalse; FlagFalse] (blank empty_store) in
  fst o = Normal None
  ∧ sleeps (events (pg (snd o))) = [2250%Q; 2250%Q; 2250%Q]
  ∧ interval (snd o) = 2250%Q
  ∧ ~ (interval (snd o) == baseInt false)%Q.
Proof.
  assert (E : reached mirrored_manager false true (Some "j1") (Some "avif")
                [timeout_tick; FlagFalse; FlagFalse] (blank empty_store)
              = (Normal None,
                 snd (reached mirrored_manager false true (Some "j1")
                        (Some "avif") [timeout_tick; FlagFalse; FlagFalse]
                        (blank empty_store))))
    by (vm_compute; reflexivity).
  assert (Ei : interval (snd (reached mirrored_manager false true
                 (Some "j1") (Some "avif") [timeout_tick; FlagFalse; FlagFalse]
                 (blank empty_store))) = 2250%Q)
    by (vm_compute; reflexivity).
  assert (Es : sleeps (events (pg (snd (reached mirrored_manager false true
                 (Some "j1") (Some "avif") [timeout_tick; FlagFalse; FlagFalse]
                 (blank empty_store))))) = [2250%Q; 2250%Q; 2250%Q])
    by (vm_compute; reflexivity).
  cbv zeta. rewrite Ei, Es. split; [now rewrite E|].
  split; [reflexivity|]. split; [reflexivity|].
  unfold baseInt. intros H. vm_compute in H. discriminate.
Qed.

(** ** Terminal replies *)

Section Terminal.
Variable SM : StorageManager.
Variables isMobile hist : bool.
Variables jobId fmt : option string.

#[local] Abbreviation body := (poll_body SM isMobile hist jobId fmt).

(** A reply with [error] or [cancelled] ends the loop if [_err] returns;
    one with [done] ends it if [_complete] returns. *)
Lemma terminal_turn c data l :
  is_terminal (status data) = true ->
  (if String.eqb (status data) "done"
   then fst (_complete SM hist data fmt c
               (pg (replied isMobile jobId data l))) = Normal tt
   else fst (_err SM data (pg (replied isMobile jobId data l)))
        = Normal tt) ->
  fst (body (FlagTrue c (Replied data)) l)
  = Normal (Some (if String.eqb (status data) "done"
                  then JobDone else JobFailed)).
Proof.
  intros Ht Hh. rewrite poll_body_flag_true. unfold try_catch.
  rewrite try_block_replied. unfold is_terminal in Ht.
  destruct (String.eqb (status data) "done") eqn:Hd.
  - rewrite on_page_then.
    destruct (_complete SM hist data fmt c _) as [[[]|] p'];
      simpl in *; [reflexivity|discriminate].
  - simpl in Ht. rewrite Ht, on_page_then.
    destruct (_err SM data _) as [[[]|] p'];
      simpl in *; [reflexivity|discriminate].
Qed.
End Terminal.

Lemma direct_getAutoDownload_total : never_throws Direct.getAutoDownload.
Proof.
  intros [C [ls|]]; unfold Direct.getAutoDownload; run_store; eauto.
Qed.

(** With the mirrored listing and no usable [localStorage], [_complete]
    throws out of [getAutoDownload], and [localStorage] stays unusable. *)
Lemma mirrored_complete_throws hist data f c p :
  localStorage (storage p) = None ->
  let o := _complete mirrored_manager hist data (Some f) c p in
  fst o = Throw ∧ localStorage (storage (snd o)) = None.
Proof.
  destruct p as [[C ls] ev]. simpl. intros ->.
  unfold _complete.
  assert (E : exists f0, or_else (d_format data) (Some f) = Some f0).
  { unfold or_else. destruct (d_format data) as [[|a s]|]; eauto. }
  destruct E as [f0 ->].
  unfold on_store, emit. simpl. unfold_mirrored. unfold Mirrored.push_entry.
  unfold_prims. unfold_m. simpl.
  repeat (case_match; simpl in *; simplify_eq); auto.
Qed.

Lemma done_turn_without_localStorage mob hist jobId f c data l :
  localStorage (storage (pg l)) = None ->
  status data = "done" ->
  let o := poll_body mirrored_manager mob hist jobId (Some f)
             (FlagTrue c (Replied data)) l in
  fst o = Normal None ∧ localStorage (storage (pg (snd o))) = None.
Proof.
  intros Hls Hd o. subst o. rewrite poll_body_flag_true. unfold try_catch.
  rewrite try_block_replied, Hd. simpl String.eqb. cbv iota.
  rewrite on_page_then.
  destruct (mirrored_complete_throws hist data f c
              (pg (replied mob jobId data l)) Hls) as [Ht Hn].
  destruct (_complete mirrored_manager hist data (Some f) c _)
    as [[[]|] p']; simpl in Ht, Hn; [discriminate|].
  rewrite catch_block_eq. simpl errs.
  assert (Hm : (maxErrs mob <=? 1)%nat = false) by (now destruct mob).
  rewrite Hm, on_page_then. simpl pg. simpl lastSt.
  pose proof (retryMsg_storage 1 (Some (status data)) p') as Hs.
  destruct (retryMsg_total 1 (Some (status data)) p') as [[] Hr].
  destruct (_retryMsg 1 (Some (status data)) p') as [[[]|] p2];
    simpl in *; [|discriminate].
  split; [reflexivity|]. now rewrite Hs.
Qed.

(** With the mirrored listing and no usable [localStorage], a poll that
    is only ever answered [done] never returns: one request per tick. *)
Lemma done_never_ends_without_localStorage mob hist jobId f ticks :
  forall l,
    localStorage (storage (pg l)) = None ->
    Forall (answers "done") ticks ->
    let o := poll_loop mirrored_manager mob hist jobId (Some f) ticks l in
    fst o = Normal None
    ∧ fetches (events (pg (snd o)))
      = fetches (events (pg l)) ++ repeat (progress_url jobId) (length ticks).
Proof.
  induction ticks as [|t rest IH]; intros l Hls Hf.
  - simpl. now rewrite app_nil_r.
  - inversion Hf as [|? ? Ht Hrest]; subst.
    destruct t as [|c [|data]]; try contradiction. simpl in Ht.
    cbv zeta. rewrite poll_loop_cons.
    destruct (done_turn_without_localStorage mob hist jobId f c data l
                Hls Ht) as [Ho Hn].
    destruct (flag_true_turn mirrored_manager mob hist jobId (Some f) c
                (Replied data) l) as (HF & _).
    destruct (poll_body mirrored_manager mob hist jobId (Some f)
                (FlagTrue c (Replied data)) l) as [[[x|]|] l'];
      simpl in Ho, Hn, HF; try discriminate.
    destruct (IH l' Hn Hrest) as [Hr HF'].
    split; [exact Hr|]. rewrite HF', HF, <- app_assoc. reflexivity.
Qed.

(** C5 at its failing input: mirrored listing, [localStorage] unusable,
    the server answers [done] three times.  [_complete] throws out of the
    unguarded [getAutoDownload] inside the [try] of the loop, the [catch]
    counts it as a failed request, and the poll goes on: three requests,
    no return.  With the first listing, whose [getAutoDownload] has its
    own [try], the same input ends the poll at the first answer. *)
Theorem done_reply_keeps_polling_without_localStorage :
  let ticks := [FlagTrue clock0 (reply "done"); FlagTrue clock0 (reply "done");
                FlagTrue clock0 (reply "done")] in
  let o := pollJobStatus mirrored_manager false true (Some "j1")
             (Some "avif") ticks (blank no_storage) in
  let o' := pollJobStatus direct_manager false true (Some "j1")
              (Some "avif") ticks (blank no_storage) in
  fst o = Normal None
  ∧ fetches (events (snd o))
    = ["/progress/j1"; "/progress/j1"; "/progress/j1"]
  ∧ sleeps (events (snd o)) = [2250%Q; 2250%Q; 2250%Q]
  ∧ fst o' = Normal (Some JobDone)
  ∧ fetches (events (snd o')) = ["/progress/j1"].
Proof.
  cbv zeta. repeat split; vm_compute; reflexivity.
Qed.

(** A reply with a terminal status ends the poll, and nothing after it is
    looked at, provided the handler it is given to returns. *)
Lemma terminal_reply_ends_poll SM mob hist jobId fmt before c data more p :
  fst (reached SM mob hist jobId fmt before p) = Normal None ->
  is_terminal (status data) = true ->
  (let l := snd (reached SM mob hist jobId fmt before p) in
   if String.eqb (status data) "done"
   then fst (_complete SM hist data fmt c (pg (replied mob jobId data l)))
        = Normal tt
   else fst (_err SM data (pg (replied mob jobId data l))) = Normal tt) ->
  let o := pollJobStatus SM mob hist jobId fmt
             (before ++ FlagTrue c (Replied data) :: more) p in
  fst o = Normal (Some (if String.eqb (status data) "done"
                        then JobDone else JobFailed))
  ∧ o = pollJobStatus SM mob hist jobId fmt
          (before ++ [FlagTrue c (Replied data)]) p
  ∧ fetches (events (snd o))
    = fetches (events (pg (snd (reached SM mob hist jobId fmt before p))))
      ++ [progress_url jobId].
Proof.
  intros Hb Ht Hh o. subst o. rewrite !pollJobStatus_eq, !reached_app.
  destruct (reached SM mob hist jobId fmt before p) as [[[x|]|] l];
    simpl in Hb; try discriminate.
  cbv zeta in Hh. simpl snd in Hh.
  rewrite !poll_loop_cons.
  pose proof (terminal_turn SM mob hist jobId fmt c data l Ht Hh) as Hr.
  destruct (flag_true_turn SM mob hist jobId fmt c (Replied data) l)
    as (HF & _).
  destruct (poll_body SM mob hist jobId fmt (FlagTrue c (Replied data)) l)
    as [[[x|]|] l']; simpl in Hr, HF; try discriminate.
  inversion Hr; subst. simpl. auto.
Qed.

(** ** ConnectionLost and the start-up coordinator *)

Section Resume.
Variable SM : StorageManager.
Variable absent : string -> store -> Prop.
Hypothesis C : contract SM absent.
Variables isMobile hist : bool.

Let no_job (p : page) : Prop := absent "activeJob" (storage p).

Lemma catch_block_lost l :
  fst (catch_block SM isMobile l) = Normal (Some ConnectionLost) ->
  no_job (pg (snd (catch_block SM isMobile l))).
Proof.
  rewrite catch_block_eq.
  destruct (maxErrs isMobile <=? S (errs l))%nat; rewrite on_page_then.
  - pose proof (connLost_makes_no_job SM absent C (pg (backed_off l))) as H.
    destruct (_connLost SM _) as [[[]|] p']; simpl in *; auto.
  - destruct (_retryMsg _ _ _) as [[[]|] p']; simpl; discriminate.
Qed.

Lemma turn_lost jobId fmt t l :
  fst (poll_body SM isMobile hist jobId fmt t l)
  = Normal (Some ConnectionLost) ->
  no_job (pg (snd (poll_body SM isMobile hist jobId fmt t l))).
Proof.
  destruct t as [|c r]; [discriminate|].
  rewrite poll_body_flag_true. unfold try_catch.
  assert (Hc : forall l1,
    fst (match catch_block SM isMobile l1 with
         | (Normal (Some t), l') => (Normal (Some t), l')
         | (Normal None, l') => (Normal None, waited l')
         | (Throw, l') => (Throw, l')
         end) = Normal (Some ConnectionLost) ->
    no_job (pg (snd (match catch_block SM isMobile l1 with
                     | (Normal (Some t), l') => (Normal (Some t), l')
                     | (Normal None, l') => (Normal None, waited l')
                     | (Throw, l') => (Throw, l')
                     end)))).
  { intros l1. pose proof (catch_block_lost l1) as H.
    destruct (catch_block SM isMobile l1) as [[[x|]|] l'];
      simpl in *; try discriminate. exact H. }
  destruct r as [|data].
  - rewrite try_block_failed. apply Hc.
  - destruct (try_block_replied_spec SM isMobile hist jobId fmt c data l)
      as (_ & _ & _ & _ & _ & Hne & _).
    destruct (try_block SM isMobile hist jobId fmt c (Replied data) l)
      as [[[x|]|] l1]; simpl in *.
    + intros H. contradiction.
    + discriminate.
    + apply Hc.
Qed.

Lemma run_lost jobId fmt ticks : forall l,
  fst (poll_loop SM isMobile hist jobId fmt ticks l)
  = Normal (Some ConnectionLost) ->
  no_job (pg (snd (poll_loop SM isMobile hist jobId fmt ticks l))).
Proof.
  induction ticks as [|t rest IH]; intros l; [discriminate|].
  rewrite poll_loop_cons. pose proof (turn_lost jobId fmt t l) as H.
  destruct (poll_body SM isMobile hist jobId fmt t l) as [[[x|]|] l'];
    simpl in *; auto.
Qed.

Lemma displayCompletedResult_quiet res : quiet (displayCompletedResult res).
Proof. unfold displayCompletedResult. quiet_auto. Qed.

(** A page load that finds no active job makes no request. *)
Lemma load_without_job c r ticks p :
  no_job p ->
  let o := (reload ;; checkAndResumeJob SM isMobile hist c r ticks) p in
  fetches (events (snd o)) = fetches (events p)
  ∧ (fst o = Normal Rendered ∨ fst o = Normal Nothing
     ∨ (fst o = Throw
        ∧ exists res,
            fst (sm_getCompletedResult SM (now c)
                   (mkStore ∅ (localStorage (storage p)))) = Normal res
            ∧ present res = true
            ∧ getFormatLabel (default "undefined" (res ≫= format_of))
              = None)).
Proof.
  intros Hn o. subst o. unfold reload, checkAndResumeJob, on_store.
  unfold_m. simpl.
  pose proof (c_reload_keeps _ _ C _ _ Hn) as Hn1.
  destruct (c_getCompleted_total _ _ C (now c)
              (mkStore ∅ (localStorage (storage p)))) as [saved Hs].
  pose proof (c_getCompleted_keeps _ _ C "activeJob" (now c)
                ltac:(now left) _ Hn1) as Hn2.
  destruct (sm_getCompletedResult SM (now c) _) as [[sv|] s1];
    simpl in *; [|discriminate].
  destruct (present sv) eqn:Hp.
  - pose proof (displayCompletedResult_quiet sv _ _
                  (mkPage s1 (events p)) (conj eq_refl eq_refl)) as [HF _].
    assert (Hthrow :
      fst (displayCompletedResult sv (mkPage s1 (events p))) = Throw ->
      getFormatLabel (default "undefined" (sv ≫= format_of)) = None).
    { unfold displayCompletedResult.
      destruct (getFormatLabel (default "undefined" (sv ≫= format_of)));
        [|reflexivity].
      unfold emit. unfold_m. simpl. discriminate. }
    destruct (displayCompletedResult sv (mkPage s1 (events p)))
      as [[[]|] p1]; simpl in *; [auto|].
    split; [exact HF|]. right. right. split; [reflexivity|].
    exists sv. auto.
  - pose proof (c_getActive_absent _ _ C (now c) _ Hn2) as Ha. simpl.
    destruct (sm_getActiveJob SM (now c) s1) as [[j|] s2];
      simpl in *; [|discriminate].
    inversion Ha; subst. simpl. auto.
Qed.
End Resume.

(** C10: when [pollJobStatus] returns through ConnectionLost the active
    job is gone from the store: [getActiveJob] returns nothing, and a
    later page load makes no status request for it: [checkAndResumeJob]
    renders a stored result or does nothing, and never resumes or asks;
    it throws, out of [displayCompletedResult], only when a result is
    stored whose format has no label. *)
Theorem connection_lost_clears_active_job
    (SM : StorageManager) (mob hist : bool) (jobId fmt : option string)
    (ticks : list tick) (p : page) :
  shipped SM ->
  fst (pollJobStatus SM mob hist jobId fmt ticks p)
  = Normal (Some ConnectionLost) ->
  let p' := snd (pollJobStatus SM mob hist jobId fmt ticks p) in
  (forall t, fst (sm_getActiveJob SM t (storage p')) = Normal None)
  ∧ (forall mob' hist' c r ticks',
       let o := (reload ;; checkAndResumeJob SM mob' hist' c r ticks') p' in
       fetches (events (snd o)) = fetches (events p')
       ∧ (fst o = Normal Rendered ∨ fst o = Normal Nothing
          ∨ (fst o = Throw
             ∧ exists res,
                 fst (sm_getCompletedResult SM (now c)
                        (mkStore ∅ (localStorage (storage p')))) = Normal res
                 ∧ present res = true
                 ∧ getFormatLabel (default "undefined" (res ≫= format_of))
                   = None))).
Proof.
  intros HSM Hlost p'. subst p'.
  destruct (shipped_contract SM HSM) as [absent C].
  rewrite pollJobStatus_eq in *. simpl in *. unfold reached in *.
  pose proof (run_lost SM absent C mob hist jobId fmt ticks _ Hlost) as Hn.
  split.
  - intros t. now apply (c_getActive_absent _ _ C).
  - intros mob' hist' c r ticks'.
    now apply (load_without_job SM absent C).
Qed.

Lemma connection_lost_clears_active_job_witness :
  let p := snd (Mirrored.saveActiveJob "j1" "avif" 0 empty_store) in
  let p' := snd (pollJobStatus mirrored_manager false true (Some "j1")
                   (Some "avif") (repeat timeout_tick 5) (blank p)) in
  (forall t, fst (sm_getActiveJob mirrored_manager t (storage p'))
             = Normal None)
  ∧ (forall mob' hist' c r ticks',
       let o := (reload ;;
                 checkAndResumeJob mirrored_manager mob' hist' c r ticks')
                  p' in
       fetches (events (snd o)) = fetches (events p')
       ∧ (fst o = Normal Rendered ∨ fst o = Normal Nothing
          ∨ (fst o = Throw
             ∧ exists res,
                 fst (sm_getCompletedResult mirrored_manager (now c)
                        (mkStore ∅ (localStorage (storage p')))) = Normal res
                 ∧ present res = true
                 ∧ getFormatLabel (default "undefined" (res ≫= format_of))
                   = None))).
Proof.
  intros p.
  apply (connection_lost_clears_active_job mirrored_manager false true
           (Some "j1") (Some "avif") (repeat timeout_tick 5) (blank p)).
  - right. reflexivity.
  - vm_compute. reflexivity.
Defined.


(** ** A completed result and an active job exclude each other *)

Lemma keeps_set_interval (P : page -> Prop) q :
  keeps (fun l => P (pg l)) (set_interval q).
Proof. intros l H. exact H. Qed.

Lemma keeps_set_errs (P : page -> Prop) n :
  keeps (fun l => P (pg l)) (set_errs n).
Proof. intros l H. exact H. Qed.

Lemma keeps_set_lastSt (P : page -> Prop) st :
  keeps (fun l => P (pg l)) (set_lastSt st).
Proof. intros l H. exact H. Qed.

Section Exclusive.
Variable SM : StorageManager.
Variable absent : string -> store -> Prop.
Hypothesis C : contract SM absent.
Variables isMobile hist : bool.

Let excl (p : page) : Prop := exclusive absent (storage p).


Lemma no_job_exclusive {A} (m : M page A) :
  makes (fun p => absent "activeJob" (storage p)) m -> keeps excl m.
Proof. intros H p _. right. apply H. Qed.

Lemma emit_keeps_excl e : keeps excl (emit e).
Proof. apply (keeps_emit (exclusive absent)). Qed.

Lemma retryMsg_keeps_excl cnt st : keeps excl (_retryMsg cnt st).
Proof. unfold _retryMsg. repeat case_match; try apply emit_keeps_excl;
  apply keeps_mret. Qed.

Lemma complete_keeps_excl data fmt c :
  keeps excl (_complete SM hist data fmt c).
Proof. apply no_job_exclusive, (complete_makes_no_job SM absent C). Qed.

Lemma err_keeps_excl data : keeps excl (_err SM data).
Proof. apply no_job_exclusive, (err_makes_no_job SM absent C). Qed.

Lemma connLost_keeps_excl : keeps excl (_connLost SM).
Proof. apply no_job_exclusive, (connLost_makes_no_job SM absent C). Qed.

Lemma turn_keeps_excl jobId fmt t :
  keeps (fun l => excl (pg l)) (poll_body SM isMobile hist jobId fmt t).
Proof.
  unfold poll_body, try_block, catch_block, fetch_status.
  repeat first
    [ apply keeps_mret
    | apply keeps_throw
    | apply keeps_gets
    | apply keeps_set_interval
    | apply keeps_set_errs
    | apply keeps_set_lastSt
    | apply keeps_try
    | apply keeps_on_page;
      first [ apply complete_keeps_excl
            | apply err_keeps_excl
            | apply connLost_keeps_excl
            | apply retryMsg_keeps_excl
            | apply emit_keeps_excl ]
    | apply keeps_bind; [|intros ?]
    | case_match ].
Qed.

Lemma poll_keeps_excl jobId fmt ticks :
  keeps excl (pollJobStatus SM isMobile hist jobId fmt ticks).
Proof.
  assert (G : keeps (fun l => excl (pg l))
                (poll_loop SM isMobile hist jobId fmt ticks)).
  { induction ticks as [|t rest IH]; [apply keeps_mret|].
    cbn [poll_loop]. apply keeps_bind; [apply turn_keeps_excl|].
    intros [x|]; [apply keeps_mret|exact IH]. }
  intros p Hp. unfold pollJobStatus.
  specialize (G (mkLoop p (baseInt isMobile) 0 None) Hp).
  now destruct (poll_loop _ _ _ _ _ _ _) as [r l].
Qed.

Lemma detached_keeps {A} (P : page -> Prop) (m : M page A) :
  keeps P m -> keeps P (detached m).
Proof.
  intros H. unfold detached. apply keeps_try; [|apply keeps_mret].
  apply keeps_bind; [exact H|]. intros _. apply keeps_mret.
Qed.





















End Exclusive.




(** * Further properties of the storage managers *)

(** ** Clearing *)

Lemma mirrored_clear_spec key s :
  let s' := snd (Mirrored._clear key s) in
  fst (Mirrored._clear key s) = Normal tt
  ∧ CACHE s' !! key = None
  ∧ durable key s' = None
  ∧ snd (Mirrored._clear key s') = s'.
Proof.
  destruct s as [C [[it q]|]]; unfold Mirrored._clear; unfold_prims; unfold_m;
    simpl; rewrite ?lookup_delete_eq, ?delete_delete_eq; auto.
Qed.

Lemma direct_clear_spec key s :
  let s' := snd (Direct.clearFromStorage key s) in
  fst (Direct.clearFromStorage key s) = Normal tt
  ∧ durable key s' = None
  ∧ snd (Direct.clearFromStorage key s') = s'.
Proof.
  destruct s as [C [[it q]|]]; unfold Direct.clearFromStorage; unfold_prims;
    unfold_m; simpl; rewrite ?lookup_delete_eq, ?delete_delete_eq; auto.
Qed.

(** Clearing a key never throws, leaves nothing under the key in the
    mirror and in the durable store, so that a read of the key returns
    nothing at any time, and clearing once more changes nothing. *)
Theorem clear_removes_and_is_idempotent :
  (forall key s,
     let s' := snd (Mirrored._clear key s) in
     fst (Mirrored._clear key s) = Normal tt
     ∧ CACHE s' !! key = None
     ∧ durable key s' = None
     ∧ snd (Mirrored._clear key s') = s'
     ∧ forall b t, fst (Mirrored._get key b t s') = Normal None)
  ∧ (forall key s,
     let s' := snd (Direct.clearFromStorage key s) in
     fst (Direct.clearFromStorage key s) = Normal tt
     ∧ durable key s' = None
     ∧ snd (Direct.clearFromStorage key s') = s'
     ∧ forall t,
         fst (Direct.getFromStorage key (Direct.clearFromStorage key) t s')
         = Normal None).
Proof.
  split.
  - intros key s s'. subst s'.
    destruct (mirrored_clear_spec key s) as (H1 & H2 & H3 & H4).
    repeat split; auto. intros b t.
    destruct (snd (Mirrored._clear key s)) as [C [ls|]];
      unfold durable in H3; simpl in H2, H3;
      unfold Mirrored._get, Mirrored._clear; unfold_prims; unfold_m; simpl;
      rewrite H2; simpl; rewrite ?H3; simpl; destruct b; reflexivity.
  - intros key s s'. subst s'.
    destruct (direct_clear_spec key s) as (H1 & H2 & H3).
    repeat split; auto. intros t.
    destruct (snd (Direct.clearFromStorage key s)) as [C [ls|]];
      unfold durable in H2; simpl in H2;
      unfold Direct.getFromStorage, Direct.clearFromStorage;
      unfold_prims; unfold_m; simpl; rewrite ?H2; reflexivity.
Qed.

(** ** Malformed entries *)

(** Stored data that cannot be read as an entry is treated as absent, not
    as an error: the typed getters return nothing, without throwing, and
    remove the entry from the mirror and the durable store.  The bare
    [_get(key)], whose [clearFromStorage] defaults to false, returns
    nothing as well but leaves the stored text where it is. *)
Theorem malformed_entry_is_absent_and_evicted :
  (forall key t s r,
     CACHE s !! key = None -> durable key s = Some r -> malformed r ->
     let o := Mirrored._get key true t s in
     let o' := Mirrored._get key false t s in
     fst o = Normal None
     ∧ CACHE (snd o) !! key = None
     ∧ durable key (snd o) = None
     ∧ fst o' = Normal None
     ∧ durable key (snd o') = Some r)
  ∧ (forall key t s r,
     durable key s = Some r -> malformed r ->
     let o := Direct.getFromStorage key (Direct.clearFromStorage key) t s in
     fst o = Normal None ∧ durable key (snd o) = None).
Proof.
  split.
  - intros key t [C [[it q]|]] r Hc Hd Hm; unfold durable in Hd;
      simpl in Hc, Hd; [|discriminate].
    unfold Mirrored._get, Mirrored._clear. unfold_prims. unfold_m. simpl.
    rewrite Hc. simpl. rewrite Hd.
    destruct Hm as [-> | ->]; simpl;
      rewrite ?lookup_delete_eq, ?lookup_insert_eq; auto.
  - intros key t [C [[it q]|]] r Hd Hm; unfold durable in Hd;
      simpl in Hd; [|discriminate].
    unfold Direct.getFromStorage, Direct.clearFromStorage.
    unfold_prims. unfold_m. simpl. rewrite Hd.
    destruct Hm as [-> | ->]; simpl; rewrite ?lookup_delete_eq; auto.
Qed.

Lemma malformed_entry_is_absent_and_evicted_witness :
  let o := Mirrored._get "activeJob" true 0 garbled_store in
  let o' := Mirrored._get "activeJob" false 0 garbled_store in
  fst o = Normal None
  ∧ CACHE (snd o) !! "activeJob" = None
  ∧ durable "activeJob" (snd o) = None
  ∧ fst o' = Normal None
  ∧ durable "activeJob" (snd o') = Some NotJson.
Proof.
  destruct malformed_entry_is_absent_and_evicted as (H & _).
  apply (H "activeJob" 0%Z garbled_store NotJson).
  - reflexivity.
  - reflexivity.
  - left. reflexivity.
Defined.

(** ** Reading back what was saved *)

(** The last save under a key wins: a read no later than the TTL after it
    returns its value, whatever was saved before.  With the mirror this
    holds in every state of [localStorage]; without it, when the write
    goes through. *)
Theorem save_then_get_returns_last_value :
  (forall key v1 v2 t1 t2 t b s,
     (t - t2 <= TTL)%Z ->
     fst (Mirrored._get key b t
            (snd (Mirrored._save key v2 t2
                    (snd (Mirrored._save key v1 t1 s)))))
     = Normal (Some (JObj v2 (Some t2))))
  ∧ (forall key v1 v2 t1 t2 t s,
     write_fails s = false -> (t - t2 <= TTL)%Z ->
     fst (Direct.getFromStorage key (Direct.clearFromStorage key) t
            (snd (Direct.saveToStorage key v2 t2
                    (snd (Direct.saveToStorage key v1 t1 s)))))
     = Normal (Some (JObj v2 (Some t2)))).
Proof.
  split.
  - intros key v1 v2 t1 t2 t b s Ht. now apply mirrored_get_after_save.
  - intros key v1 v2 t1 t2 t [C [[it q]|]] Hw Ht; unfold write_fails in Hw;
      simpl in Hw; [subst q|discriminate].
    unfold Direct.getFromStorage, Direct.saveToStorage, expired.
    unfold_prims. unfold_m. simpl. rewrite lookup_insert_eq. simpl.
    destruct (t - t2 >? TTL)%Z eqn:E; [lia|reflexivity].
Qed.

Lemma save_then_get_returns_last_value_witness :
  fst (Direct.getFromStorage "activeJob" (Direct.clearFromStorage "activeJob")
         5
         (snd (Direct.saveToStorage "activeJob" (JobRef "j2" "webp") 1
                 (snd (Direct.saveToStorage "activeJob" (JobRef "j1" "avif")
                         0 empty_store)))))
  = Normal (Some (JObj (JobRef "j2" "webp") (Some 1%Z))).
Proof.
  destruct save_then_get_returns_last_value as (_ & H).
  apply H; [reflexivity|unfold TTL; lia].
Defined.

(** ** Other keys are left alone *)

(** Saving, reading or clearing one key changes nothing under any other
    key, in the mirror or in the durable store. *)
Theorem operations_touch_only_their_key :
  (forall key k v t b s,
     k <> key ->
     let same (s' : store) :=
       CACHE s' !! k = CACHE s !! k ∧ durable k s' = durable k s in
     same (snd (Mirrored._save key v t s))
     ∧ same (snd (Mirrored._get key b t s))
     ∧ same (snd (Mirrored._clear key s)))
  ∧ (forall key k v t s,
     k <> key ->
     let same (s' : store) := durable k s' = durable k s in
     same (snd (Direct.saveToStorage key v t s))
     ∧ same (snd (Direct.getFromStorage key (Direct.clearFromStorage key)
                    t s))
     ∧ same (snd (Direct.clearFromStorage key s))).
Proof.
  split.
  - intros key k v t b [C [[it q]|]] Hk same; subst same; cbv beta;
      unfold Mirrored._save, Mirrored._get, Mirrored._clear;
      repeat split; run_store.
  - intros key k v t [C [[it q]|]] Hk same; subst same; cbv beta;
      unfold Direct.saveToStorage, Direct.getFromStorage,
        Direct.clearFromStorage;
      repeat split; run_store.
Qed.

Lemma operations_touch_only_their_key_witness :
  durable "completedResult"
    (snd (Direct.clearFromStorage "activeJob"
            (snd (Direct.saveCompletedResult "/out/j1.avif" None "avif" 0
                    empty_store))))
  = durable "completedResult"
      (snd (Direct.saveCompletedResult "/out/j1.avif" None "avif" 0
              empty_store)).
Proof.
  destruct operations_touch_only_their_key as (_ & H).
  apply (H "activeJob" "completedResult" (JobRef "" "") 0%Z).
  discriminate.
Defined.

(** ** The auto-download preference *)

(** The preference reads back as it was set when the write goes through,
    and reads as off when nothing was ever stored.  The first listing
    guards both accesses: they never throw, a failed write changes
    nothing, and an unreadable store reads as off.  The mirrored listing
    does not guard them: [getAutoDownload] throws exactly when
    [localStorage] is unusable and [setAutoDownload] exactly when the
    write fails. *)
Theorem auto_download_preference :
  (forall b s,
     write_fails s = false ->
     fst (Direct.getAutoDownload (snd (Direct.setAutoDownload b s)))
     = Normal b
     ∧ fst (Mirrored.getAutoDownload (snd (Mirrored.setAutoDownload b s)))
       = Normal b)
  ∧ (forall s,
     durable "autoDownload" s = None ->
     fst (Direct.getAutoDownload s) = Normal false
     ∧ (localStorage s <> None ->
        fst (Mirrored.getAutoDownload s) = Normal false))
  ∧ (forall b s,
     fst (Direct.setAutoDownload b s) = Normal tt
     ∧ (write_fails s = true -> snd (Direct.setAutoDownload b s) = s)
     ∧ exists v, fst (Direct.getAutoDownload s) = Normal v)
  ∧ (forall b s,
     (fst (Mirrored.getAutoDownload s) = Throw <-> localStorage s = None)
     ∧ (fst (Mirrored.setAutoDownload b s) = Throw
        <-> write_fails s = true)).
Proof.
  split; [|split; [|split]].
  - intros b [C [[it q]|]] Hw; unfold write_fails in Hw; simpl in Hw;
      [subst q|discriminate].
    unfold Direct.getAutoDownload, Direct.setAutoDownload,
      Mirrored.getAutoDownload, Mirrored.setAutoDownload.
    unfold_prims. unfold_m. simpl. rewrite lookup_insert_eq.
    destruct b; auto.
  - intros [C [[it q]|]] Hd; unfold durable in Hd; simpl in Hd;
      unfold Direct.getAutoDownload, Mirrored.getAutoDownload;
      unfold_prims; unfold_m; simpl; rewrite ?Hd; split; auto.
    intros H. contradiction.
  - intros b [C [[it q]|]]; unfold write_fails;
      unfold Direct.getAutoDownload, Direct.setAutoDownload;
      unfold_prims; unfold_m; simpl; try destruct q; simpl;
      repeat split; eauto; discriminate.
  - intros b [C [[it q]|]]; unfold write_fails;
      unfold Mirrored.getAutoDownload, Mirrored.setAutoDownload;
      unfold_prims; unfold_m; simpl; try destruct q; simpl;
      repeat split; auto; discriminate.
Qed.

Lemma auto_download_preference_witness :
  fst (Direct.getAutoDownload (snd (Direct.setAutoDownload true empty_store)))
  = Normal true
  ∧ fst (Mirrored.getAutoDownload
           (snd (Mirrored.setAutoDownload true empty_store)))
    = Normal true.
Proof.
  destruct auto_download_preference as (H & _).
  apply (H true empty_store). reflexivity.
Defined.

(** ** Invalidation from another tab *)

(** When another tab has replaced the durable entry of a key, this tab
    keeps returning its mirrored copy until the [storage] event for the
    key has been handled; after it, the read returns the entry the other
    tab wrote. *)
Theorem storage_event_invalidates_mirror
    (key : string) (b : bool) (t : Z) (s : store)
    (mine theirs : payload) (t0 t1 : Z) :
  localStorage s <> None ->
  CACHE s !! key = Some (JObj mine (Some t0)) ->
  (t - t0 <= TTL)%Z -> (t - t1 <= TTL)%Z ->
  let s' := other_tab_writes key theirs t1 s in
  fst (Mirrored._get key b t s') = Normal (Some (JObj mine (Some t0)))
  ∧ fst (Mirrored._get key b t (snd (Mirrored.on_storage_event key s')))
    = Normal (Some (JObj theirs (Some t1))).
Proof.
  destruct s as [C [[it q]|]]; simpl; intros Hls Hc H0 H1; [|contradiction].
  unfold other_tab_writes, Mirrored.on_storage_event, Mirrored._get, expired.
  unfold_prims. unfold_m. simpl. rewrite Hc. simpl.
  rewrite lookup_delete_eq. simpl. rewrite lookup_insert_eq. simpl.
  destruct (t - t0 >? TTL)%Z eqn:E0; [lia|].
  destruct (t - t1 >? TTL)%Z eqn:E1; [lia|]. auto.
Qed.

Lemma storage_event_invalidates_mirror_witness :
  let s' := other_tab_writes "activeJob" (JobRef "j2" "webp") 10
              (job_store "j1" "avif" 0) in
  fst (Mirrored._get "activeJob" true 20 s')
  = Normal (Some (JObj (JobRef "j1" "avif") (Some 0%Z)))
  ∧ fst (Mirrored._get "activeJob" true 20
           (snd (Mirrored.on_storage_event "activeJob" s')))
    = Normal (Some (JObj (JobRef "j2" "webp") (Some 10%Z))).
Proof.
  apply (storage_event_invalidates_mirror "activeJob" true 20%Z
           (job_store "j1" "avif" 0) (JobRef "j1" "avif")
           (JobRef "j2" "webp") 0%Z 10%Z).
  - discriminate.
  - vm_compute. reflexivity.
  - unfold TTL. lia.
  - unfold TTL. lia.
Defined.

(** ** Further properties of the history *)

(** [getHistory] never throws, whatever the store holds, and every entry
    it returns is younger than the TTL at the time of the call. *)
Theorem getHistory_returns_only_fresh_entries (SM : StorageManager) :
  shipped SM ->
  forall t s, exists h,
    fst (sm_getHistory SM t s) = Normal h
    ∧ Forall (fun e => fresh t e = true) h.
Proof.
  assert (Hfil : forall t H,
             Forall (fun e => fresh t e = true) (List.filter (fresh t) H)).
  { intros t H. apply List.Forall_forall. intros x Hx.
    apply List.filter_In in Hx. tauto. }
  intros [-> | ->] t [C [[it q]|]]; simpl;
    unfold Direct.getHistory, Mirrored.getHistory, Mirrored.getHistory_ref;
    unfold_prims; unfold_m; simpl;
    repeat (case_match; simpl in *; simplify_eq);
    eexists; (split; [reflexivity|]); auto.
  all: match goal with
       | Hn : negb (length (List.filter ?f ?H) =? length ?H)%nat = false
         |- _ =>
           apply negb_false_iff, Nat.eqb_eq in Hn;
           rewrite <- (filter_same_length _ _ Hn); apply Hfil
       end.
Qed.

Lemma getHistory_returns_only_fresh_entries_witness :
  exists h,
    fst (Mirrored.getHistory 172800000 long_history_store) = Normal h
    ∧ Forall (fun e => fresh 172800000 e = true) h.
Proof.
  apply (getHistory_returns_only_fresh_entries mirrored_manager).
  right. reflexivity.
Defined.

(** Reading the history prunes it: with a [localStorage] that accepts
    writes and nothing mirrored yet, [getHistory] returns the stored
    entries younger than the TTL, in their order, and leaves exactly those
    in [localStorage] (and, in the mirrored listing, in [CACHE]). *)
Theorem getHistory_prunes_the_stored_history t s H :
  write_fails s = false ->
  durable "conversionHistory" s = Some (Str (JArr H)) ->
  let kept := List.filter (fresh t) H in
  (fst (Direct.getHistory t s) = Normal kept
   ∧ durable "conversionHistory" (snd (Direct.getHistory t s))
     = Some (Str (JArr kept)))
  ∧ (CACHE s !! "conversionHistory" = None ->
     fst (Mirrored.getHistory t s) = Normal kept
     ∧ durable "conversionHistory" (snd (Mirrored.getHistory t s))
       = Some (Str (JArr kept))
     ∧ CACHE (snd (Mirrored.getHistory t s)) !! "conversionHistory"
       = Some (JArr kept)).
Proof.
  unfold write_fails, durable.
  destruct s as [C [[it q]|]]; simpl; [|discriminate].
  intros -> Hd. split; [|intros Hc].
  - unfold Direct.getHistory. unfold_prims; unfold_m; simpl.
    rewrite Hd. simpl.
    destruct (length (List.filter (fresh t) H) =? length H)%nat eqn:E; simpl.
    + apply Nat.eqb_eq in E. rewrite Hd.
      now rewrite (filter_same_length _ _ E).
    + now rewrite lookup_insert_eq.
  - unfold Mirrored.getHistory, Mirrored.getHistory_ref.
    unfold_prims; unfold_m; simpl. rewrite Hc. simpl. rewrite Hd. simpl.
    destruct (length (List.filter (fresh t) H) =? length H)%nat eqn:E; simpl.
    + apply Nat.eqb_eq in E. rewrite Hd, lookup_insert_eq.
      now rewrite (filter_same_length _ _ E).
    + now rewrite !lookup_insert_eq.
Qed.

Lemma getHistory_prunes_the_stored_history_witness :
  let kept := List.filter (fresh 86402500) (map entry_of burst) in
  fst (Direct.getHistory 86402500 long_history_store) = Normal kept
  ∧ durable "conversionHistory"
      (snd (Direct.getHistory 86402500 long_history_store))
    = Some (Str (JArr kept)).
Proof.
  apply (getHistory_prunes_the_stored_history 86402500%Z long_history_store
           (map entry_of burst)); reflexivity.
Defined.

(** After [clearHistory] the history reads as empty, in both listings and
    whatever the state of [localStorage]. *)
Theorem history_is_empty_after_clearHistory :
  forall t s,
    fst (Direct.getHistory t (snd (Direct.clearHistory s))) = Normal []
    ∧ fst (Mirrored.getHistory t (snd (Mirrored.clearHistory s)))
      = Normal [].
Proof.
  intros t [C [[it q]|]];
    unfold Direct.clearHistory, Direct.clearFromStorage, Direct.getHistory,
      Mirrored.clearHistory, Mirrored._clear, Mirrored.getHistory,
      Mirrored.getHistory_ref;
    unfold_prims; unfold_m; simpl;
    rewrite ?lookup_delete_eq; simpl; rewrite ?lookup_delete_eq; auto.
Qed.

(** One [saveToHistory] of the mirrored listing on a [localStorage] that
    accepts writes leaves a history of at most [LIM] entries headed by the
    new one, the same in both layers, whatever was stored before. *)
Theorem mirrored_push_bounds_the_history u f p t d s :
  write_fails s = false ->
  let s' := snd (Mirrored.saveToHistory u f p t d s) in
  exists rest,
    CACHE s' !! "conversionHistory"
    = Some (JArr (mkHistoryEntry u f p t d :: rest))
    ∧ durable "conversionHistory" s'
      = Some (Str (JArr (mkHistoryEntry u f p t d :: rest)))
    ∧ (length (mkHistoryEntry u f p t d :: rest) <= Mirrored.LIM)%nat.
Proof.
  intros Hw s'.
  destruct (mirrored_saveToHistory_step u f p t d s Hw)
    as (h & Hc & Hd & _ & _).
  cbv zeta in Hc, Hd. rewrite mirrored_push_entry in Hc, Hd.
  change Mirrored.LIM with 3%nat in *. rewrite firstn_cons in Hc, Hd.
  exists (firstn 2 h). repeat split; auto.
  simpl. pose proof (firstn_le_length 2 h).
  rewrite length_firstn. lia.
Qed.

Lemma mirrored_push_bounds_the_history_witness :
  let s' := snd (Mirrored.saveToHistory "/out/g.avif" "avif" None 6000 "t6"
                   long_history_store) in
  exists rest,
    CACHE s' !! "conversionHistory"
    = Some (JArr (mkHistoryEntry "/out/g.avif" "avif" None 6000 "t6" :: rest))
    ∧ durable "conversionHistory" s'
      = Some (Str (JArr (mkHistoryEntry "/out/g.avif" "avif" None 6000 "t6"
                           :: rest)))
    ∧ (length (mkHistoryEntry "/out/g.avif" "avif" None 6000 "t6" :: rest)
       <= Mirrored.LIM)%nat.
Proof.
  apply (mirrored_push_bounds_the_history "/out/g.avif" "avif" None 6000%Z
           "t6" long_history_store).
  reflexivity.
Defined.

(** The first listing drops one entry per push and no more: a stored
    history of at least [MAX_HISTORY_ITEMS] entries, all younger than the
    TTL, keeps its length; the new entry comes first and the oldest one is
    gone.  A history that is too long is therefore never cut back to the
    maximum. *)
Theorem direct_push_keeps_the_length_of_a_full_history u f p t d s H :
  write_fails s = false ->
  durable "conversionHistory" s = Some (Str (JArr H)) ->
  Forall (fun e => fresh t e = true) H ->
  (Direct.MAX_HISTORY_ITEMS <= length H)%nat ->
  let s' := snd (Direct.saveToHistory u f p t d s) in
  durable "conversionHistory" s'
  = Some (Str (JArr (mkHistoryEntry u f p t d :: removelast H)))
  ∧ length (mkHistoryEntry u f p t d :: removelast H) = length H.
Proof.
  intros Hw Hd Hf Hlen s'.
  destruct (direct_saveToHistory_step u f p t d s Hw) as (Hd' & _).
  rewrite Hd, (filter_all_true _ _ Hf) in Hd'. fold s' in Hd'.
  unfold Direct.push_entry in Hd'.
  assert (E : (Direct.MAX_HISTORY_ITEMS
               <? length (mkHistoryEntry u f p t d :: H))%nat = true)
    by (apply Nat.ltb_lt; simpl; lia).
  rewrite E in Hd'.
  destruct H as [|x H']; [unfold Direct.MAX_HISTORY_ITEMS in Hlen;
                          simpl in Hlen; lia|].
  split; [exact Hd'|].
  change (length (mkHistoryEntry u f p t d :: removelast (x :: H')))
    with (S (length (removelast (x :: H')))).
  rewrite (removelast_firstn_len (x :: H')), length_firstn. simpl. lia.
Qed.

Lemma direct_push_keeps_the_length_of_a_full_history_witness :
  let s' := snd (Direct.saveToHistory "/out/g.avif" "avif" None 6000 "t6"
                   long_history_store) in
  durable "conversionHistory" s'
  = Some (Str (JArr (mkHistoryEntry "/out/g.avif" "avif" None 6000 "t6"
                       :: removelast (map entry_of burst))))
  ∧ length (mkHistoryEntry "/out/g.avif" "avif" None 6000 "t6"
              :: removelast (map entry_of burst))
    = length (map entry_of burst).
Proof.
  apply (direct_push_keeps_the_length_of_a_full_history "/out/g.avif" "avif"
           None 6000%Z "t6" long_history_store (map entry_of burst)).
  - reflexivity.
  - reflexivity.
  - repeat constructor.
  - vm_compute. lia.
Defined.

(** A history write that [localStorage] refuses: the first listing leaves
    the store as it was; the mirrored listing, which has changed the
    mirrored array in place before the write, leaves [localStorage] as it
    was but goes on returning the entry from the mirror. *)
Theorem failed_history_write_shows_in_the_mirror_only u f p t d s H :
  write_fails s = true ->
  CACHE s !! "conversionHistory" = Some (JArr H) ->
  Forall (fun e => fresh t e = true) H ->
  snd (Direct.saveToHistory u f p t d s) = s
  ∧ localStorage (snd (Mirrored.saveToHistory u f p t d s)) = localStorage s
  ∧ fst (Mirrored.getHistory t (snd (Mirrored.saveToHistory u f p t d s)))
    = Normal (Mirrored.push_entry (mkHistoryEntry u f p t d) H).
Proof.
  intros Hw Hc Hf. split; [|].
  - clear Hc Hf. unfold write_fails in Hw.
    destruct s as [C [[it q]|]]; simpl in Hw; subst;
      unfold Direct.saveToHistory, Direct.getHistory;
      unfold_prims; unfold_m; simpl; auto.
    destruct (it !! "conversionHistory") as [[[v ts|h|b|]| |]|]; simpl; auto.
    destruct (negb (length (List.filter (fresh t) h) =? length h)%nat);
      simpl; auto.
  - assert (E : snd (Mirrored.saveToHistory u f p t d s)
                = mkStore (<["conversionHistory" :=
                               JArr (Mirrored.push_entry
                                       (mkHistoryEntry u f p t d) H)]>
                             (CACHE s))
                    (localStorage s)).
    { unfold write_fails in Hw.
      destruct s as [C [[it q]|]]; simpl in *; subst;
        unfold Mirrored.saveToHistory, Mirrored.getHistory_ref;
        unfold_prims; unfold_m; simpl; rewrite Hc; simpl;
        rewrite (filter_all_true _ _ Hf), Nat.eqb_refl; simpl;
        now rewrite insert_insert_eq. }
    rewrite E. split; [reflexivity|].
    apply mirrored_getHistory_cached; [simpl; apply lookup_insert_eq|].
    rewrite mirrored_push_entry. apply Forall_take. constructor; [|exact Hf].
    unfold fresh. simpl. apply Z.ltb_lt. unfold TTL. lia.
Qed.

Lemma failed_history_write_shows_in_the_mirror_only_witness :
  snd (Direct.saveToHistory "/out/c.avif" "avif" None 2000 "t2"
         mirror_only_store) = mirror_only_store
  ∧ localStorage (snd (Mirrored.saveToHistory "/out/c.avif" "avif" None 2000
                         "t2" mirror_only_store))
    = localStorage mirror_only_store
  ∧ fst (Mirrored.getHistory 2000
           (snd (Mirrored.saveToHistory "/out/c.avif" "avif" None 2000 "t2"
                   mirror_only_store)))
    = Normal (Mirrored.push_entry
                (mkHistoryEntry "/out/c.avif" "avif" None 2000 "t2")
                (map entry_of (firstn 2 burst))).
Proof.
  apply (failed_history_write_shows_in_the_mirror_only "/out/c.avif" "avif"
           None 2000%Z "t2" mirror_only_store (map entry_of (firstn 2 burst))).
  - reflexivity.
  - vm_compute. reflexivity.
  - repeat constructor.
Defined.

(** * Further properties of the conversion manager *)

(** ** No exception leaves the client *)

Lemma total_try {S A} (b h : M S A) :
  never_throws h -> never_throws (try_catch b h).
Proof.
  intros Hh s. unfold try_catch.
  destruct (b s) as [[a|] s1]; simpl; [eauto|apply Hh].
Qed.

Lemma total_modify {S} (f : S -> S) : never_throws (modify f).
Proof. intros s. now exists tt. Qed.

Lemma total_detached {A} (m : M page A) : never_throws (detached m).
Proof. unfold detached. apply total_try, total_mret. Qed.

Section Escape.
Variable SM : StorageManager.
Variable absent : string -> store -> Prop.
Hypothesis C : contract SM absent.
Variables isMobile hist : bool.

Lemma catch_block_total : never_throws (catch_block SM isMobile).
Proof.
  intros l. rewrite catch_block_eq.
  destruct (maxErrs isMobile <=? S (errs l))%nat; rewrite on_page_then.
  - destruct (connLost_total SM absent C (pg (backed_off l))) as [[] H].
    destruct (_connLost SM _) as [[[]|] p']; simpl in *;
      [eauto|discriminate].
  - destruct (retryMsg_total (S (errs l)) (lastSt l) (pg (backed_off l)))
      as [[] H].
    destruct (_retryMsg _ _ _) as [[[]|] p']; simpl in *;
      [eauto|discriminate].
Qed.

Lemma poll_body_total jobId fmt t :
  never_throws (poll_body SM isMobile hist jobId fmt t).
Proof.
  intros l. destruct t as [|c r]; [now eexists|].
  rewrite poll_body_flag_true. unfold try_catch.
  destruct (try_block SM isMobile hist jobId fmt c r l) as [[[x|]|] l1];
    simpl; eauto.
  destruct (catch_block_total l1) as [a Ha].
  destruct (catch_block SM isMobile l1) as [[[x|]|] l']; simpl in *;
    eauto; discriminate.
Qed.

Lemma poll_loop_total jobId fmt ticks :
  never_throws (poll_loop SM isMobile hist jobId fmt ticks).
Proof.
  induction ticks as [|t rest IH]; intros l; [now eexists|].
  rewrite poll_loop_cons. destruct (poll_body_total jobId fmt t l) as [a Ha].
  destruct (poll_body SM isMobile hist jobId fmt t l) as [[[x|]|] l'];
    simpl in *; eauto; discriminate.
Qed.

Lemma pollJobStatus_total jobId fmt ticks :
  never_throws (pollJobStatus SM isMobile hist jobId fmt ticks).
Proof.
  intros p. rewrite pollJobStatus_eq. simpl. apply poll_loop_total.
Qed.

Lemma poll_turn_total jobId fmt t q e last :
  never_throws (poll_turn SM isMobile hist jobId fmt t q e last).
Proof.
  intros p. unfold poll_turn.
  destruct (poll_body_total jobId fmt t (mkLoop p q e last)) as [a Ha].
  destruct (poll_body SM isMobile hist jobId fmt t (mkLoop p q e last))
    as [[x|] l]; simpl in *; [now exists tt|discriminate].
Qed.

Lemma resetForm_end_total : never_throws (resetForm_end SM).
Proof.
  unfold resetForm_end. apply total_bind.
  - apply total_on_store, (c_clearCompleted_total _ _ C).
  - intros _. apply total_bind.
    + apply total_on_store, (c_clearActive_total _ _ C).
    + intros _. apply total_emit.
Qed.

(** Every handler but the page load and the start-up check returns. *)
Lemma handle_total h :
  match h with
  | OnLoad _ _ _ | OnResumeTimer _ => True
  | _ => never_throws (handle SM isMobile hist h)
  end.
Proof.
  destruct h as [|cm format u c|jobId fmt t q e last|c| | |tg sec c|c|r];
    cbn [handle]; try exact I.
  - unfold startConversion. apply total_bind.
    + apply total_on_store, (c_clearCompleted_total _ _ C).
    + intros _. apply total_emit.
  - apply total_bind; [|intros ?; apply total_mret].
    unfold xhr_onload. destruct u as [jobId|].
    + apply total_bind.
      * apply total_on_store, (c_saveActive_total _ _ C).
      * intros _. apply total_bind; [apply total_emit|].
        intros _. apply total_mret.
    + apply total_bind; [apply total_emit|]. intros _.
      apply total_bind; [apply total_emit|]. intros _. apply total_mret.
  - apply poll_turn_total.
  - unfold resetForm_begin. apply total_bind.
    + apply total_bind.
      * apply total_on_store, (c_getActive_total _ _ C).
      * intros job. destruct (present job); [|apply total_mret].
        apply total_bind; [apply total_emit|intros _; apply total_mret].
    + intros [|]; [apply total_mret|apply resetForm_end_total].
  - apply resetForm_end_total.
  - unfold handleConvertAnother. apply total_bind.
    + apply total_on_store, (c_clearCompleted_total _ _ C).
    + intros _. apply total_emit.
  - apply total_bind; [|intros ?; apply total_mret].
    unfold checkAndResumeJob_end. apply total_try.
    apply total_bind.
    + apply total_on_store, (c_clearActive_total _ _ C).
    + intros _. apply total_mret.
Qed.

(** The start-up check throws exactly out of [displayCompletedResult]. *)
Lemma resume_timer_throws c p :
  fst (handle SM isMobile hist (OnResumeTimer c) p) = Throw
  <-> exists res,
        fst (sm_getCompletedResult SM (now c) (storage p)) = Normal res
        ∧ present res = true
        ∧ getFormatLabel (default "undefined" (res ≫= format_of)) = None.
Proof.
  cbn [handle]. unfold checkAndResumeJob_begin, on_store. unfold_m.
  destruct (c_getCompleted_total _ _ C (now c) (storage p)) as [res Hres].
  destruct (sm_getCompletedResult SM (now c) (storage p)) as [[sv|] s1];
    simpl in Hres; [|discriminate].
  inversion Hres; subst sv. simpl.
  destruct (present res) eqn:Hp.
  - unfold displayCompletedResult, emit. unfold_m.
    destruct (getFormatLabel _) as [label|] eqn:Hl; simpl.
    + split; [discriminate|]. intros (res' & E & _ & Hn).
      inversion E; subst res'. congruence.
    + split; [|reflexivity]. intros _. exists res. auto.
  - split.
    + destruct (c_getActive_total _ _ C (now c) s1) as [j Hj]. simpl.
      destruct (sm_getActiveJob SM (now c) s1) as [[jv|] s2];
        simpl in Hj |- *; [|discriminate].
      destruct (negb (present jv)); simpl; discriminate.
    + intros (res' & E & Hp' & _). inversion E; subst res'. congruence.
Qed.
End Escape.

(** How [App.init] ends, by listing. *)
Lemma App_init_outcome :
  forall has_toggle has_section t s,
    (exists ui,
        fst (App_init direct_manager has_toggle has_section t s) = Normal ui)
    ∧ (fst (App_init mirrored_manager has_toggle has_section t s) = Throw
       <-> has_toggle = true ∧ localStorage s = None).
Proof.
  intros has_toggle has_section t s. split.
  - unfold App_init, UIManager_init, setupAutoDownloadToggle,
      loadAndDisplayHistory.
    repeat (apply total_bind; [|intros ?]); try apply total_mret;
      repeat case_match; repeat (apply total_bind; [|intros ?]);
      try apply total_mret.
    + apply direct_getAutoDownload_total.
    + apply (c_getHistory_total _ _ direct_contract).
  - unfold App_init, UIManager_init, setupAutoDownloadToggle,
      loadAndDisplayHistory. unfold_m. simpl.
    destruct has_toggle.
    + unfold Mirrored.getAutoDownload. unfold_prims. unfold_m.
      destruct s as [CA [ls|]]; simpl.
      * destruct has_section; simpl.
        -- destruct (c_getHistory_total _ _ mirrored_contract t
                       (mkStore CA (Some ls))) as [h Hh].
           simpl in Hh.
           destruct (Mirrored.getHistory t (mkStore CA (Some ls)))
             as [[h'|] s']; simpl in *; [|discriminate].
           split; [discriminate|]. intros [_ H]. discriminate.
        -- split; [discriminate|]. intros [_ H]. discriminate.
      * split; auto.
    + destruct has_section; simpl.
      * destruct (c_getHistory_total _ _ mirrored_contract t s) as [h Hh].
        simpl in Hh.
        destruct (Mirrored.getHistory t s) as [[h'|] s']; simpl in *;
          [|discriminate].
        split; [discriminate|]. intros [H _]. discriminate.
      * split; [discriminate|]. intros [H _]. discriminate.
Qed.
(** A page load throws exactly when [App.init] does, on the store the
    previous page left. *)
Lemma load_outcome SM mob hist tg sec c p :
  fst (handle SM mob hist (OnLoad tg sec c) p)
  = match fst (App_init SM tg sec (now c)
                 (mkStore ∅ (localStorage (storage p)))) with
    | Normal _ => Normal tt
    | Throw => Throw
    end.
Proof.
  cbn [handle]. unfold reload, on_store, modify. unfold_m. simpl.
  now destruct (App_init SM tg sec (now c) _) as [[ui|] s'].
Qed.

(** With either storage listing, no exception leaves [pollJobStatus],
    whatever the replies and the state of [localStorage]: what is thrown
    inside the loop is caught by it, and its [catch] block calls only
    guarded storage functions.  Of the handlers of the page, the submit,
    the answer to the upload, a turn of a poll, [resetForm] in both its
    parts, [handleConvertAnother] and the second part of
    [checkAndResumeJob] always return.  The first part of
    [checkAndResumeJob] throws exactly when a completed result is stored
    whose format has no label, out of [displayCompletedResult].  A page
    load always returns with the first listing; with the mirrored one it
    throws exactly when the page has the auto-download toggle and
    [localStorage] is unusable. *)
Theorem no_exception_leaves_a_poll_or_a_guarded_handler
    (SM : StorageManager) (mob hist : bool) :
  shipped SM ->
  (forall jobId fmt ticks p,
      exists out, fst (pollJobStatus SM mob hist jobId fmt ticks p) = Normal out)
  ∧ (forall h p,
      match h with
      | OnLoad _ _ _ | OnResumeTimer _ => True
      | _ => fst (handle SM mob hist h p) = Normal tt
      end)
  ∧ (forall c p,
      fst (handle SM mob hist (OnResumeTimer c) p) = Throw
      <-> exists res,
            fst (sm_getCompletedResult SM (now c) (storage p)) = Normal res
            ∧ present res = true
            ∧ getFormatLabel (default "undefined" (res ≫= format_of)) = None)
  ∧ (forall tg sec c p,
      (SM = direct_manager ->
       fst (handle SM mob hist (OnLoad tg sec c) p) = Normal tt)
      ∧ (SM = mirrored_manager ->
         (fst (handle SM mob hist (OnLoad tg sec c) p) = Throw
          <-> tg = true ∧ localStorage (storage p) = None))).
Proof.
  intros HSM. destruct (shipped_contract SM HSM) as [absent C].
  split; [|split; [|split]].
  - intros jobId fmt ticks p.
    apply (pollJobStatus_total SM absent C).
  - intros h p. pose proof (handle_total SM absent C mob hist h) as H.
    destruct h; try exact I; destruct (H p) as [[] E]; exact E.
  - intros c p. apply (resume_timer_throws SM absent C).
  - intros tg sec c p.
    destruct (App_init_outcome tg sec (now c)
                (mkStore ∅ (localStorage (storage p)))) as [[ui Hd] Hm].
    split; intros ->; rewrite load_outcome.
    + now rewrite Hd.
    + simpl in Hm. rewrite <- Hm.
      destruct (fst (App_init mirrored_manager tg sec (now c) _)) as [ui'|];
        split; intros H; first [reflexivity|discriminate H].
Qed.

(** A poll on a page without [localStorage] returns; the start-up check
    on a page that holds a result of format [constructor] throws. *)
Lemma no_exception_leaves_a_poll_or_a_guarded_handler_witness :
  (exists out,
     fst (pollJobStatus mirrored_manager false true (Some "j1") (Some "avif")
            [FlagTrue clock0 (reply "done"); timeout_tick]
            (blank no_storage)) = Normal out)
  ∧ fst (handle direct_manager false true (OnResumeTimer clock0)
           (blank (snd (Direct.saveCompletedResult "/out/j1.avif" None
                          "constructor" 0 empty_store)))) = Throw.
Proof.
  split.
  - destruct (no_exception_leaves_a_poll_or_a_guarded_handler
                mirrored_manager false true (or_intror eq_refl)) as [H _].
    apply H.
  - destruct (no_exception_leaves_a_poll_or_a_guarded_handler
                direct_manager false true (or_introl eq_refl))
      as (_ & _ & H & _).
    apply H.
    exists (Some (JObj (Result "/out/j1.avif" None "constructor")
                    (Some 0%Z))).
    split; [vm_compute; reflexivity|]. split; vm_compute; reflexivity.
Defined.

(** ** Requests and waits of a poll *)

Section Turns.
Variable SM : StorageManager.
Variables isMobile hist : bool.
Variables jobId fmt : option string.

(** A turn answered with a status that is not terminal. *)
Lemma running_turn c data l :
  is_terminal (status data) = false ->
  poll_body SM isMobile hist jobId fmt (FlagTrue c (Replied data)) l
  = (Normal None, waited (replied isMobile jobId data l)).
Proof.
  intros Ht. rewrite poll_body_flag_true. unfold try_catch.
  rewrite try_block_replied. unfold is_terminal in Ht.
  destruct (String.eqb (status data) "done"); [discriminate|].
  simpl in Ht. now rewrite Ht.
Qed.

Lemma poll_loop_io ticks : forall l,
  let o := poll_loop SM isMobile hist jobId fmt ticks l in
  (exists n,
     (n <= turns_with_flag ticks)%nat
     ∧ fetches (events (pg (snd o)))
       = fetches (events (pg l)) ++ repeat (progress_url jobId) n)
  ∧ (fst o = Normal None ->
     fetches (events (pg (snd o)))
     = fetches (events (pg l))
       ++ repeat (progress_url jobId) (turns_with_flag ticks)
     ∧ length (sleeps (events (pg (snd o))))
       = (length (sleeps (events (pg l))) + length ticks)%nat).
Proof.
  induction ticks as [|t rest IH]; intros l o; subst o.
  - simpl. split.
    + exists 0%nat. simpl. now rewrite app_nil_r.
    + intros _. rewrite app_nil_r. split; [reflexivity|lia].
  - rewrite poll_loop_cons. destruct t as [|c r].
    + rewrite poll_body_flag_false.
      destruct (IH (waited l)) as [(n & Hn & HF) Hrun].
      assert (E : fetches (events (pg (waited l))) = fetches (events (pg l))).
      { unfold waited. simpl. rewrite fetches_app. simpl.
        now rewrite app_nil_r. }
      assert (Es : length (sleeps (events (pg (waited l))))
                   = S (length (sleeps (events (pg l))))).
      { unfold waited. simpl. rewrite sleeps_app, length_app. simpl. lia. }
      rewrite E in HF. split.
      * exists n. split; [exact Hn|exact HF].
      * intros Hnone. destruct (Hrun Hnone) as [H1 H2].
        rewrite E in H1. rewrite Es in H2. split; [exact H1|].
        rewrite H2. simpl. lia.
    + destruct (flag_true_turn SM isMobile hist jobId fmt c r l)
        as (HF & HW & _).
      destruct (poll_body SM isMobile hist jobId fmt (FlagTrue c r) l)
        as [[[x|]|] l']; simpl in HF, HW |- *.
      * split; [|discriminate].
        exists 1%nat. unfold turns_with_flag. simpl. split; [lia|exact HF].
      * destruct (IH l') as [(n & Hn & HF') Hrun]. split.
        -- exists (S n). unfold turns_with_flag in *. simpl.
           split; [lia|]. rewrite HF', HF, <- app_assoc. reflexivity.
        -- intros Hnone. destruct (Hrun Hnone) as [H1 H2].
           unfold turns_with_flag in *. simpl.
           rewrite H1, HF, <- app_assoc. split; [reflexivity|].
           rewrite H2, HW, length_app. simpl. lia.
      * split; [|discriminate].
        exists 1%nat. unfold turns_with_flag. simpl. split; [lia|exact HF].
Qed.

Lemma still_running_loop ticks : forall l,
  Forall still_running ticks ->
  interval l = baseInt isMobile ->
  let o := poll_loop SM isMobile hist jobId fmt ticks l in
  fst o = Normal None
  ∧ storage (pg (snd o)) = storage (pg l)
  ∧ sleeps (events (pg (snd o)))
    = sleeps (events (pg l)) ++ repeat (baseInt isMobile) (length ticks)
  ∧ interval (snd o) = baseInt isMobile.
Proof.
  induction ticks as [|t rest IH]; intros l Hf Hi o; subst o.
  - simpl. rewrite app_nil_r. auto.
  - inversion Hf as [|? ? Ht Hrest]; subst.
    rewrite poll_loop_cons. destruct t as [|c [|data]]; try contradiction.
    + rewrite poll_body_flag_false.
      destruct (IH (waited l) Hrest Hi) as (H1 & H2 & H3 & H4).
      split; [exact H1|]. split; [exact H2|]. split; [|exact H4].
      rewrite H3. unfold waited. simpl. rewrite sleeps_app, <- app_assoc.
      simpl. now rewrite Hi.
    + simpl in Ht. rewrite (running_turn c data l Ht).
      destruct (IH (waited (replied isMobile jobId data l)) Hrest eq_refl)
        as (H1 & H2 & H3 & H4).
      split; [exact H1|]. split; [exact H2|]. split; [|exact H4].
      rewrite H3. destruct (replied_io isMobile jobId data l)
        as [_ HW].
      unfold waited. cbn [pg events].
      rewrite sleeps_app, HW, <- app_assoc. reflexivity.
Qed.
End Turns.

(** A poll makes one request per turn of its loop that finds
    [ui.pageVisible] true and none on a turn that finds it false: at most
    that many if it has returned, exactly that many, and one wait per
    turn, if it is still running.  The flag is not the visibility of the
    page: a turn finds it as the last [visibilitychange] event left it,
    and true, whether the document is hidden or not, as long as no such
    event has been handled. *)
Theorem poll_asks_once_per_turn_with_the_flag_set
    (SM : StorageManager) (mob hist : bool) (jobId fmt : option string)
    (ticks : list tick) (p : page) :
  let o := pollJobStatus SM mob hist jobId fmt ticks p in
  (exists n,
     (n <= turns_with_flag ticks)%nat
     ∧ fetches (events (snd o))
       = fetches (events p) ++ repeat (progress_url jobId) n)
  ∧ (fst o = Normal None ->
     fetches (events (snd o))
     = fetches (events p) ++ repeat (progress_url jobId) (turns_with_flag ticks)
     ∧ length (sleeps (events (snd o)))
       = (length (sleeps (events p)) + length ticks)%nat)
  ∧ (forall document_is_hidden reported c r,
       turn_of (mkView document_is_hidden (Some reported)) c r
       = (if reported then FlagFalse else FlagTrue c r)
       ∧ turn_of (mkView document_is_hidden None) c r = FlagTrue c r).
Proof.
  intros o. subst o. rewrite pollJobStatus_eq. unfold reached. simpl.
  destruct (poll_loop_io SM mob hist jobId fmt ticks
              (mkLoop p (baseInt mob) 0 None)) as [H1 H2].
  split; [exact H1|]. split; [exact H2|].
  intros d [|] c r; split; reflexivity.
Qed.

Lemma poll_asks_once_per_turn_with_the_flag_set_witness :
  let o := pollJobStatus mirrored_manager false true (Some "j1") (Some "avif")
             [FlagTrue clock0 (reply "queued"); FlagFalse; timeout_tick;
              FlagTrue clock0 (reply "running")] (blank empty_store) in
  fetches (events (snd o))
  = fetches (events (blank empty_store))
    ++ repeat (progress_url (Some "j1")) 3
  ∧ length (sleeps (events (snd o)))
    = (length (sleeps (events (blank empty_store))) + 4)%nat.
Proof.
  destruct (poll_asks_once_per_turn_with_the_flag_set mirrored_manager
              false true (Some "j1") (Some "avif")
              [FlagTrue clock0 (reply "queued"); FlagFalse; timeout_tick;
               FlagTrue clock0 (reply "running")] (blank empty_store))
    as (_ & H & _).
  apply H. vm_compute. reflexivity.
Defined.

(** While the server reports a status that is not terminal, whether or
    not turns that find [ui.pageVisible] false fall in between, the poll
    goes on, leaves the store untouched and waits the base interval every
    time. *)
Theorem poll_leaves_the_store_alone_while_the_job_runs
    (SM : StorageManager) (mob hist : bool) (jobId fmt : option string)
    (ticks : list tick) (p : page) :
  Forall still_running ticks ->
  let o := pollJobStatus SM mob hist jobId fmt ticks p in
  fst o = Normal None
  ∧ storage (snd o) = storage p
  ∧ sleeps (events (snd o))
    = sleeps (events p) ++ repeat (baseInt mob) (length ticks).
Proof.
  intros Hf o. subst o. rewrite pollJobStatus_eq. unfold reached. simpl.
  destruct (still_running_loop SM mob hist jobId fmt ticks
              (mkLoop p (baseInt mob) 0 None) Hf eq_refl)
    as (H1 & H2 & H3 & _).
  auto.
Qed.

Lemma poll_leaves_the_store_alone_while_the_job_runs_witness :
  let p := blank (job_store "j1" "avif" 0) in
  let o := pollJobStatus mirrored_manager true true (Some "j1") (Some "avif")
             [FlagTrue clock0 (reply "queued"); FlagFalse;
              FlagTrue clock0 (reply "running")] p in
  fst o = Normal None
  ∧ storage (snd o) = storage p
  ∧ sleeps (events (snd o)) = sleeps (events p) ++ repeat (baseInt true) 3.
Proof.
  apply (poll_leaves_the_store_alone_while_the_job_runs mirrored_manager true
           true (Some "j1") (Some "avif")
           [FlagTrue clock0 (reply "queued"); FlagFalse;
            FlagTrue clock0 (reply "running")]
           (blank (job_store "j1" "avif" 0))).
  repeat constructor.
Defined.

(** [_updateProg] is called on a reply exactly when the status differs
    from the one seen last or is [running]: a turn answered with a status
    that is not terminal consists of the request, the call if there is
    one, and the wait of the base interval, and it leaves the status as
    the one seen last.  Called from the loop, [_updateProg] draws the
    queue bar for [queued]; for [running] and [predict] it draws the
    processing bar unless the last status was one of the two and the box
    holds an upload progress text, whose text it then brings up to date;
    for any other status it leaves the box alone. *)
Theorem updateProg_is_called_on_change_or_when_running
    (SM : StorageManager) (mob hist : bool) (jobId fmt : option string)
    (c : Clock) (data : StatusData) (l : loop) :
  is_terminal (status data) = false ->
  let o := poll_body SM mob hist jobId fmt (FlagTrue c (Replied data)) l in
  let ask := Fetch (progress_url jobId) (fetch_timeout mob) in
  let txt := default "Processing..." (or_else (message data) None) in
  lastSt (snd o) = Some (status data)
  ∧ (lastSt l = Some (status data) -> status data <> "running" ->
     events (pg (snd o)) = events (pg l) ++ [ask; Sleep (baseInt mob)])
  ∧ (lastSt l <> Some (status data) ∨ status data = "running" ->
     events (pg (snd o))
     = events (pg l)
       ++ [ask; UpdateProg data (lastSt l); Sleep (baseInt mob)]
     ∧ forall exist,
         (status data = "queued" ->
          _updateProg data (lastSt l) exist = SetBar "Queued..." "queue")
         ∧ (status data = "running" ∨ status data = "predict" ->
            _updateProg data (lastSt l) exist
            = match exist with
              | Some e =>
                  if bool_decide (lastSt l = Some "running"
                                  ∨ lastSt l = Some "predict")
                     && is_upload_progress_text e
                  then if String.eqb (textContent e) txt
                       then NoChange else SetText txt
                  else SetBar txt "processing"
              | None => SetBar txt "processing"
              end)
         ∧ (status data <> "queued" -> status data <> "running" ->
            status data <> "predict" ->
            _updateProg data (lastSt l) exist = NoChange)).
Proof.
  intros Ht o ask txt. subst o ask txt.
  rewrite (running_turn SM mob hist jobId fmt c data l Ht).
  unfold waited, replied, asked. simpl.
  split; [reflexivity|]. split.
  - intros Hl Hr. rewrite bool_decide_true by exact Hl.
    apply String.eqb_neq in Hr. rewrite Hr. simpl.
    now rewrite <- app_assoc.
  - intros Hcall. split.
    + destruct Hcall as [Hl | Hr].
      * rewrite bool_decide_false by exact Hl. simpl.
        now rewrite <- !app_assoc.
      * apply String.eqb_eq in Hr. rewrite Hr, orb_true_r.
        now rewrite <- !app_assoc.
    + intros exist. unfold _updateProg. split; [|split].
      * intros Hq. rewrite Hq in *. simpl String.eqb.
        destruct Hcall as [Hl | Hr]; [|discriminate Hr].
        now rewrite bool_decide_false by exact Hl.
      * intros Hrp.
        assert (Hnq : String.eqb (status data) "queued" = false).
        { destruct Hrp as [-> | ->]; reflexivity. }
        assert (Hrun : String.eqb (status data) "running"
                       || String.eqb (status data) "predict" = true).
        { destruct Hrp as [-> | ->]; reflexivity. }
        rewrite Hnq, Hrun. simpl.
        destruct (lastSt l) as [x|].
        -- destruct (decide (x = "running")) as [-> | Nr].
           ++ rewrite (bool_decide_true (_ ∨ _)) by (now left).
              simpl. destruct exist as [[[] t]|]; simpl; try reflexivity.
              now destruct (String.eqb t _).
           ++ destruct (decide (x = "predict")) as [-> | Np].
              ** rewrite (bool_decide_true (_ ∨ _)) by (now right).
                 simpl. destruct exist as [[[] t]|]; simpl; try reflexivity.
                 now destruct (String.eqb t _).
              ** rewrite (bool_decide_false (_ ∨ _))
                   by (intros [E | E]; congruence).
                 rewrite (bool_decide_false (Some x = Some "running"))
                   by congruence.
                 rewrite (bool_decide_false (Some x = Some "predict"))
                   by congruence.
                 simpl. now destruct exist.
        -- rewrite (bool_decide_false (_ ∨ _))
             by (intros [E | E]; discriminate E).
           simpl. now destruct exist.
      * intros Nq Nr Np.
        apply String.eqb_neq in Nq, Nr, Np. now rewrite Nq, Nr, Np.
Qed.

(** A second [queued] in a row: no call.  A first one: the queue bar. *)
Lemma updateProg_is_called_on_change_or_when_running_witness :
  let queued := mkStatusData "queued" None None "/out/j1.avif" None in
  let l0 := mkLoop (blank empty_store) (baseInt false) 0 None in
  let l := snd (reached mirrored_manager false true (Some "j1") (Some "avif")
                  [FlagTrue clock0 (reply "queued")] (blank empty_store)) in
  let o := poll_body mirrored_manager false true (Some "j1") (Some "avif")
             (FlagTrue clock0 (reply "queued")) l in
  events (pg (snd o))
  = events (pg l)
    ++ [Fetch (progress_url (Some "j1")) (fetch_timeout false);
        Sleep (baseInt false)]
  ∧ _updateProg queued (lastSt l0) None = SetBar "Queued..." "queue".
Proof.
  intros queued l0 l. split.
  - destruct (updateProg_is_called_on_change_or_when_running
                mirrored_manager false true (Some "j1") (Some "avif") clock0
                queued l eq_refl) as (_ & H & _).
    apply H.
    + vm_compute. reflexivity.
    + discriminate.
  - destruct (updateProg_is_called_on_change_or_when_running
                mirrored_manager false true (Some "j1") (Some "avif") clock0
                queued l0 eq_refl) as (_ & _ & H).
    destruct H as [_ H]; [left; discriminate|].
    destruct (H None) as (Hq & _). apply Hq. reflexivity.
Defined.

(** ** The start-up check *)

Lemma poll_loop_extends SM mob hist jobId fmt ticks : forall l,
  extends (events (pg l))
    (pg (snd (poll_loop SM mob hist jobId fmt ticks l))).
Proof.
  induction ticks as [|t rest IH]; intros l.
  - simpl. exists []. now rewrite app_nil_r.
  - rewrite poll_loop_cons. destruct t as [|c r].
    + rewrite poll_body_flag_false. destruct (IH (waited l)) as [more E].
      exists (Sleep (interval l) :: more). rewrite E. unfold waited. simpl.
      now rewrite <- app_assoc.
    + destruct (flag_true_turn SM mob hist jobId fmt c r l)
        as (_ & _ & [more E] & _).
      destruct (poll_body SM mob hist jobId fmt (FlagTrue c r) l)
        as [[[x|]|] l']; unfold asked in E; simpl in E |- *;
        rewrite <- app_assoc in E; try (eexists; exact E).
      destruct (IH l') as [more' E']. unfold extends.
      rewrite E', E, <- app_assoc. eexists. reflexivity.
Qed.

Lemma detached_state {A} (m : M page A) p :
  detached m p = (Normal tt, snd (m p)).
Proof. unfold detached, try_catch. unfold_m. now destruct (m p) as [[x|] p']. Qed.

(** [resetForm] and [checkAndResumeJob] are their two halves, run with
    nothing in between, followed in the second case by the poll. *)
Lemma resetForm_halves SM c p :
  resetForm SM c p = (resetForm_begin SM c ;; resetForm_end SM) p.
Proof.
  unfold resetForm, resetForm_begin, resetForm_end, on_store, emit.
  unfold_m.
  destruct (sm_getActiveJob SM (now c) (storage p)) as [[job|] s1]; simpl;
    [|reflexivity].
  destruct (present job); reflexivity.
Qed.

Lemma checkAndResumeJob_halves SM mob hist c r ticks p :
  snd (checkAndResumeJob SM mob hist c r ticks p)
  = snd ((job ← checkAndResumeJob_begin SM c;
          match job with
          | None => mret tt
          | Some _ =>
              polls ← checkAndResumeJob_end SM r;
              if (polls : bool)
              then detached (pollJobStatus SM mob hist (job ≫= job_id_of)
                               (job ≫= format_of) ticks)
              else mret tt
          end) p).
Proof.
  unfold checkAndResumeJob, checkAndResumeJob_begin, checkAndResumeJob_end,
    on_store, emit, try_catch.
  unfold_m.
  destruct (sm_getCompletedResult SM (now c) (storage p)) as [[saved|] s1];
    simpl; [|reflexivity].
  destruct (present saved); simpl.
  - destruct (displayCompletedResult saved _) as [[[]|] p1]; reflexivity.
  - destruct (sm_getActiveJob SM (now c) s1) as [[job|] s2]; simpl;
      [|reflexivity].
    destruct job as [j|]; simpl; [|reflexivity].
    destruct (truthy j); simpl; [|reflexivity].
    destruct r as [|data]; simpl.
    + destruct (sm_clearActiveJob SM s2) as [[[]|] s3]; reflexivity.
    + destruct (negb (String.eqb (status data) "")
                && negb (is_terminal (status data))); simpl.
      * rewrite !detached_state. reflexivity.
      * destruct (sm_clearActiveJob SM s2) as [[[]|] s3]; simpl;
          [reflexivity|].
        destruct (sm_clearActiveJob SM s3) as [[[]|] s4]; reflexivity.
Qed.

(** C8: [checkAndResumeJob] first reads the completed result.  If there is
    one, nothing is asked of the server, no wait is made and the store is
    left as the read left it; the result is rendered: shown under the
    label of its format, and the form is put into its finished state.
    (The format is one that has a label: the five formats of the
    converter have one, and [_complete] stores no result without.)
    Otherwise the active job is read; without one nothing happens.  With
    one, exactly one status request is made for it: if the request fails,
    or the reply carries [done], [error], [cancelled] (or no status), the
    active job is cleared and no poll starts; if the reply carries any
    other status, the resumption is announced and the loop of
    [pollJobStatus] is entered for the stored job and format with the
    error counter at zero, no status seen and the interval at its base
    value: a first turn that finds the flag cleared waits the base
    interval, one that finds it set starts with a request, and a first
    reply that is not terminal is followed by the progress update and a
    wait of the base interval. *)
Theorem resumption_coordinator
    (SM : StorageManager) (mob hist : bool) (c : Clock) (r : response)
    (ticks : list tick) (p : page) :
  shipped SM ->
  let saved := sm_getCompletedResult SM (now c) (storage p) in
  let job := sm_getActiveJob SM (now c) (snd saved) in
  let o := checkAndResumeJob SM mob hist c r ticks p in
  exists res j,
    fst saved = Normal res
    ∧ fst job = Normal j
    ∧ (present res = true ->
         storage (snd o) = snd saved
         ∧ fetches (events (snd o)) = fetches (events p)
         ∧ sleeps (events (snd o)) = sleeps (events p)
         ∧ forall u pr f ts,
             res = Some (JObj (Result u pr f) ts) ->
             (In f ["av1"; "avif"; "webp"; "mp4"; "gif"] ->
              exists label, getFormatLabel f = Some label)
             ∧ forall label,
                 getFormatLabel f = Some label ->
                 fst o = Normal Rendered
                 ∧ events (snd o)
                   = events p ++ [DisplayResult u label pr f; ResetUI true])
    ∧ (present res = false -> present j = false ->
         fst o = Normal Nothing
         ∧ snd o = mkPage (snd job) (events p))
    ∧ (present res = false -> present j = true ->
         let jobId := j ≫= job_id_of in
         let fmt := j ≫= format_of in
         let asked := events p ++ [Fetch (progress_url jobId) 10000] in
         let ask := Fetch (progress_url jobId) (fetch_timeout mob) in
         match r with
         | Failed =>
             fst o = Normal Cleared
             ∧ events (snd o) = asked
             ∧ forall t,
                 fst (sm_getActiveJob SM t (storage (snd o))) = Normal None
         | Replied data =>
             if negb (String.eqb (status data) "")
                && negb (is_terminal (status data))
             then
               fst o = Normal Resumed
               ∧ snd o
                 = pg (snd (poll_loop SM mob hist jobId fmt ticks
                              (mkLoop
                                 (mkPage (snd job) (asked ++ [ShowResumed]))
                                 (baseInt mob) 0 None)))
               ∧ (forall rest,
                    ticks = FlagFalse :: rest ->
                    exists more,
                      events (snd o)
                      = asked ++ [ShowResumed; Sleep (baseInt mob)] ++ more)
               ∧ (forall c1 r1 rest,
                    ticks = FlagTrue c1 r1 :: rest ->
                    exists more,
                      events (snd o) = asked ++ [ShowResumed; ask] ++ more)
               ∧ (forall c1 d1 rest,
                    ticks = FlagTrue c1 (Replied d1) :: rest ->
                    is_terminal (status d1) = false ->
                    exists more,
                      events (snd o)
                      = asked
                        ++ [ShowResumed; ask; UpdateProg d1 None;
                            Sleep (baseInt mob)] ++ more)
             else
               fst o = Normal Cleared
               ∧ events (snd o) = asked
               ∧ forall t,
                   fst (sm_getActiveJob SM t (storage (snd o))) = Normal None
         end).
Proof.
  intros HSM saved job o. subst saved job o.
  destruct (shipped_contract SM HSM) as [absent C].
  destruct (c_getCompleted_total _ _ C (now c) (storage p)) as [res Hres].
  destruct (c_getActive_total _ _ C (now c)
              (snd (sm_getCompletedResult SM (now c) (storage p))))
    as [j Hj].
  exists res, j. split; [exact Hres|]. split; [exact Hj|].
  unfold checkAndResumeJob, on_store. unfold_m.
  destruct (sm_getCompletedResult SM (now c) (storage p)) as [[sv|] s1];
    simpl in Hres, Hj |- *; [|discriminate].
  inversion Hres; subst sv. clear Hres.
  split; [|split].
  - intros Hp. rewrite Hp.
    pose proof (displayCompletedResult_quiet res _ _
                  (mkPage s1 (events p)) (conj eq_refl eq_refl))
      as [HF HW].
    assert (Hst : storage (snd (displayCompletedResult res
                                  (mkPage s1 (events p)))) = s1).
    { unfold displayCompletedResult.
      destruct (getFormatLabel _); unfold emit, throw; unfold_m;
        reflexivity. }
    split; [|split; [|split]].
    + destruct (displayCompletedResult res (mkPage s1 (events p)))
        as [[[]|] p1]; exact Hst.
    + destruct (displayCompletedResult res (mkPage s1 (events p)))
        as [[[]|] p1]; exact HF.
    + destruct (displayCompletedResult res (mkPage s1 (events p)))
        as [[[]|] p1]; exact HW.
    + intros u pr f ts ->. split.
      * simpl. intros Hin.
        repeat destruct Hin as [<- | Hin]; try (eexists; reflexivity).
        destruct Hin.
      * intros label Hl. unfold displayCompletedResult. simpl. rewrite Hl.
        unfold emit. unfold_m. simpl.
        split; [reflexivity|]. now rewrite <- app_assoc.
  - intros Hp Hjp. rewrite Hp. simpl.
    destruct (sm_getActiveJob SM (now c) s1) as [[jv|] s2];
      simpl in Hj |- *; [|discriminate].
    inversion Hj; subst jv. now rewrite Hjp.
  - intros Hp Hjp. rewrite Hp. simpl.
    destruct (sm_getActiveJob SM (now c) s1) as [[jv|] s2];
      simpl in Hj |- *; [|discriminate].
    inversion Hj; subst jv. rewrite Hjp. simpl.
    destruct (c_clearActive_total _ _ C s2) as [[] Ht].
    pose proof (c_clearActive_makes _ _ C s2) as Hm.
    assert (Hg : forall t,
      fst (sm_getActiveJob SM t (snd (sm_clearActiveJob SM s2)))
      = Normal None).
    { intros t. now apply (c_getActive_absent _ _ C). }
    destruct r as [|data].
    + simpl.
      destruct (sm_clearActiveJob SM s2) as [[[]|] s3];
        simpl in *; [auto|discriminate].
    + destruct (negb (String.eqb (status data) "")
                && negb (is_terminal (status data))); simpl.
      * rewrite detached_state. simpl.
        rewrite pollJobStatus_eq. unfold reached. simpl.
        rewrite <- app_assoc. simpl.
        split; [reflexivity|]. split; [reflexivity|].
        set (jid := option_bind _ _ job_id_of j).
        set (fm := option_bind _ _ format_of j).
        set (l0 := mkLoop _ _ _ _).
        split; [|split].
        -- intros rest ->. rewrite poll_loop_cons, poll_body_flag_false.
           destruct (poll_loop_extends SM mob hist jid fm rest (waited l0))
             as [more E].
           exists more. rewrite E. unfold waited, l0. simpl.
           now rewrite <- !app_assoc.
        -- intros c1 r1 rest ->.
           destruct (poll_loop_extends SM mob hist jid fm rest
                       (snd (poll_body SM mob hist jid fm (FlagTrue c1 r1)
                               l0)))
             as [m2 E2].
           destruct (flag_true_turn SM mob hist jid fm c1 r1 l0)
             as (_ & _ & [m0 E0] & _).
           rewrite poll_loop_cons.
           destruct (poll_body SM mob hist jid fm (FlagTrue c1 r1) l0)
             as [[[x|]|] l']; unfold asked, l0 in E0; simpl in E0, E2 |- *.
           ++ exists m0. rewrite E0. now rewrite <- !app_assoc.
           ++ exists (m0 ++ m2). rewrite E2, E0.
              now rewrite <- !app_assoc.
           ++ exists m0. rewrite E0. now rewrite <- !app_assoc.
        -- intros c1 d1 rest -> Hnt.
           rewrite poll_loop_cons,
             (running_turn SM mob hist jid fm c1 d1 l0 Hnt).
           destruct (poll_loop_extends SM mob hist jid fm rest
                       (waited (replied mob jid d1 l0)))
             as [more E].
           exists more. rewrite E. unfold waited, replied, asked, l0. simpl.
           now rewrite <- !app_assoc.
      * destruct (sm_clearActiveJob SM s2) as [[[]|] s3];
          simpl in *; [auto|discriminate].
Qed.

(** A page load that finds a stored result renders it; one that finds a
    job the server reports as running resumes the poll, whose first turn
    asks, updates the progress and waits the base interval; one that
    finds a job the server reports as done (Scenario E of the
    specification) clears it. *)
Lemma resumption_coordinator_witness :
  (let p := blank (snd (Mirrored.saveCompletedResult "/out/j1.avif" None
                          "avif" 0 empty_store)) in
   let o := checkAndResumeJob mirrored_manager false true
              (mkClock 60000 "1/1/1970, 12:01:00 AM") Failed [] p in
   fst o = Normal Rendered
   ∧ events (snd o)
     = events p ++ [DisplayResult "/out/j1.avif" "AVIF" None "avif";
                    ResetUI true])
  ∧ (let p := blank (job_store "j1" "avif" 0) in
     let running := mkStatusData "running" None None "/out/j1.avif" None in
     let o := checkAndResumeJob mirrored_manager false true clock0
                (Replied running) [FlagTrue clock0 (Replied running)] p in
     fst o = Normal Resumed
     ∧ exists more,
         events (snd o)
         = (events p ++ [Fetch (progress_url (Some "j1")) 10000])
           ++ [ShowResumed;
               Fetch (progress_url (Some "j1")) (fetch_timeout false);
               UpdateProg running None;
               Sleep (baseInt false)] ++ more)
  ∧ (let p := blank (job_store "j1" "avif" 0) in
     let o := checkAndResumeJob mirrored_manager false true clock0
                (reply "done") [] p in
     fst o = Normal Cleared
     ∧ fetches (events (snd o)) = ["/progress/j1"]
     ∧ fst (Mirrored.getActiveJob 1 (storage (snd o))) = Normal None).
Proof.
  split; [|split].
  - intros p o.
    destruct (resumption_coordinator mirrored_manager false true
                (mkClock 60000 "1/1/1970, 12:01:00 AM") Failed [] p
                (or_intror eq_refl))
      as (res & j & Hres & _ & H & _).
    vm_compute in Hres. inversion Hres; subst res.
    destruct (H eq_refl) as (_ & _ & _ & Hr).
    destruct (Hr "/out/j1.avif" None "avif" (Some 0%Z) eq_refl) as [_ Hr'].
    exact (Hr' "AVIF" eq_refl).
  - intros p running o.
    destruct (resumption_coordinator mirrored_manager false true clock0
                (Replied running) [FlagTrue clock0 (Replied running)] p
                (or_intror eq_refl))
      as (res & j & Hres & Hj & _ & _ & H).
    vm_compute in Hres. inversion Hres; subst res.
    vm_compute in Hj. inversion Hj; subst j.
    specialize (H eq_refl eq_refl). cbv zeta in H.
    change (negb (String.eqb (status running) "")
            && negb (is_terminal (status running)))
      with true in H.
    cbv iota in H. destruct H as (H1 & _ & _ & _ & H2).
    split; [exact H1|].
    exact (H2 clock0 running [] eq_refl eq_refl).
  - intros p o.
    destruct (resumption_coordinator mirrored_manager false true clock0
                (reply "done") [] p (or_intror eq_refl))
      as (res & j & Hres & Hj & _ & _ & H).
    vm_compute in Hres. inversion Hres; subst res.
    vm_compute in Hj. inversion Hj; subst j.
    specialize (H eq_refl eq_refl). cbv zeta in H.
    change (negb (String.eqb (status (mkStatusData "done" None None
                                        "/out/j1.avif" None)) "")
            && negb (is_terminal (status (mkStatusData "done" None None
                                            "/out/j1.avif" None))))
      with false in H.
    cbv iota in H. destruct H as (H1 & H2 & H3).
    split; [exact H1|]. split; [|apply (H3 1%Z)].
    subst o. rewrite H2. vm_compute. reflexivity.
Defined.

(** ** Completion *)

(** [_complete], given how each of its calls into the storage manager
    ends. *)
Lemma complete_run SM hist data fmt c p f0 label s1 s2 s3 s4 s5 auto h :
  or_else (d_format data) fmt = Some f0 ->
  let f := toLowerCase f0 in
  getFormatLabel f = Some label ->
  sm_clearActiveJob SM (storage p) = (Normal tt, s1) ->
  sm_saveCompletedResult SM (gif_url data) (d_params data) f (now c) s1
  = (Normal tt, s2) ->
  sm_saveToHistory SM (gif_url data) f (d_params data) (now c) (date c) s2
  = (Normal tt, s3) ->
  sm_getAutoDownload SM s3 = (Normal auto, s4) ->
  sm_getHistory SM (now c) s4 = (Normal h, s5) ->
  _complete SM hist data fmt c p
  = (Normal tt,
     mkPage (if hist then s5 else s4)
       (events p ++ completion_events hist auto data f label h)).
Proof.
  intros Hf f Hl H1 H2 H3 H4 H5. unfold _complete. rewrite Hf.
  fold f. rewrite Hl.
  unfold on_store, emit, completion_events. unfold_m. simpl.
  rewrite H1. simpl. fold f. rewrite H2. simpl. rewrite H3. simpl.
  rewrite H4. simpl.
  destruct auto, hist; simpl; rewrite ?H5; simpl;
    rewrite <- ?app_assoc; simpl; rewrite ?app_nil_r; reflexivity.
Qed.

Lemma filter_fresh t H :
  Forall (fun e => fresh t e = true) (List.filter (fresh t) H).
Proof.
  apply List.Forall_forall. intros x Hx. apply List.filter_In in Hx. tauto.
Qed.

Lemma fresh_of_same_length t H :
  negb (length (List.filter (fresh t) H) =? length H)%nat = false ->
  Forall (fun x => fresh t x = true) H.
Proof.
  intros E. apply negb_false_iff, Nat.eqb_eq in E.
  rewrite <- (filter_same_length _ _ E). apply filter_fresh.
Qed.

Lemma fresh_now u f p t d : fresh t (mkHistoryEntry u f p t d) = true.
Proof. unfold fresh. simpl. apply Z.ltb_lt. unfold TTL. lia. Qed.

Lemma direct_push_head t e h :
  fresh t e = true -> Forall (fun x => fresh t x = true) h ->
  exists rest,
    Direct.push_entry e h = e :: rest
    ∧ Forall (fun x => fresh t x = true) (e :: rest).
Proof.
  intros He Hh. unfold Direct.push_entry.
  destruct (Direct.MAX_HISTORY_ITEMS <? length (e :: h))%nat eqn:E.
  - destruct h as [|x h']; [discriminate|].
    exists (removelast (x :: h')). split; [reflexivity|].
    constructor; [exact He|].
    rewrite removelast_firstn_len. now apply Forall_take.
  - exists h. split; [reflexivity|]. now constructor.
Qed.

Lemma mirrored_push_head t e h :
  fresh t e = true -> Forall (fun x => fresh t x = true) h ->
  exists rest,
    Mirrored.push_entry e h = e :: rest
    ∧ Forall (fun x => fresh t x = true) (e :: rest).
Proof.
  intros He Hh. rewrite mirrored_push_entry.
  exists (firstn 2 h). split; [reflexivity|].
  constructor; [exact He|]. now apply Forall_take.
Qed.

(** The storage functions [_complete] calls, on a [localStorage] that
    accepts writes. *)
Lemma direct_saveToHistory_writable u f p t d C it :
  exists h,
    Forall (fun x => fresh t x = true) h
    ∧ Direct.saveToHistory u f p t d (mkStore C (Some (mkStorage it false)))
      = (Normal tt,
         mkStore C
           (Some (mkStorage
                    (<["conversionHistory" :=
                         Str (JArr (Direct.push_entry
                                      (mkHistoryEntry u f p t d) h))]> it)
                    false))).
Proof.
  unfold Direct.saveToHistory, Direct.getHistory.
  unfold_prims. unfold_m. simpl.
  destruct (it !! "conversionHistory") as [[[v ts|H|b|]| |]|]; simpl;
    try (exists []; split; [constructor|reflexivity]).
  exists (List.filter (fresh t) H). split; [apply filter_fresh|].
  destruct (negb (length (List.filter (fresh t) H) =? length H)%nat); simpl;
    rewrite ?insert_insert_eq; reflexivity.
Qed.

Lemma direct_getHistory_fresh t C it q H :
  it !! "conversionHistory" = Some (Str (JArr H)) ->
  Forall (fun x => fresh t x = true) H ->
  Direct.getHistory t (mkStore C (Some (mkStorage it q)))
  = (Normal H, mkStore C (Some (mkStorage it q))).
Proof.
  intros Hd Hf. unfold Direct.getHistory. unfold_prims. unfold_m. simpl.
  rewrite Hd. simpl. rewrite (filter_all_true _ _ Hf), Nat.eqb_refl.
  reflexivity.
Qed.

Lemma mirrored_saveToHistory_writable u f p t d C it :
  exists h,
    Forall (fun x => fresh t x = true) h
    ∧ Mirrored.saveToHistory u f p t d (mkStore C (Some (mkStorage it false)))
      = (Normal tt,
         mkStore
           (<["conversionHistory" :=
                JArr (Mirrored.push_entry (mkHistoryEntry u f p t d) h)]> C)
           (Some (mkStorage
                    (<["conversionHistory" :=
                         Str (JArr (Mirrored.push_entry
                                      (mkHistoryEntry u f p t d) h))]> it)
                    false))).
Proof.
  unfold Mirrored.saveToHistory, Mirrored.getHistory_ref.
  unfold_prims. unfold_m. simpl.
  destruct (C !! "conversionHistory") as [[v ts|H|b|]|] eqn:Ec; simpl;
    [ | | destruct b; simpl | | ].
  2:{ destruct (negb (length (List.filter (fresh t) H) =? length H)%nat)
        eqn:E; simpl; rewrite ?insert_insert_eq;
        eexists; (split; [|reflexivity]); first [apply filter_fresh|now apply fresh_of_same_length]. }
  all: try (exists []; split; [constructor|reflexivity]).
  all: destruct (it !! "conversionHistory") as [[[v' ts'|H'|b'|]| |]|]
         eqn:Ei; simpl;
       try (exists []; split; [constructor|reflexivity]).
  all: destruct (negb (length (List.filter (fresh t) H') =? length H')%nat)
         eqn:E; simpl; rewrite ?insert_insert_eq;
         eexists; (split; [|reflexivity]); first [apply filter_fresh|now apply fresh_of_same_length].
Qed.


Lemma mirrored_getHistory_fresh t C ls H :
  C !! "conversionHistory" = Some (JArr H) ->
  Forall (fun x => fresh t x = true) H ->
  Mirrored.getHistory t (mkStore C ls) = (Normal H, mkStore C ls).
Proof.
  intros Hc Hf. unfold Mirrored.getHistory, Mirrored.getHistory_ref.
  unfold_prims. unfold_m. simpl. rewrite Hc. simpl.
  rewrite (filter_all_true _ _ Hf), Nat.eqb_refl. simpl.
  now rewrite (insert_id _ _ _ Hc).
Qed.

(** [_complete] on a [localStorage] that accepts writes. *)
Lemma complete_spec
    (SM : StorageManager) (hist : bool) (data : StatusData)
    (fmt : option string) (c : Clock) (p : page) (f0 label : string) :
  shipped SM ->
  write_fails (storage p) = false ->
  or_else (d_format data) fmt = Some f0 ->
  let f := toLowerCase f0 in
  getFormatLabel f = Some label ->
  let e := mkHistoryEntry (gif_url data) f (d_params data) (now c) (date c) in
  let o := _complete SM hist data fmt c p in
  fst o = Normal tt
  ∧ durable "activeJob" (storage (snd o)) = None
  ∧ durable "completedResult" (storage (snd o))
    = Some (Str (JObj (Result (gif_url data) (d_params data) f)
                   (Some (now c))))
  ∧ exists rest,
      durable "conversionHistory" (storage (snd o))
      = Some (Str (JArr (e :: rest)))
      ∧ events (snd o)
        = events p
          ++ completion_events hist (auto_download_on (storage p)) data f
               label (e :: rest).
Proof.
  intros HSM Hw Hf f Hl e o. subst o.
  destruct p as [[C [[it q]|]] ev]; unfold write_fails in Hw; simpl in Hw;
    [subst q|discriminate].
  assert (Hauto : forall C' v w x,
    auto_download_on
      (mkStore C'
         (Some (mkStorage
                  (<["conversionHistory" := v]>
                     (delete "activeJob"
                        (<["completedResult" := w]>
                           (delete "activeJob" it)))) x)))
    = auto_download_on (mkStore C (Some (mkStorage it false)))).
  { intros C' v w x. unfold auto_download_on, durable. simpl.
    rewrite lookup_insert_ne, lookup_delete_ne, lookup_insert_ne,
      lookup_delete_ne by discriminate. reflexivity. }
  destruct HSM as [-> | ->].
  - destruct (direct_saveToHistory_writable (gif_url data) f (d_params data)
                (now c) (date c) C
                (delete "activeJob"
                   (<["completedResult" :=
                        Str (JObj (Result (gif_url data) (d_params data) f)
                               (Some (now c)))]>
                      (delete "activeJob" it))))
      as (h & Hh & H3).
    destruct (direct_push_head (now c) e h (fresh_now _ _ _ _ _) Hh)
      as (rest & Hp & Hfr).
    fold e in H3. rewrite Hp in H3.
    match type of H3 with
    | _ = (_, ?s3) =>
        rewrite (complete_run direct_manager hist data fmt c
                   (mkPage (mkStore C (Some (mkStorage it false))) ev) f0
                   label
                   (mkStore C
                      (Some (mkStorage (delete "activeJob" it) false)))
                   (mkStore C
                      (Some (mkStorage
                               (delete "activeJob"
                                  (<["completedResult" :=
                                       Str (JObj (Result (gif_url data)
                                                    (d_params data) f)
                                              (Some (now c)))]>
                                     (delete "activeJob" it))) false)))
                   s3 s3 s3 (auto_download_on s3) (e :: rest) Hf Hl
                   eq_refl eq_refl H3)
    end.
    + simpl. rewrite Hauto. unfold durable. simpl.
      split; [reflexivity|]. split; [|split; [|exists rest; split]].
      * destruct hist; simpl;
          now rewrite lookup_insert_ne, lookup_delete_eq by discriminate.
      * destruct hist; simpl;
          now rewrite lookup_insert_ne, lookup_delete_ne, lookup_insert_eq
            by discriminate.
      * destruct hist; simpl; now rewrite lookup_insert_eq.
      * reflexivity.
    + reflexivity.
    + apply direct_getHistory_fresh; [apply lookup_insert_eq|exact Hfr].
  - destruct (mirrored_saveToHistory_writable (gif_url data) f
                (d_params data) (now c) (date c)
                (delete "activeJob"
                   (<["completedResult" :=
                        JObj (Result (gif_url data) (d_params data) f)
                          (Some (now c))]>
                      (delete "activeJob" C)))
                (delete "activeJob"
                   (<["completedResult" :=
                        Str (JObj (Result (gif_url data) (d_params data) f)
                               (Some (now c)))]>
                      (delete "activeJob" it))))
      as (h & Hh & H3).
    destruct (mirrored_push_head (now c) e h (fresh_now _ _ _ _ _) Hh)
      as (rest & Hp & Hfr).
    fold e in H3. rewrite Hp in H3.
    match type of H3 with
    | _ = (_, ?s3) =>
        rewrite (complete_run mirrored_manager hist data fmt c
                   (mkPage (mkStore C (Some (mkStorage it false))) ev) f0
                   label
                   (mkStore (delete "activeJob" C)
                      (Some (mkStorage (delete "activeJob" it) false)))
                   (mkStore (delete "activeJob"
                   (<["completedResult" :=
                        JObj (Result (gif_url data) (d_params data) f)
                          (Some (now c))]>
                      (delete "activeJob" C)))
                      (Some (mkStorage
                               (delete "activeJob"
                                  (<["completedResult" :=
                                       Str (JObj (Result (gif_url data)
                                                    (d_params data) f)
                                              (Some (now c)))]>
                                     (delete "activeJob" it))) false)))
                   s3 s3 s3 (auto_download_on s3) (e :: rest) Hf Hl
                   eq_refl eq_refl H3)
    end.
    + simpl. rewrite Hauto. unfold durable. simpl.
      split; [reflexivity|]. split; [|split; [|exists rest; split]].
      * destruct hist; simpl;
          now rewrite lookup_insert_ne, lookup_delete_eq by discriminate.
      * destruct hist; simpl;
          now rewrite lookup_insert_ne, lookup_delete_ne, lookup_insert_eq
            by discriminate.
      * destruct hist; simpl; now rewrite lookup_insert_eq.
      * reflexivity.
    + reflexivity.
    + apply mirrored_getHistory_fresh; [apply lookup_insert_eq|exact Hfr].
Qed.

(** [_complete] for a format whose label lookup yields an inherited
    member: the exception of [label.toLowerCase()] in [displayResult]
    leaves it after the active job was cleared and the success message
    shown. *)
Lemma complete_unlabelled
    (SM : StorageManager) (hist : bool) (data : StatusData)
    (fmt : option string) (c : Clock) (p : page) (f0 : string) :
  shipped SM ->
  write_fails (storage p) = false ->
  or_else (d_format data) fmt = Some f0 ->
  getFormatLabel (toLowerCase f0) = None ->
  let o := _complete SM hist data fmt c p in
  fst o = Throw
  ∧ durable "completedResult" (storage (snd o))
    = durable "completedResult" (storage p)
  ∧ events (snd o) = events p ++ [ShowSuccess].
Proof.
  intros HSM Hw Hf Hl o. subst o. unfold _complete. rewrite Hf, Hl.
  destruct p as [[C [[it q]|]] ev]; unfold write_fails in Hw; simpl in Hw;
    [subst q|discriminate].
  destruct HSM as [-> | ->]; unfold on_store, emit; unfold_m; simpl;
    unfold durable; simpl;
    (split; [reflexivity|]); (split; [|reflexivity]);
    now rewrite lookup_delete_ne by discriminate.
Qed.

(** When [localStorage] accepts writes and the format has a label,
    [_complete] returns and leaves the store with no active job, with the
    completed result under the lower-cased format and the time of
    completion, and with a history headed by the new entry.  It shows the
    success message, the result and the reset form, starts the download
    exactly when the stored preference is on, and last hands the history,
    as just stored, to the history display if there is one.  When the
    label lookup yields an inherited member (the formats [constructor]
    and [__proto__]), [_complete] throws after the success message: no
    result is shown or stored. *)
Theorem complete_persists_the_result
    (SM : StorageManager) (hist : bool) (data : StatusData)
    (fmt : option string) (c : Clock) (p : page) (f0 : string) :
  shipped SM ->
  write_fails (storage p) = false ->
  or_else (d_format data) fmt = Some f0 ->
  let f := toLowerCase f0 in
  let e := mkHistoryEntry (gif_url data) f (d_params data) (now c) (date c) in
  let o := _complete SM hist data fmt c p in
  match getFormatLabel f with
  | Some label =>
      fst o = Normal tt
      ∧ durable "activeJob" (storage (snd o)) = None
      ∧ durable "completedResult" (storage (snd o))
        = Some (Str (JObj (Result (gif_url data) (d_params data) f)
                       (Some (now c))))
      ∧ exists rest,
          durable "conversionHistory" (storage (snd o))
          = Some (Str (JArr (e :: rest)))
          ∧ events (snd o)
            = events p
              ++ completion_events hist (auto_download_on (storage p)) data
                   f label (e :: rest)
  | None =>
      fst o = Throw
      ∧ durable "completedResult" (storage (snd o))
        = durable "completedResult" (storage p)
      ∧ events (snd o) = events p ++ [ShowSuccess]
  end.
Proof.
  intros HSM Hw Hf f e o.
  destruct (getFormatLabel f) as [label|] eqn:Hl.
  - exact (complete_spec SM hist data fmt c p f0 label HSM Hw Hf Hl).
  - exact (complete_unlabelled SM hist data fmt c p f0 HSM Hw Hf Hl).
Qed.

Lemma complete_persists_the_result_witness :
  let data := mkStatusData "done" None None "/out/j1.avif" None in
  let e := mkHistoryEntry "/out/j1.avif" "avif" None 0 "1/1/1970, 12:00:00 AM" in
  let o := _complete mirrored_manager true data (Some "AVIF") clock0
             (blank (job_store "j1" "avif" 0)) in
  fst o = Normal tt
  ∧ durable "activeJob" (storage (snd o)) = None
  ∧ durable "completedResult" (storage (snd o))
    = Some (Str (JObj (Result "/out/j1.avif" None "avif") (Some 0%Z)))
  ∧ exists rest,
      durable "conversionHistory" (storage (snd o))
      = Some (Str (JArr (e :: rest)))
      ∧ events (snd o)
        = events (blank (job_store "j1" "avif" 0))
          ++ completion_events true
               (auto_download_on (storage (blank (job_store "j1" "avif" 0))))
               data "avif" "AVIF" (e :: rest).
Proof.
  apply (complete_persists_the_result mirrored_manager true
           (mkStatusData "done" None None "/out/j1.avif" None) (Some "AVIF")
           clock0 (blank (job_store "j1" "avif" 0)) "AVIF").
  - right. reflexivity.
  - reflexivity.
  - reflexivity.
Defined.

(** With the mirrored listing and no usable [localStorage], any number of
    [done] replies leaves the poll running. *)
Lemma done_never_ends_without_localStorage_witness :
  let l := mkLoop (blank no_storage) (baseInt true) 0 None in
  let ticks := repeat (FlagTrue clock0 (reply "done")) 4 in
  let o := poll_loop mirrored_manager true false (Some "j1") (Some "webp")
             ticks l in
  fst o = Normal None
  ∧ fetches (events (pg (snd o)))
    = fetches (events (pg l))
      ++ repeat (progress_url (Some "j1")) (length ticks).
Proof.
  apply (done_never_ends_without_localStorage true false (Some "j1") "webp"
           (repeat (FlagTrue clock0 (reply "done")) 4)
           (mkLoop (blank no_storage) (baseInt true) 0 None)).
  - reflexivity.
  - repeat constructor.
Defined.

(** ** A reply with [error] or [cancelled] *)

Section Failed.
Variable SM : StorageManager.
Variable absent : string -> store -> Prop.
Hypothesis C : contract SM absent.
Variables isMobile hist : bool.
Variables jobId fmt : option string.

Lemma failed_reply_turn c data l :
  status data = "error" ∨ status data = "cancelled" ->
  exists s1,
    absent "activeJob" s1
    ∧ poll_body SM isMobile hist jobId fmt (FlagTrue c (Replied data)) l
      = (Normal (Some JobFailed),
         with_page (replied isMobile jobId data l)
           (mkPage s1
              (events (pg (replied isMobile jobId data l))
               ++ [ShowError (String.eqb (status data) "cancelled")
                     (message data);
                   ResetUI false]))).
Proof.
  intros Hst. rewrite poll_body_flag_true. unfold try_catch.
  rewrite try_block_replied.
  assert (E1 : String.eqb (status data) "done" = false)
    by (destruct Hst as [-> | ->]; reflexivity).
  assert (E2 : String.eqb (status data) "error"
               || String.eqb (status data) "cancelled" = true)
    by (destruct Hst as [-> | ->]; reflexivity).
  rewrite E1, E2, on_page_then. unfold _err, on_store, emit. unfold_m.
  pose proof (c_clearActive_makes _ _ C
                (storage (pg (replied isMobile jobId data l)))) as Hm.
  destruct (c_clearActive_total _ _ C
              (storage (pg (replied isMobile jobId data l)))) as [[] Ht].
  destruct (sm_clearActiveJob SM _) as [[[]|] s1]; simpl in *;
    [|discriminate].
  exists s1. split; [exact Hm|]. unfold with_page. simpl.
  now rewrite <- app_assoc.
Qed.
End Failed.

(** A reply with status [error] or [cancelled] ends the poll at once,
    whatever would have come next: the active job is cleared, the error is
    shown, flagged as a cancellation exactly when the status is
    [cancelled], and the form is reset. *)
Theorem error_or_cancelled_reply_ends_the_poll
    (SM : StorageManager) (mob hist : bool) (jobId fmt : option string)
    (before more : list tick) (c : Clock) (data : StatusData) (p : page) :
  shipped SM ->
  fst (pollJobStatus SM mob hist jobId fmt before p) = Normal None ->
  status data = "error" ∨ status data = "cancelled" ->
  let o := pollJobStatus SM mob hist jobId fmt
             (before ++ FlagTrue c (Replied data) :: more) p in
  fst o = Normal (Some JobFailed)
  ∧ (forall t, fst (sm_getActiveJob SM t (storage (snd o))) = Normal None)
  ∧ (exists pre,
       events (snd o)
       = pre ++ [ShowError (String.eqb (status data) "cancelled")
                   (message data);
                 ResetUI false])
  ∧ o = pollJobStatus SM mob hist jobId fmt
          (before ++ [FlagTrue c (Replied data)]) p.
Proof.
  intros HSM Hb Hst o. subst o.
  destruct (shipped_contract SM HSM) as [absent C].
  rewrite pollJobStatus_eq in Hb. simpl in Hb.
  rewrite !pollJobStatus_eq, !reached_app.
  destruct (reached SM mob hist jobId fmt before p) as [[[x|]|] l];
    simpl in Hb; try discriminate.
  rewrite !poll_loop_cons.
  destruct (failed_reply_turn SM absent C mob hist jobId fmt c data l Hst)
    as (s1 & Hn & ->).
  simpl. split; [reflexivity|]. split; [|split; [|reflexivity]].
  - intros t. now apply (c_getActive_absent _ _ C).
  - eexists. reflexivity.
Qed.

Lemma error_or_cancelled_reply_ends_the_poll_witness :
  let data := mkStatusData "cancelled" (Some "by user") None "" None in
  let o := pollJobStatus direct_manager false true (Some "j1") (Some "avif")
             ([FlagTrue clock0 (reply "running")]
              ++ FlagTrue clock0 (Replied data) :: [timeout_tick])
             (blank (job_store "j1" "avif" 0)) in
  fst o = Normal (Some JobFailed)
  ∧ (forall t,
       fst (sm_getActiveJob direct_manager t (storage (snd o)))
       = Normal None)
  ∧ (exists pre,
       events (snd o)
       = pre ++ [ShowError (String.eqb (status data) "cancelled")
                   (message data);
                 ResetUI false])
  ∧ o = pollJobStatus direct_manager false true (Some "j1") (Some "avif")
          ([FlagTrue clock0 (reply "running")]
           ++ [FlagTrue clock0 (Replied data)])
          (blank (job_store "j1" "avif" 0)).
Proof.
  apply (error_or_cancelled_reply_ends_the_poll direct_manager false true
           (Some "j1") (Some "avif") [FlagTrue clock0 (reply "running")]
           [timeout_tick] clock0
           (mkStatusData "cancelled" (Some "by user") None "" None)
           (blank (job_store "j1" "avif" 0))).
  - left. reflexivity.
  - vm_compute. reflexivity.
  - right. reflexivity.
Defined.

(** ** Across a page load *)

(** Reads of a slot right after a page load, when the mirror is empty. *)
Lemma direct_get_fresh_eq key clearFn t C ls v ts :
  items ls !! key = Some (Str (JObj v (Some ts))) ->
  (t - ts <= TTL)%Z ->
  Direct.getFromStorage key clearFn t (mkStore C (Some ls))
  = (Normal (Some (JObj v (Some ts))), mkStore C (Some ls)).
Proof.
  intros Hd Ht. unfold Direct.getFromStorage, expired.
  unfold_prims. unfold_m. simpl. rewrite Hd. simpl.
  destruct (t - ts >? TTL)%Z eqn:E; [lia|reflexivity].
Qed.

Lemma direct_get_none_eq key clearFn t C ls :
  items ls !! key = None ->
  Direct.getFromStorage key clearFn t (mkStore C (Some ls))
  = (Normal None, mkStore C (Some ls)).
Proof.
  intros Hd. unfold Direct.getFromStorage.
  unfold_prims. unfold_m. simpl. now rewrite Hd.
Qed.

Lemma direct_get_expired_eq key t C it q v ts :
  it !! key = Some (Str (JObj v (Some ts))) ->
  (t - ts > TTL)%Z ->
  Direct.getFromStorage key (Direct.clearFromStorage key) t
    (mkStore C (Some (mkStorage it q)))
  = (Normal None, mkStore C (Some (mkStorage (delete key it) q))).
Proof.
  intros Hd Ht. unfold Direct.getFromStorage, Direct.clearFromStorage, expired.
  unfold_prims. unfold_m. simpl. rewrite Hd. simpl.
  destruct (t - ts >? TTL)%Z eqn:E; [reflexivity|lia].
Qed.

Lemma mirrored_get_fresh_eq key b t it q v ts :
  it !! key = Some (Str (JObj v (Some ts))) ->
  (t - ts <= TTL)%Z ->
  Mirrored._get key b t (mkStore ∅ (Some (mkStorage it q)))
  = (Normal (Some (JObj v (Some ts))),
     mkStore {[ key := JObj v (Some ts) ]} (Some (mkStorage it q))).
Proof.
  intros Hd Ht. unfold Mirrored._get, expired.
  unfold_prims. unfold_m. simpl. rewrite lookup_empty. simpl.
  rewrite Hd. simpl.
  destruct (t - ts >? TTL)%Z eqn:E; [lia|reflexivity].
Qed.

Lemma mirrored_get_none_eq key b t CA it q :
  CA !! key = None ->
  it !! key = None ->
  Mirrored._get key b t (mkStore CA (Some (mkStorage it q)))
  = (Normal None, mkStore CA (Some (mkStorage it q))).
Proof.
  intros Hc Hd. unfold Mirrored._get.
  unfold_prims. unfold_m. simpl. rewrite Hc. simpl. now rewrite Hd.
Qed.

Lemma mirrored_get_expired_eq key b t it q v ts :
  it !! key = Some (Str (JObj v (Some ts))) ->
  (t - ts > TTL)%Z ->
  Mirrored._get key b t (mkStore ∅ (Some (mkStorage it q)))
  = (Normal None, mkStore ∅ (Some (mkStorage (delete key it) q))).
Proof.
  intros Hd Ht. unfold Mirrored._get, Mirrored._clear, expired.
  unfold_prims. unfold_m. simpl. rewrite lookup_empty. simpl.
  rewrite Hd. simpl.
  destruct (t - ts >? TTL)%Z eqn:E; [|lia]. simpl.
  now rewrite delete_insert_eq, delete_empty.
Qed.

(** A result stored by [_complete], which stores one only for a format
    that has a label, is shown again by the next page load within the
    TTL, as it was shown at completion and without any request; a page
    load after the TTL shows nothing and removes the stored result. *)
Theorem completed_result_is_shown_again_after_reload
    (SM : StorageManager) (mob hist hist' : bool) (data : StatusData)
    (fmt : option string) (c c' : Clock) (r : response) (ticks : list tick)
    (p : page) (f0 label : string) :
  shipped SM ->
  write_fails (storage p) = false ->
  or_else (d_format data) fmt = Some f0 ->
  let f := toLowerCase f0 in
  getFormatLabel f = Some label ->
  let completed := snd (_complete SM hist data fmt c p) in
  let o := (reload ;; checkAndResumeJob SM mob hist' c' r ticks) completed in
  ((now c' - now c <= TTL)%Z ->
     fst o = Normal Rendered
     ∧ events (snd o)
       = events completed
         ++ [DisplayResult (gif_url data) label (d_params data) f;
             ResetUI true])
  ∧ ((now c' - now c > TTL)%Z ->
     fst o = Normal Nothing
     ∧ events (snd o) = events completed
     ∧ durable "completedResult" (storage (snd o)) = None).
Proof.
  intros HSM Hw Hf f Hl completed o.
  destruct (complete_spec SM hist data fmt c p f0 label HSM Hw Hf Hl)
    as (_ & Haj & Hcr & _).
  fold f in Hcr. fold completed in Haj, Hcr. subst o.
  destruct completed as [[CA [[it q]|]] ev]; unfold durable in *;
    simpl in Haj, Hcr; [|discriminate].
  unfold reload, checkAndResumeJob, on_store. unfold_m. simpl.
  destruct HSM as [-> | ->]; simpl;
    unfold Direct.getCompletedResult, Direct.getActiveJob,
      Direct.clearCompletedResult, Direct.clearActiveJob,
      Mirrored.getCompletedResult, Mirrored.getActiveJob.
  - split; intros Ht.
    + rewrite (direct_get_fresh_eq "completedResult" _ (now c') ∅
                 (mkStorage it q) _ _ Hcr Ht). simpl.
      unfold displayCompletedResult. simpl. rewrite Hl.
      unfold emit. unfold_m. simpl.
      now rewrite <- app_assoc.
    + rewrite (direct_get_expired_eq _ _ _ _ _ _ _ Hcr Ht). simpl.
      rewrite direct_get_none_eq
        by (simpl; now rewrite lookup_delete_ne by discriminate).
      simpl. split; [reflexivity|]. split; [reflexivity|].
      apply lookup_delete_eq.
  - split; intros Ht.
    + rewrite (mirrored_get_fresh_eq _ _ _ _ _ _ _ Hcr Ht). simpl.
      unfold displayCompletedResult. simpl. rewrite Hl.
      unfold emit. unfold_m. simpl.
      now rewrite <- app_assoc.
    + rewrite (mirrored_get_expired_eq _ _ _ _ _ _ _ Hcr Ht). simpl.
      rewrite mirrored_get_none_eq;
        [|apply lookup_empty|now rewrite lookup_delete_ne by discriminate].
      simpl. split; [reflexivity|]. split; [reflexivity|].
      apply lookup_delete_eq.
Qed.

Lemma completed_result_is_shown_again_after_reload_witness :
  let data := mkStatusData "done" None None "/out/j1.avif" None in
  let completed := snd (_complete mirrored_manager true data (Some "AVIF")
                          clock0 (blank (job_store "j1" "avif" 0))) in
  let o := (reload ;;
            checkAndResumeJob mirrored_manager false true
              (mkClock 3600000 "1/1/1970, 1:00:00 AM") Failed []) completed in
  fst o = Normal Rendered
  ∧ events (snd o)
    = events completed
      ++ [DisplayResult "/out/j1.avif" "AVIF" None (toLowerCase "AVIF");
          ResetUI true].
Proof.
  destruct (completed_result_is_shown_again_after_reload mirrored_manager
              false true true
              (mkStatusData "done" None None "/out/j1.avif" None)
              (Some "AVIF") clock0 (mkClock 3600000 "1/1/1970, 1:00:00 AM")
              Failed [] (blank (job_store "j1" "avif" 0)) "AVIF" "AVIF"
              (or_intror eq_refl) eq_refl eq_refl eq_refl) as [H _].
  apply H. unfold TTL. simpl. lia.
Defined.

Lemma still_running_storage SM mob hist jobId fmt ticks p :
  Forall still_running ticks ->
  snd (detached (pollJobStatus SM mob hist jobId fmt ticks) p)
  = snd (pollJobStatus SM mob hist jobId fmt ticks p)
  ∧ storage (snd (pollJobStatus SM mob hist jobId fmt ticks p)) = storage p.
Proof.
  intros Hf. split.
  - unfold detached. unfold_m.
    now destruct (pollJobStatus SM mob hist jobId fmt ticks p) as [[x|] p'].
  - rewrite pollJobStatus_eq. simpl. unfold reached.
    now destruct (still_running_loop SM mob hist jobId fmt ticks
                    (mkLoop p (baseInt mob) 0 None) Hf eq_refl)
      as (_ & H & _).
Qed.

(** An accepted upload leaves the job in [localStorage]; as long as the
    job is still under way when the page goes away, and nothing else on
    the page has come between, the next page load within the TTL finds
    it, asks the server once, and, the job being still under way, starts
    a poll for that job and format. *)
Theorem active_job_is_resumed_after_reload
    (SM : StorageManager) (mob hist cm : bool) (format jobId : string)
    (c c' : Clock) (ticks ticks' : list tick) (data : StatusData) (p : page) :
  shipped SM ->
  write_fails (storage p) = false ->
  Forall still_running ticks ->
  (now c' - now c <= TTL)%Z ->
  status data <> "" ->
  is_terminal (status data) = false ->
  let started :=
    snd (uninterrupted_conversion SM mob hist cm format (Accepted jobId) c
           ticks p) in
  let o := (reload ;;
            checkAndResumeJob SM mob hist c' (Replied data) ticks') started in
  fst o = Normal Resumed
  ∧ exists pre,
      events pre
      = events started
        ++ [Fetch (progress_url (Some jobId)) 10000; ShowResumed]
      ∧ snd o
        = snd (pollJobStatus SM mob hist (Some jobId) (Some format) ticks'
                 pre).
Proof.
  intros HSM Hw Hrun Ht Hne Hnt started o.
  destruct p as [[CA [[it q]|]] ev]; unfold write_fails in Hw; simpl in Hw;
    [subst q|discriminate].
  apply String.eqb_neq in Hne.
  assert (Hstore :
    localStorage (storage started)
    = Some (mkStorage
              (<["activeJob" :=
                   Str (JObj (JobRef jobId format) (Some (now c)))]>
                 (delete "completedResult" it)) false)).
  { subst started.
    unfold uninterrupted_conversion, startConversion, xhr_onload, on_store,
      emit. unfold_m.
    destruct cm; [|destruct HSM as [-> | ->]; reflexivity].
    destruct HSM as [-> | ->]; simpl;
      match goal with
      | |- context [detached (pollJobStatus ?S ?m ?h ?j ?f ticks) ?p0] =>
          destruct (still_running_storage S m h j f ticks p0 Hrun)
            as [E1 E2];
          destruct (detached (pollJobStatus S m h j f ticks) p0)
            as [[x|] p1]; simpl in E1 |- *; subst p1; now rewrite E2
      end. }
  subst o. unfold reload, checkAndResumeJob, on_store. unfold_m. simpl.
  rewrite Hstore.
  set (it' := <["activeJob" :=
                  Str (JObj (JobRef jobId format) (Some (now c)))]>
                (delete "completedResult" it)) in *.
  assert (Hcr : it' !! "completedResult" = None).
  { subst it'. rewrite lookup_insert_ne by discriminate.
    apply lookup_delete_eq. }
  assert (Haj : it' !! "activeJob"
                = Some (Str (JObj (JobRef jobId format) (Some (now c)))))
    by apply lookup_insert_eq.
  destruct HSM as [-> | ->]; simpl;
    unfold Direct.getCompletedResult, Direct.getActiveJob,
      Mirrored.getCompletedResult, Mirrored.getActiveJob.
  - rewrite (direct_get_none_eq "completedResult" _ (now c') ∅
               (mkStorage it' false) Hcr). simpl.
    rewrite (direct_get_fresh_eq "activeJob" _ (now c') ∅
               (mkStorage it' false) _ _ Haj Ht). simpl.
    unfold emit. unfold_m. simpl. rewrite Hne, Hnt. simpl.
    match goal with
    | |- context [detached ?m ?p0] =>
        unfold detached; unfold_m; split;
        [ now destruct (pollJobStatus direct_manager mob hist (Some jobId)
                          (Some format) ticks' p0) as [[x|] p1]
        | exists p0; split;
          [ simpl; now rewrite <- !app_assoc
          | now destruct (pollJobStatus direct_manager mob hist (Some jobId)
                            (Some format) ticks' p0) as [[x|] p1] ] ]
    end.
  - rewrite (mirrored_get_none_eq "completedResult" true (now c') ∅ it'
               false (lookup_empty _) Hcr). simpl.
    rewrite (mirrored_get_fresh_eq "activeJob" true (now c') it' false
               _ _ Haj Ht). simpl.
    unfold emit. unfold_m. simpl. rewrite Hne, Hnt. simpl.
    match goal with
    | |- context [detached ?m ?p0] =>
        unfold detached; unfold_m; split;
        [ now destruct (pollJobStatus mirrored_manager mob hist (Some jobId)
                          (Some format) ticks' p0) as [[x|] p1]
        | exists p0; split;
          [ simpl; now rewrite <- !app_assoc
          | now destruct (pollJobStatus mirrored_manager mob hist (Some jobId)
                            (Some format) ticks' p0) as [[x|] p1] ] ]
    end.
Qed.

Lemma active_job_is_resumed_after_reload_witness :
  let started :=
    snd (uninterrupted_conversion mirrored_manager false true true "webp"
           (Accepted "j7") clock0 [FlagTrue clock0 (reply "queued")]
           (blank empty_store)) in
  let o := (reload ;;
            checkAndResumeJob mirrored_manager false true
              (mkClock 60000 "1/1/1970, 12:01:00 AM") (reply "running")
              [FlagTrue clock0 (reply "done")]) started in
  fst o = Normal Resumed
  ∧ exists pre,
      events pre
      = events started
        ++ [Fetch (progress_url (Some "j7")) 10000; ShowResumed]
      ∧ snd o
        = snd (pollJobStatus mirrored_manager false true (Some "j7")
                 (Some "webp") [FlagTrue clock0 (reply "done")] pre).
Proof.
  apply (active_job_is_resumed_after_reload mirrored_manager false true
           true "webp" "j7" clock0 (mkClock 60000 "1/1/1970, 12:01:00 AM")
           [FlagTrue clock0 (reply "queued")] [FlagTrue clock0 (reply "done")]
           (mkStatusData "running" None None "/out/j1.avif" None)
           (blank empty_store)).
  - right. reflexivity.
  - reflexivity.
  - repeat constructor.
  - unfold TTL. simpl. lia.
  - discriminate.
  - reflexivity.
Defined.

(** ** Reset *)

Section Reset.
Variable SM : StorageManager.
Variable absent : string -> store -> Prop.
Hypothesis C : contract SM absent.
Hypothesis getCompleted_absent :
  forall t s,
    absent "completedResult" s ->
    fst (sm_getCompletedResult SM t s) = Normal None.

Lemma resetForm_spec c p :
  let o := resetForm SM c p in
  exists job,
    fst (sm_getActiveJob SM (now c) (storage p)) = Normal job
    ∧ fst o = Normal tt
    ∧ events (snd o)
      = events p
        ++ (if present job
            then [CancelRequest
                    (String.append "/cancel/"
                       (default "undefined" (job ≫= job_id_of)))]
            else [])
        ++ [ResetUI false]
    ∧ forall t,
        fst (sm_getActiveJob SM t (storage (snd o))) = Normal None
        ∧ fst (sm_getCompletedResult SM t (storage (snd o))) = Normal None.
Proof.
  intros o. subst o. unfold resetForm, on_store, emit. unfold_m.
  destruct (c_getActive_total _ _ C (now c) (storage p)) as [job Hj].
  exists job. split; [exact Hj|].
  destruct (sm_getActiveJob SM (now c) (storage p)) as [[j|] s1];
    simpl in Hj; [|discriminate].
  inversion Hj; subst j. clear Hj.
  assert (G : forall ev,
    let o := (let (c0, s') := sm_clearCompletedResult SM s1 in
              match c0 with
              | Normal _ =>
                  let (c1, s'0) :=
                    let (r, s'0) := sm_clearActiveJob SM s' in
                    (r, mkPage s'0 ev) in
                  match c1 with
                  | Normal _ =>
                      (Normal tt,
                       mkPage (storage s'0) (events s'0 ++ [ResetUI false]))
                  | Throw => (Throw, s'0)
                  end
              | Throw => (Throw, mkPage s' ev)
              end) in
    fst o = Normal tt
    ∧ events (snd o) = ev ++ [ResetUI false]
    ∧ absent "activeJob" (storage (snd o))
    ∧ absent "completedResult" (storage (snd o))).
  { intros ev.
    destruct (c_clearCompleted_total _ _ C s1) as [[] H1].
    pose proof (c_clearCompleted_makes _ _ C s1) as M1.
    destruct (sm_clearCompletedResult SM s1) as [[[]|] s2];
      simpl in H1, M1; [|discriminate].
    destruct (c_clearActive_total _ _ C s2) as [[] H2].
    pose proof (c_clearActive_makes _ _ C s2) as M2.
    pose proof (c_clearActive_keeps _ _ C "completedResult"
                  ltac:(now right) s2 M1) as K2.
    destruct (sm_clearActiveJob SM s2) as [[[]|] s3];
      simpl in H2, M2, K2; [|discriminate].
    simpl. auto. }
  destruct (present job); simpl.
  - destruct (G (events p
                 ++ [CancelRequest
                       (String.append "/cancel/"
                          (default "undefined" (job ≫= job_id_of)))]))
      as (G1 & G2 & G3 & G4).
    cbv zeta in G1, G2, G3, G4.
    destruct (sm_clearCompletedResult SM s1) as [[[]|] s2];
      simpl in *; [|discriminate].
    destruct (sm_clearActiveJob SM s2) as [[[]|] s3];
      simpl in *; [|discriminate].
    split; [reflexivity|]. split; [now rewrite <- app_assoc|].
    intros t. split.
    + now apply (c_getActive_absent _ _ C).
    + now apply getCompleted_absent.
  - destruct (G (events p)) as (G1 & G2 & G3 & G4).
    cbv zeta in G1, G2, G3, G4.
    destruct (sm_clearCompletedResult SM s1) as [[[]|] s2];
      simpl in *; [|discriminate].
    destruct (sm_clearActiveJob SM s2) as [[[]|] s3];
      simpl in *; [|discriminate].
    split; [reflexivity|]. split; [reflexivity|].
    intros t. split.
    + now apply (c_getActive_absent _ _ C).
    + now apply getCompleted_absent.
Qed.
End Reset.

Lemma direct_getCompleted_absent t s :
  direct_absent "completedResult" s ->
  fst (Direct.getCompletedResult t s) = Normal None.
Proof.
  unfold direct_absent, durable. destruct s as [CA [ls|]]; simpl; intros H.
  - unfold Direct.getCompletedResult.
    now rewrite (direct_get_none_eq _ _ _ _ _ H).
  - reflexivity.
Qed.

Lemma mirrored_getCompleted_absent t s :
  mirrored_absent "completedResult" s ->
  fst (Mirrored.getCompletedResult t s) = Normal None.
Proof.
  unfold mirrored_absent, durable. destruct s as [CA [[it q]|]]; simpl;
    intros [Hc Hd].
  - unfold Mirrored.getCompletedResult.
    now rewrite (mirrored_get_none_eq _ _ _ _ _ _ Hc Hd).
  - unfold Mirrored.getCompletedResult, Mirrored._get, Mirrored._clear.
    unfold_prims. unfold_m. simpl. rewrite Hc. reflexivity.
Qed.

(** [resetForm] asks the server to cancel exactly when it can read an
    active job, and then always clears both entries and resets the form:
    afterwards neither an active job nor a completed result can be read,
    whatever the state of [localStorage]. *)
Theorem resetForm_cancels_the_job_and_clears_both_entries
    (SM : StorageManager) (c : Clock) (p : page) :
  shipped SM ->
  let o := resetForm SM c p in
  exists job,
    fst (sm_getActiveJob SM (now c) (storage p)) = Normal job
    ∧ fst o = Normal tt
    ∧ events (snd o)
      = events p
        ++ (if present job
            then [CancelRequest
                    (String.append "/cancel/"
                       (default "undefined" (job ≫= job_id_of)))]
            else [])
        ++ [ResetUI false]
    ∧ forall t,
        fst (sm_getActiveJob SM t (storage (snd o))) = Normal None
        ∧ fst (sm_getCompletedResult SM t (storage (snd o))) = Normal None.
Proof.
  intros [-> | ->].
  - apply (resetForm_spec direct_manager direct_absent direct_contract).
    intros t s. apply direct_getCompleted_absent.
  - apply (resetForm_spec mirrored_manager mirrored_absent mirrored_contract).
    intros t s. apply mirrored_getCompleted_absent.
Qed.

Lemma resetForm_cancels_the_job_and_clears_both_entries_witness :
  let p := blank (job_store "j1" "avif" 0) in
  let o := resetForm mirrored_manager clock0 p in
  exists job,
    fst (sm_getActiveJob mirrored_manager (now clock0) (storage p))
    = Normal job
    ∧ fst o = Normal tt
    ∧ events (snd o)
      = events p
        ++ (if present job
            then [CancelRequest
                    (String.append "/cancel/"
                       (default "undefined" (job ≫= job_id_of)))]
            else [])
        ++ [ResetUI false]
    ∧ forall t,
        fst (sm_getActiveJob mirrored_manager t (storage (snd o)))
        = Normal None
        ∧ fst (sm_getCompletedResult mirrored_manager t (storage (snd o)))
          = Normal None.
Proof.
  apply (resetForm_cancels_the_job_and_clears_both_entries mirrored_manager
           clock0 (blank (job_store "j1" "avif" 0))).
  right. reflexivity.
Defined.

(** ** Page initialisation *)

(** With the first listing the initialisation of the page never fails on
    storage.  With the mirrored listing it fails exactly when the page has
    the auto-download toggle and [localStorage] is unusable: the unguarded
    [getAutoDownload] throws out of [UIManager.init], so that the history
    is not loaded and the conversion manager is never initialised. *)
Theorem page_initialisation_fails_only_on_the_unguarded_preference :
  forall has_toggle has_section t s,
    (exists ui,
        fst (App_init direct_manager has_toggle has_section t s) = Normal ui)
    ∧ (fst (App_init mirrored_manager has_toggle has_section t s) = Throw
       <-> has_toggle = true ∧ localStorage s = None).
Proof. exact App_init_outcome. Qed.

(** * The queue counter *)

Section QueueProofs.
Variables has_queueCount has_queueCounter : bool.
Variable isMobile : bool.

#[local] Abbreviation step := (queue_step has_queueCount has_queueCounter).
#[local] Abbreviation run := (queue_run has_queueCount has_queueCounter).
#[local] Abbreviation ok := (queue_ok has_queueCounter).

Lemma begin_update_ok u : ok u -> ok (begin_update has_queueCount u).
Proof.
  unfold queue_ok, begin_update. intros (H1 & H2 & H3).
  destruct (negb (pageVisible u) || negb has_queueCount); simpl; auto.
  repeat split; auto. lia.
Qed.

Lemma queue_failed_ok u : ok u -> ok (queue_failed u).
Proof.
  unfold queue_ok, queue_failed. intros (H1 & H2 & H3). simpl.
  repeat split; auto.
  destruct (5 <? S (queueRetryCount u))%nat eqn:E; [congruence|].
  intros _. apply Nat.ltb_ge in E. lia.
Qed.

Lemma finish_update_ok r u :
  ok u -> ok (finish_update has_queueCounter r u).
Proof.
  intros Hu. destruct r as [|q]; simpl; [now apply queue_failed_ok|].
  destruct has_queueCounter eqn:Hc.
  - destruct Hu as (H1 & H2 & H3). unfold queue_ok. simpl.
    repeat split; auto. lia.
  - rewrite <- Hc. apply queue_failed_ok.
    destruct Hu as (H1 & H2 & H3). unfold queue_ok. simpl.
    rewrite Hc in *. simpl in *. auto.
Qed.

Lemma queue_step_ok u e : ok u -> ok (step u e).
Proof.
  intros Hu. destruct e as [|hidden|r]; simpl.
  - destruct (queueCounterInterval u); [now apply begin_update_ok|exact Hu].
  - unfold on_visibilitychange. simpl. destruct hidden; simpl.
    + destruct Hu as (H1 & H2 & H3). unfold queue_ok. simpl.
      repeat split; auto; congruence.
    + apply begin_update_ok. exact Hu.
  - destruct (queue_pending u) as [|n] eqn:Hp; [exact Hu|].
    apply finish_update_ok.
    destruct Hu as (H1 & H2 & H3). unfold queue_ok. simpl.
    repeat split; auto. lia.
Qed.

Lemma queue_run_ok es : forall u, ok u -> ok (run es u).
Proof.
  induction es as [|e es IH]; intros u Hu; [exact Hu|].
  simpl. apply IH. now apply queue_step_ok.
Qed.

Lemma startQueuePolling_ok u :
  (queueRetryCount u <= 5)%nat ->
  high_queue u
  = has_queueCounter
    && match queueCount_text u with
       | Some n => (2 <? n)%Z
       | None => false
       end ->
  (queue_pending u <= queue_requests u)%nat ->
  ok (startQueuePolling has_queueCount isMobile u).
Proof.
  intros H1 H2 H3. unfold startQueuePolling, begin_update. simpl.
  destruct (negb (pageVisible u) || negb has_queueCount); unfold queue_ok;
    simpl; repeat split; auto. lia.
Qed.

Lemma step_stopped u e :
  queueCounterInterval u = None ->
  queueCounterInterval (step u e) = None
  ∧ (queue_requests (step u e)
     <= queue_requests u
        + match e with VisibilityChange false => 1 | _ => 0 end)%nat.
Proof.
  intros Hn. destruct e as [|hidden|r]; simpl.
  - rewrite Hn. split; [exact Hn|lia].
  - unfold on_visibilitychange, begin_update. simpl.
    destruct hidden; simpl; [split; [reflexivity|lia]|].
    destruct (negb has_queueCount); simpl; split; auto; lia.
  - destruct (queue_pending u) as [|n]; [split; [exact Hn|lia]|].
    destruct r as [|q]; simpl; unfold queue_failed; simpl.
    + rewrite Hn. destruct (5 <? S (queueRetryCount u))%nat; split; auto; lia.
    + destruct has_queueCounter; simpl; [split; [exact Hn|lia]|].
      rewrite Hn.
      destruct (5 <? S (queueRetryCount u))%nat; split; auto; lia.
Qed.

Lemma run_stopped es : forall u,
  queueCounterInterval u = None ->
  queueCounterInterval (run es u) = None
  ∧ (queue_requests (run es u) <= queue_requests u + shows es)%nat.
Proof.
  induction es as [|e es IH]; intros u Hn.
  - simpl. split; [exact Hn|]. unfold shows. simpl. lia.
  - simpl. destruct (step_stopped u e Hn) as [H1 H2].
    destruct (IH _ H1) as [H3 H4]. split; [exact H3|].
    unfold shows in *. simpl.
    destruct e as [|[|]|r]; simpl in *; lia.
Qed.

Lemma failed_updates n : forall u,
  let u' := Nat.iter n queue_failed u in
  queueRetryCount u' = (queueRetryCount u + n)%nat
  ∧ ((5 < queueRetryCount u + n)%nat -> (0 < n)%nat ->
     queueCounterInterval u' = None)
  ∧ ((queueRetryCount u + n <= 5)%nat ->
     queueCounterInterval u' = queueCounterInterval u).
Proof.
  induction n as [|n IH]; intros u u'; subst u'.
  - simpl. split; [lia|]. split; [lia|reflexivity].
  - simpl Nat.iter. destruct (IH u) as (H1 & H2 & H3). cbv zeta in *.
    set (v := Nat.iter n queue_failed u) in *.
    unfold queue_failed. simpl. rewrite H1.
    split; [lia|]. split.
    + intros H _. destruct (5 <? S (queueRetryCount u + n))%nat eqn:E;
        [reflexivity|]. apply Nat.ltb_ge in E. lia.
    + intros H. destruct (5 <? S (queueRetryCount u + n))%nat eqn:E.
      * apply Nat.ltb_lt in E. lia.
      * apply H3. lia.
Qed.
End QueueProofs.

(** From the start of queue polling on, whatever happens: the timer is
    only ever running with at most five failures counted, the counter
    carries the class [high-queue] exactly when the element exists and the
    number shown is above 2, and no more responses are awaited than
    requests were made. *)
Theorem queue_counter_invariant :
  forall has_queueCount has_queueCounter isMobile es,
    queue_ok has_queueCounter
      (queue_run has_queueCount has_queueCounter es
         (startQueuePolling has_queueCount isMobile new_QueueUI)).
Proof.
  intros hc hk mob es. apply queue_run_ok.
  apply startQueuePolling_ok; simpl; [lia|now destruct hk|lia].
Qed.

(** Hiding the page stops the queue timer for good: no later event sets
    it again, the timer being only ever set by [startQueuePolling].
    After the page was hidden, requests to [/queue] are made only when
    the page is shown again, one each time at most. *)
Theorem queue_polling_never_resumes_after_hiding :
  forall has_queueCount has_queueCounter es1 es2 u,
    let hidden :=
      queue_run has_queueCount has_queueCounter
        (es1 ++ [VisibilityChange true]) u in
    let u' :=
      queue_run has_queueCount has_queueCounter
        (es1 ++ VisibilityChange true :: es2) u in
    queueCounterInterval hidden = None
    ∧ queueCounterInterval u' = None
    ∧ (queue_requests u' <= queue_requests hidden + shows es2)%nat.
Proof.
  intros hc hk es1 es2 u hidden u'. subst hidden u'. unfold queue_run.
  rewrite !fold_left_app. simpl.
  set (u1 := fold_left (queue_step hc hk) es1 u).
  assert (Hn : queueCounterInterval (on_visibilitychange hc true u1) = None)
    by reflexivity.
  split; [exact Hn|]. apply (run_stopped hc hk es2 _ Hn).
Qed.

(** Failed updates are counted one by one; the failure that brings the
    count above five stops the timer, and until then the timer is left
    alone.  An answered update resets the count (when the counter element
    exists) and leaves the timer as it is. *)
Theorem six_failed_updates_stop_the_queue_timer :
  forall has_queueCounter n u,
    let u' := Nat.iter n (finish_update has_queueCounter QFailed) u in
    queueRetryCount u' = (queueRetryCount u + n)%nat
    ∧ ((5 < queueRetryCount u + n)%nat -> (0 < n)%nat ->
       queueCounterInterval u' = None)
    ∧ ((queueRetryCount u + n <= 5)%nat ->
       queueCounterInterval u' = queueCounterInterval u)
    ∧ (forall q,
         queueRetryCount (finish_update true (QReplied q) u) = 0%nat
         ∧ queueCounterInterval (finish_update true (QReplied q) u)
           = queueCounterInterval u).
Proof.
  intros hk n u u'. subst u'.
  change (finish_update hk QFailed) with queue_failed.
  destruct (failed_updates n u) as (H1 & H2 & H3).
  repeat split; auto.
Qed.

Lemma six_failed_updates_stop_the_queue_timer_witness :
  queueCounterInterval
    (Nat.iter 6 (finish_update true QFailed)
       (startQueuePolling true false new_QueueUI)) = None.
Proof.
  destruct (six_failed_updates_stop_the_queue_timer true 6
              (startQueuePolling true false new_QueueUI)) as (_ & H & _).
  apply H; simpl; lia.
Defined.

(** * Utils *)

Lemma prefix_of_validTypes ty :
  existsb (String.eqb ty) validTypes = true -> String.prefix "video/" ty = true.
Proof.
  unfold validTypes. simpl. rewrite !orb_true_iff.
  intros H. repeat destruct H as [H|H]; try discriminate;
    apply String.eqb_eq in H; subst ty; reflexivity.
Qed.

(** [isValidVideoFile] accepts a file exactly when its type starts with
    [video/]: every type on the list of accepted types has that prefix, so
    the list never decides.  A missing file is rejected. *)
Theorem isValidVideoFile_checks_only_the_prefix :
  (forall file,
      isValidVideoFile (Some file) = Valid
      <-> String.prefix "video/" (file_type file) = true)
  ∧ isValidVideoFile None <> Valid.
Proof.
  split; [|intros H; discriminate H].
  intros file. unfold isValidVideoFile. cbv zeta.
  destruct (String.prefix "video/" (file_type file)) eqn:E;
    destruct (existsb (String.eqb (file_type file)) validTypes) eqn:E';
    cbn [orb negb].
  - split; reflexivity.
  - split; reflexivity.
  - apply prefix_of_validTypes in E'. congruence.
  - split; intros H; discriminate H.
Qed.

(** The tables of labels and of extensions agree on every format that
    has a label: the label, lower-cased again, has the extension of the
    format, so that the forced download is named after the stored format.
    [formatSupportsAudio] lower-cases its argument and
    [getExtensionForFormat] does not: a format supports audio exactly
    when its lower-cased form is delivered as [.mp4]; for a format
    written in lower case that is when the format itself is delivered as
    [.mp4], while [MP4] supports audio and is delivered as [.avif]. *)
Theorem format_tables_agree (f label : string) :
  getFormatLabel f = Some label ->
  getExtensionForFormat (toLowerCase label) = getExtensionForFormat f
  ∧ (exists ext,
       getExtensionForFormat f = Some ext
       ∧ download_name label
         = Some (String.append "converted_video." (remove_first_dot ext)))
  ∧ (forall g,
       formatSupportsAudio (Some g) = true
       <-> getExtensionForFormat (toLowerCase g) = Some ".mp4")
  ∧ (toLowerCase f = f ->
     (formatSupportsAudio (Some f) = true
      <-> getExtensionForFormat f = Some ".mp4"))
  ∧ formatSupportsAudio (Some "MP4") = true
  ∧ getExtensionForFormat "MP4" = Some ".avif".
Proof.
  intros Hl.
  assert (E : getExtensionForFormat (toLowerCase label)
              = getExtensionForFormat f
              ∧ exists ext, getExtensionForFormat f = Some ext).
  { unfold getFormatLabel in Hl. unfold getExtensionForFormat.
    destruct (String.eqb f "gif") eqn:E1.
    { apply String.eqb_eq in E1. inversion Hl. subst. simpl. eauto. }
    destruct (String.eqb f "webp") eqn:E2.
    { apply String.eqb_eq in E2. inversion Hl. subst. simpl. eauto. }
    destruct (String.eqb f "mp4") eqn:E3.
    { apply String.eqb_eq in E3. inversion Hl. subst. simpl. eauto. }
    destruct (String.eqb f "av1") eqn:E4.
    { apply String.eqb_eq in E4. inversion Hl. subst. simpl. eauto. }
    destruct (String.eqb f "avif") eqn:E5.
    { inversion Hl. subst. simpl. eauto. }
    destruct (inherited f); [discriminate Hl|].
    inversion Hl. subst. simpl. eauto. }
  destruct E as [E [ext Hext]].
  assert (A : forall g,
    formatSupportsAudio (Some g) = true
    <-> getExtensionForFormat (toLowerCase g) = Some ".mp4").
  { intros g. unfold formatSupportsAudio, getExtensionForFormat. simpl.
    destruct (String.eqb (toLowerCase g) "avif") eqn:E1.
    { apply String.eqb_eq in E1. rewrite E1. simpl.
      split; intros H; discriminate H. }
    destruct (String.eqb (toLowerCase g) "webp") eqn:E2.
    { apply String.eqb_eq in E2. rewrite E2. simpl.
      split; intros H; discriminate H. }
    destruct (String.eqb (toLowerCase g) "mp4") eqn:E3; simpl.
    { split; reflexivity. }
    destruct (String.eqb (toLowerCase g) "av1") eqn:E4; simpl.
    { split; reflexivity. }
    destruct (String.eqb (toLowerCase g) "gif");
      [split; intros H; discriminate H|].
    destruct (inherited (toLowerCase g)); split; intros H; discriminate H. }
  split; [exact E|]. split; [|split; [exact A|split; [|split]]].
  - exists ext. split; [exact Hext|].
    unfold download_name. rewrite E, Hext. reflexivity.
  - intros Hlow. rewrite <- Hlow at 2. apply A.
  - reflexivity.
  - reflexivity.
Qed.

Lemma format_tables_agree_witness :
  getExtensionForFormat (toLowerCase "AV1") = getExtensionForFormat "av1"
  ∧ download_name "AV1" = Some "converted_video.mp4"
  ∧ (formatSupportsAudio (Some "av1") = true
     <-> getExtensionForFormat "av1" = Some ".mp4").
Proof.
  destruct (format_tables_agree "av1" "AV1" eq_refl)
    as (H1 & (ext & Hext & H2) & _ & H3 & _).
  split; [exact H1|]. split; [|apply H3; reflexivity].
  rewrite H2. inversion Hext. reflexivity.
Defined.

(** * The retry message *)

Lemma keeps_unseen_on_store {A} e (m : M store A) :
  keeps (unseen e) (on_store m).
Proof.
  intros p H. unfold on_store. now destruct (m (storage p)) as [r s1].
Qed.

Lemma keeps_unseen_emit e e' : e' <> e -> keeps (unseen e) (emit e').
Proof.
  intros Hne p H. unfold unseen, emit, modify in *. simpl.
  rewrite in_app_iff. intros [Hin|[Hin|[]]]; [now apply H|now apply Hne].
Qed.

Ltac unseen_auto :=
  repeat first
    [ apply keeps_mret
    | apply keeps_throw
    | apply keeps_gets
    | apply (keeps_set_interval (unseen still_trying))
    | apply (keeps_set_errs (unseen still_trying))
    | apply (keeps_set_lastSt (unseen still_trying))
    | apply keeps_unseen_on_store
    | apply keeps_unseen_emit; discriminate
    | apply (keeps_on_page (unseen still_trying))
    | apply keeps_try
    | apply keeps_bind; [|intros ?]
    | case_match ].

Section Retry.
Variable SM : StorageManager.
Variable hist : bool.
Variables jobId fmt : option string.

Lemma try_block_unseen mob c r :
  keeps (fun l => unseen still_trying (pg l))
    (try_block SM mob hist jobId fmt c r).
Proof.
  unfold try_block, fetch_status, _complete, _err. unseen_auto.
Qed.

Lemma catch_block_unseen_mobile :
  keeps (fun l => unseen still_trying (pg l)) (catch_block SM true).
Proof.
  intros l H. rewrite catch_block_eq.
  destruct (maxErrs true <=? S (errs l))%nat eqn:E; rewrite on_page_then.
  - assert (K : keeps (unseen still_trying) (_connLost SM))
      by (unfold _connLost; unseen_auto).
    specialize (K (pg (backed_off l)) H).
    now destruct (_connLost SM (pg (backed_off l))) as [[[]|] p'].
  - apply Nat.leb_gt in E. unfold maxErrs in E.
    assert (K : keeps (unseen still_trying)
                  (_retryMsg (S (errs l)) (lastSt l))).
    { unfold _retryMsg.
      destruct (errs l) as [|[|[|n]]]; try lia; unseen_auto. }
    specialize (K (pg (backed_off l)) H).
    now destruct (_retryMsg (S (errs l)) (lastSt l) (pg (backed_off l)))
      as [[[]|] p'].
Qed.

Lemma poll_body_unseen_mobile t :
  keeps (fun l => unseen still_trying (pg l))
    (poll_body SM true hist jobId fmt t).
Proof.
  destruct t as [|c r]; unfold poll_body.
  - unseen_auto.
  - apply keeps_bind.
    + apply keeps_try; [apply try_block_unseen|apply catch_block_unseen_mobile].
    + intros out. unseen_auto.
Qed.

Lemma poll_loop_unseen_mobile ticks : forall l,
  unseen still_trying (pg l) ->
  unseen still_trying (pg (snd (poll_loop SM true hist jobId fmt ticks l))).
Proof.
  induction ticks as [|t rest IH]; intros l H; [exact H|].
  rewrite poll_loop_cons. pose proof (poll_body_unseen_mobile t l H) as K.
  destruct (poll_body SM true hist jobId fmt t l) as [[[x|]|] l'];
    simpl in *; auto.
Qed.
End Retry.

(** On the standard profile the third failed request in a row shows
    "Still trying..." (unless the last status was literally [error-3]).
    On the mobile profile the third failure already ends the poll, so a
    poll never shows that message. *)
Theorem still_trying_is_never_shown_on_mobile
    (SM : StorageManager) (hist : bool) (jobId fmt : option string) :
  (forall ticks p,
      unseen still_trying p ->
      unseen still_trying
        (snd (pollJobStatus SM true hist jobId fmt ticks p)))
  ∧ (forall c l,
      errs l = 2%nat -> lastSt l <> Some "error-3" ->
      In still_trying
        (events (pg (snd (poll_body SM false hist jobId fmt
                            (FlagTrue c Failed) l))))).
Proof.
  split.
  - intros ticks p H. rewrite pollJobStatus_eq. simpl. unfold reached.
    now apply poll_loop_unseen_mobile.
  - intros c l He Hl. rewrite poll_body_flag_true. unfold try_catch.
    rewrite try_block_failed, catch_block_eq. simpl errs. rewrite He.
    simpl. unfold _retryMsg, on_page, emit. unfold_m. simpl.
    rewrite bool_decide_false by exact Hl. simpl.
    rewrite !in_app_iff. simpl. auto.
Qed.

Lemma still_trying_is_never_shown_on_mobile_witness :
  unseen still_trying
    (snd (pollJobStatus mirrored_manager true true (Some "j1") (Some "avif")
            (repeat timeout_tick 3) (blank empty_store))).
Proof.
  destruct (still_trying_is_never_shown_on_mobile mirrored_manager true
              (Some "j1") (Some "avif")) as [H _].
  apply H. unfold unseen. simpl. tauto.
Defined.

(** * A refused upload *)

(** [startConversion] discards the stored result before the upload is
    made: when the upload is refused, the previous result can no longer
    be read, no job has been stored in its place, and the page shows the
    upload error and the reset form. *)
Theorem refused_upload_has_discarded_the_previous_result
    (SM : StorageManager) (mob hist cm : bool) (format : string) (c : Clock)
    (ticks : list tick) (p : page) :
  shipped SM ->
  let o := uninterrupted_conversion SM mob hist cm format Refused c ticks p in
  fst o = Normal tt
  ∧ events (snd o) = events p ++ [ShowUploading; ShowUploadError; ResetUI false]
  ∧ storage (snd o) = snd (sm_clearCompletedResult SM (storage p))
  ∧ forall t,
      fst (sm_getCompletedResult SM t (storage (snd o))) = Normal None.
Proof.
  intros HSM o. subst o.
  unfold uninterrupted_conversion, startConversion, xhr_onload, on_store,
    emit. unfold_m.
  assert (G : fst (sm_clearCompletedResult SM (storage p)) = Normal tt
              ∧ forall t,
                  fst (sm_getCompletedResult SM t
                         (snd (sm_clearCompletedResult SM (storage p))))
                  = Normal None).
  { destruct HSM as [-> | ->].
    - destruct (c_clearCompleted_total _ _ direct_contract (storage p))
        as [[] H]. split; [exact H|]. intros t.
      apply direct_getCompleted_absent.
      apply (c_clearCompleted_makes _ _ direct_contract).
    - destruct (c_clearCompleted_total _ _ mirrored_contract (storage p))
        as [[] H]. split; [exact H|]. intros t.
      apply mirrored_getCompleted_absent.
      apply (c_clearCompleted_makes _ _ mirrored_contract). }
  destruct G as [G1 G2].
  destruct (sm_clearCompletedResult SM (storage p)) as [[[]|] s1];
    simpl in *; [|discriminate].
  split; [reflexivity|]. split; [now rewrite <- !app_assoc|].
  split; [reflexivity|exact G2].
Qed.

Lemma refused_upload_has_discarded_the_previous_result_witness :
  let done := snd (_complete direct_manager false
                     (mkStatusData "done" None None "/out/j1.avif" None)
                     (Some "avif") clock0 (blank empty_store)) in
  let o := uninterrupted_conversion direct_manager false false true "webp"
             Refused clock0 [] done in
  fst o = Normal tt
  ∧ events (snd o)
    = events done ++ [ShowUploading; ShowUploadError; ResetUI false]
  ∧ storage (snd o)
    = snd (sm_clearCompletedResult direct_manager (storage done))
  ∧ forall t,
      fst (sm_getCompletedResult direct_manager t (storage (snd o)))
      = Normal None.
Proof.
  intros done.
  apply (refused_upload_has_discarded_the_previous_result direct_manager
           false false true "webp" clock0 [] done).
  left. reflexivity.
Defined.
